(** * Solvirx token tracker: filters, matcher, source clients, match store

    A shallow embedding of the tracking and matching engine of [main.py].

    Modelling conventions.
    - Python [str] values are Rocq strings, read as ASCII text: [str.lower],
      the regular expression class [\s], [int] and [len] are modelled on
      ASCII characters. On text outside ASCII the source treats more
      characters as letters, spaces and digits than the model does, so a
      statement that depends on them is made for ASCII text ([is_ascii]).
    - A token is the Python dict it is in the source. The matcher and the
      match store read its text fields only, so for them a token is a
      finite map from field names to text ([Token]); a missing key is a
      missing binding. The source clients build tokens from JSON payloads
      and keep whatever value the payload holds ([FeedToken]).
    - The module-level dicts ([user_filters], [user_matched_tokens],
      [user_match_history], the caches) are fields of explicit state records
      that every operation takes and returns.
    - [datetime.now], [random.random] and the HTTP endpoint are oracles:
      the n-th call reads the n-th value.
    - [save_user_data], [print] and the outgoing chat messages do not
      change the in-memory state and are left out.
    - Delays are exact rationals and JSON numbers are integers; the
      rounding of floating-point arithmetic is not modelled.
    - The event loop is cooperative: a handler and the preamble of the
      task it creates run without another handler in between, and a
      cancelled task is done before the next handler runs. *)

From Stdlib Require Import ZArith QArith Qminmax Lia Lqa Ascii.
From stdpp Require Import base strings gmap list pretty.

Local Open Scope Z_scope.

(** ** Text primitives *)

Module Text.

(** [str.lower], ASCII letters only. *)
Definition lower_ascii (c : ascii) : ascii :=
  let n := N_of_ascii c in
  if ((65 <=? n) && (n <=? 90))%N then ascii_of_N (n + 32) else c.

Fixpoint lower (s : string) : string :=
  match s with
  | EmptyString => EmptyString
  | String c r => String (lower_ascii c) (lower r)
  end.

(** [s.startswith(p)], returning what follows the prefix. *)
Fixpoint strip_prefix (p s : string) : option string :=
  match p, s with
  | EmptyString, _ => Some s
  | String a p', String b s' =>
      if Ascii.eqb a b then strip_prefix p' s' else None
  | String _ _, EmptyString => None
  end.

Definition startswith (p s : string) : bool :=
  match strip_prefix p s with Some _ => true | None => false end.

(** [p in s] on strings: [p] occurs in [s] as a contiguous run. *)
Fixpoint contains (p s : string) : bool :=
  startswith p s ||
  match s with
  | EmptyString => false
  | String _ r => contains p r
  end.

(** Truth value of a string: [bool(s)]. *)
Definition truthy (s : string) : bool :=
  match s with EmptyString => false | String _ _ => true end.

(** White space as [str.strip] and the class [\s] see it in the ASCII
    range: TAB, LF, VT, FF, CR, FS, GS, RS, US and the blank. *)
Definition is_space (c : ascii) : bool :=
  let n := N_of_ascii c in
  (((9 <=? n) && (n <=? 13)) || ((28 <=? n) && (n <=? 32)))%N.

(** The white space [int] skips around a literal: TAB, LF, VT, FF, CR and
    the blank; unlike [str.strip] it does not skip FS, GS, RS and US. *)
Definition is_int_space (c : ascii) : bool :=
  let n := N_of_ascii c in
  (((9 <=? n) && (n <=? 13)) || (n =? 32))%N.

Fixpoint lstrip_by (drop : ascii → bool) (s : string) : string :=
  match s with
  | EmptyString => EmptyString
  | String c r => if drop c then lstrip_by drop r else s
  end.

(** [s.rstrip('/')] when [drop] tests for the slash; with [lstrip_by],
    the skipping of white space around a literal. *)
Fixpoint rstrip_by (drop : ascii → bool) (s : string) : string :=
  match s with
  | EmptyString => EmptyString
  | String c r =>
      match rstrip_by drop r with
      | EmptyString => if drop c then EmptyString else String c EmptyString
      | t => String c t
      end
  end.

Definition digit_value (c : ascii) : option Z :=
  let n := N_of_ascii c in
  if ((48 <=? n) && (n <=? 57))%N then Some (Z.of_N n - 48) else None.

(** The digits of a decimal literal: single underscores are allowed
    between two digits, nowhere else. [after_digit] tells whether the
    previous character was a digit. *)
Fixpoint int_digits (acc : Z) (after_digit : bool) (s : string) : option Z :=
  match s with
  | EmptyString => if after_digit then Some acc else None
  | String c r =>
      match digit_value c with
      | Some d => int_digits (10 * acc + d) true r
      | None =>
          if Ascii.eqb c "_" && after_digit
          then int_digits acc false r
          else None
      end
  end.

(** [int(s)]: [None] stands for [ValueError]. *)
Definition py_int (s : string) : option Z :=
  match lstrip_by is_int_space (rstrip_by is_int_space s) with
  | String "+" r => int_digits 0 false r
  | String "-" r => Z.opp <$> int_digits 0 false r
  | t => int_digits 0 false t
  end.

End Text.

(** ** A backtracking matcher for the two patterns of the source

    The patterns use literals, sequencing, alternation and greedy optional
    groups. [re_match r s] lists what is left of [s] after each way of
    matching [r] at its start, in the order in which Python's matcher tries
    them, so its head is the match Python reports. *)

Module Regex.
Import Text.

Inductive re : Type :=
| Lit (p : string)
| Seq (r1 r2 : re)
| Alt (r1 r2 : re)
| Opt (r : re).

Fixpoint re_match (r : re) (s : string) : list string :=
  match r with
  | Lit p => match strip_prefix p s with Some t => [t] | None => [] end
  | Seq r1 r2 => t ← re_match r1 s; re_match r2 t
  | Alt r1 r2 => re_match r1 s ++ re_match r2 s
  | Opt r1 => re_match r1 s ++ [s]
  end.

(** [(?:https?:\/\/)?] *)
Definition scheme : re := Opt (Seq (Lit "http") (Seq (Opt (Lit "s")) (Lit "://"))).

(** [(?:www\.)?] *)
Definition www : re := Opt (Lit "www.").

(** [(?:https?:\/\/)?(?:www\.)?(?:twitter\.com|x\.com)] *)
Definition twitter_url_host : re :=
  Seq scheme (Seq www (Alt (Lit "twitter.com") (Lit "x.com"))).

(** [\/(?:#!\/)?@?] *)
Definition twitter_url_path : re :=
  Seq (Lit "/") (Seq (Opt (Lit "#!/")) (Opt (Lit "@"))).

(** Everything of [twitter_url_regex] before its capture group. *)
Definition twitter_url_head : re := Seq twitter_url_host twitter_url_path.

(** The class of the capture group, [[^/?\s]]. *)
Definition handle_char (c : ascii) : bool :=
  negb (Ascii.eqb c "/" || Ascii.eqb c "?" || is_space c).

(** The greedy run [[^/?\s]*] at the start of [s]. *)
Fixpoint take_handle (s : string) : string :=
  match s with
  | EmptyString => EmptyString
  | String c r => if handle_char c then String c (take_handle r) else EmptyString
  end.

(** The capture group [([^/?\s]+)] closes the pattern, so the first way
    of matching the head after which the run is not empty wins, and the
    group is the whole run. *)
Fixpoint first_group (ts : list string) : option string :=
  match ts with
  | [] => None
  | t :: ts' =>
      if truthy (take_handle t) then Some (take_handle t) else first_group ts'
  end.

Definition match_here (s : string) : option string :=
  first_group (re_match twitter_url_head s).

(** [re.search(twitter_url_regex, s)], reduced to [group(1)]: the
    leftmost position at which the pattern matches. *)
Fixpoint search_twitter_url (s : string) : option string :=
  match match_here s with
  | Some g => Some g
  | None =>
      match s with
      | EmptyString => None
      | String _ r => search_twitter_url r
      end
  end.

(** [re.sub(r'^(https?:\/\/)?(www\.)?', '', s)]: the pattern is anchored
    and every part is optional, so it matches once, at the start. *)
Definition strip_scheme_www (s : string) : string :=
  match re_match (Seq scheme www) s with
  | t :: _ => t
  | [] => s
  end.

End Regex.

(** ** Filters *)

Record WatchlistFilter : Type := mkFilter {
  filter_id : string;
  filter_type : string;   (* "twitter" | "website" | "token" | "wallet" | "believe" *)
  value : string
}.

Global Instance WatchlistFilter_eq_dec : EqDecision WatchlistFilter.
Proof. solve_decision. Defined.

Definition normalize_twitter_handle (handle : string) : string :=
  if negb (Text.truthy handle) then ""
  else
    let normalized := Text.lower handle in
    let normalized :=
      match Regex.search_twitter_url normalized with
      | Some g => g
      | None => normalized
      end in
    match Text.strip_prefix "@" normalized with
    | Some r => r
    | None => normalized
    end.

Definition normalize_url (url : string) : string :=
  if negb (Text.truthy url) then ""
  else
    Text.rstrip_by (λ c, Ascii.eqb c "/")
      (Regex.strip_scheme_www (Text.lower url)).

Definition are_filters_equal (filter1 filter2 : WatchlistFilter) : bool :=
  if negb (bool_decide (filter_type filter1 = filter_type filter2)) then false
  else if bool_decide (filter_type filter1 = "twitter") then
    bool_decide (normalize_twitter_handle (value filter1)
                 = normalize_twitter_handle (value filter2))
  else if bool_decide (filter_type filter1 = "website") then
    bool_decide (normalize_url (value filter1) = normalize_url (value filter2))
  else if bool_decide (filter_type filter1 ∈ ["token"; "wallet"]) then
    bool_decide (Text.lower (value filter1) = Text.lower (value filter2))
  else if bool_decide (filter_type filter1 = "believe") then
    match Text.py_int (value filter1), Text.py_int (value filter2) with
    | Some n1, Some n2 => bool_decide (n1 = n2)
    | _, _ => bool_decide (value filter1 = value filter2)
    end
  else bool_decide (value filter1 = value filter2).

(** ** Tokens and the matcher *)

Abbreviation Token := (gmap string string).

(** [token.get(key, '')] *)
Definition field (token : Token) (key : string) : string :=
  default "" (token !! key).

(** One turn of the loop of [check_token_match]: the value of [is_match]
    after the branch for the filter's kind. *)
Definition filter_matches (token : Token) (filter_obj : WatchlistFilter) : bool :=
  let v := Text.lower (value filter_obj) in
  if bool_decide (filter_type filter_obj = "believe") then
    bool_decide (token !! "source" = Some "believe")
  else if bool_decide (filter_type filter_obj = "twitter") then
    let normalized_filter_value := normalize_twitter_handle v in
    let normalized_twitter := normalize_twitter_handle (field token "twitter") in
    let normalized_twitter_username :=
      normalize_twitter_handle (field token "twitterUsername") in
    if Text.truthy normalized_twitter
       && Text.contains normalized_filter_value normalized_twitter then true
    else Text.truthy normalized_twitter_username
         && Text.contains normalized_filter_value normalized_twitter_username
  else if bool_decide (filter_type filter_obj = "website") then
    let token_website := Text.lower (field token "website") in
    Text.truthy token_website && Text.contains v token_website
  else if bool_decide (filter_type filter_obj = "token") then
    let token_name := Text.lower (field token "name") in
    let token_symbol := Text.lower (field token "symbol") in
    let token_address := Text.lower (field token "address") in
    if (30 <? String.length v)%nat then bool_decide (token_address = v)
    else if Text.contains v token_name then true
    else Text.contains v token_symbol
  else if bool_decide (filter_type filter_obj = "wallet") then
    let token_deployer := Text.lower (field token "deployer") in
    let token_creator := Text.lower (field token "creator") in
    if bool_decide (token_deployer = v) then true
    else bool_decide (token_creator = v)
  else false.

(** The [for] loop: the first filter for which [is_match] is set. *)
Fixpoint first_match (token : Token) (filters : list WatchlistFilter)
  : option WatchlistFilter :=
  match filters with
  | [] => None
  | filter_obj :: rest =>
      if filter_matches token filter_obj then Some filter_obj
      else first_match token rest
  end.

Definition check_token_match (token : Token) (filters : list WatchlistFilter)
  : option WatchlistFilter :=
  if bool_decide (token = ∅) || bool_decide (filters = []) then None
  else first_match token filters.

(** ** The environment: wall clock, HTTP endpoint, random source

    [datetime.now()] read in epoch milliseconds, the HTTP endpoint and
    [random.random()] are oracles indexed by the number of calls made so
    far; [trace] records the requests and the sleeps of the retry loop. *)

#[local] Set Warnings "-register-all".

Inductive json : Type :=
| JNull
| JBool (b : bool)
| JNum (n : Z)
| JStr (s : string)
| JList (l : list json)
| JDict (d : gmap string json).

Inductive response : Type :=
| HttpOk (data : json)      (* status 200 and a body that parses *)
| HttpError.                (* any other status, transport or parse error *)

Inductive event : Type :=
| Attempt (n : nat)         (* the request of attempt [n] *)
| Sleep (seconds : Q).

Record Env : Type := mkEnv {
  wall_clock : nat → Z;
  http : nat → string → response;
  random : nat → Q;
  clock_reads : nat;
  http_calls : nat;
  random_calls : nat;
  trace : list event
}.

(** [int(datetime.now().timestamp() * 1000)] *)
Definition now_ms (e : Env) : Z * Env :=
  (wall_clock e (clock_reads e),
   mkEnv (wall_clock e) (http e) (random e)
         (S (clock_reads e)) (http_calls e) (random_calls e) (trace e)).

(** [session.get(url)] followed by the status check and [response.json()]. *)
Definition http_get (attempt : nat) (url : string) (e : Env) : response * Env :=
  (http e (http_calls e) url,
   mkEnv (wall_clock e) (http e) (random e)
         (clock_reads e) (S (http_calls e)) (random_calls e)
         (trace e ++ [Attempt attempt])).

Definition random_random (e : Env) : Q * Env :=
  (random e (random_calls e),
   mkEnv (wall_clock e) (http e) (random e)
         (clock_reads e) (http_calls e) (S (random_calls e)) (trace e)).

Definition asyncio_sleep (seconds : Q) (e : Env) : Env :=
  mkEnv (wall_clock e) (http e) (random e)
        (clock_reads e) (http_calls e) (random_calls e)
        (trace e ++ [Sleep seconds]).

(** ** The match store and the tracking sessions *)

Record MatchHistoryEntry : Type := mkEntry {
  entry_token : Token;
  entry_timestamp : Z;
  entry_filter : WatchlistFilter
}.

(** A polling task: the key it was started for, the context object it
    was given, and whether [task.done()] holds. *)
Record Task : Type := mkTask {
  task_user : Z;
  task_chat : Z;
  task_context : nat;
  task_done : bool
}.

(** The module-level dicts, and the [chat_matched_tokens] attribute of
    the handler context objects. Context objects are named by numbers; an
    object without the attribute has no binding in [contexts]. *)
Record Store : Type := mkStore {
  user_filters : gmap Z (list WatchlistFilter);
  user_matched_tokens : gmap Z (list Token);
  user_match_history : gmap Z (list MatchHistoryEntry);
  polling_tasks : gmap string Task;
  contexts : gmap nat (gmap string (gset string))
}.

(** An element of [new_matches] and of [matches]:
    [{"token": token, "filter": matched_filter}]. *)
Abbreviation Match := (Token * WatchlistFilter)%type.

(** [d.get(k, [])] *)
Definition get_list {K A} `{Countable K} (d : gmap K (list A)) (k : K) : list A :=
  default [] (d !! k).

(** [if k not in d: d[k] = []] *)
Definition init_list {K A} `{Countable K} (d : gmap K (list A)) (k : K)
  : gmap K (list A) :=
  match d !! k with
  | Some _ => d
  | None => <[k := []]> d
  end.

(** [d[k].append(x)] *)
Definition append_to {K A} `{Countable K} (d : gmap K (list A)) (k : K) (x : A)
  : gmap K (list A) :=
  <[k := get_list d k ++ [x]]> d.

Definition set_matched (s : Store) (m : gmap Z (list Token)) : Store :=
  mkStore (user_filters s) m (user_match_history s) (polling_tasks s) (contexts s).

Definition set_history (s : Store) (h : gmap Z (list MatchHistoryEntry)) : Store :=
  mkStore (user_filters s) (user_matched_tokens s) h (polling_tasks s) (contexts s).

Definition set_tasks (s : Store) (t : gmap string Task) : Store :=
  mkStore (user_filters s) (user_matched_tokens s) (user_match_history s) t (contexts s).

Definition set_contexts (s : Store) (c : gmap nat (gmap string (gset string))) : Store :=
  mkStore (user_filters s) (user_matched_tokens s) (user_match_history s)
          (polling_tasks s) c.

(** The addresses carried by a list of tokens:
    [for token in tokens: if 'address' in token: addresses.add(token['address'])]. *)
Definition addresses_of (tokens : list Token) : gset string :=
  list_to_set (omap (λ token : Token, token !! "address") tokens).

(** ['address' in token and token['address'] in addresses] *)
Definition address_in (token : Token) (addresses : gset string) : bool :=
  match token !! "address" with
  | Some a => bool_decide (a ∈ addresses)
  | None => false
  end.

(** Appends the token to the global matches and a record to the history,
    stamped with a fresh reading of the clock. *)
Definition record_match (user_id : Z) (token : Token) (matched_filter : WatchlistFilter)
    (es : Env * Store) : Env * Store :=
  let '(e, s) := es in
  let s := set_matched s (append_to (user_matched_tokens s) user_id token) in
  let s := set_history s (init_list (user_match_history s) user_id) in
  let '(t, e) := now_ms e in
  let s := set_history s
             (append_to (user_match_history s) user_id (mkEntry token t matched_filter)) in
  (e, s).

(** The body of the loop of [process_new_tokens]; [existing_addresses] is
    the set built before the loop. *)
Definition process_token (user_id : Z) (existing_addresses : gset string)
    (acc : list Match * (Env * Store)) (token : Token) : list Match * (Env * Store) :=
  let '(new_matches, es) := acc in
  if address_in token existing_addresses then acc
  else
    match check_token_match token (get_list (user_filters es.2) user_id) with
    | None => acc
    | Some matched_filter =>
        (new_matches ++ [(token, matched_filter)],
         record_match user_id token matched_filter es)
    end.

Definition process_new_tokens (user_id : Z) (tokens : list Token) (es : Env * Store)
  : list Match * (Env * Store) :=
  let '(e, s) := es in
  if bool_decide (tokens = [])
     || negb (bool_decide (is_Some (user_filters s !! user_id)))
     || bool_decide (get_list (user_filters s) user_id = [])
  then ([], es)
  else
    let s := set_matched s (init_list (user_matched_tokens s) user_id) in
    let existing_addresses := addresses_of (get_list (user_matched_tokens s) user_id) in
    foldl (process_token user_id existing_addresses) ([], (e, s)) tokens.

(** [f"{user_id}:{chat_id}"] *)
Definition get_tracking_key (user_id chat_id : Z) : string :=
  pretty user_id +:+ ":" +:+ pretty chat_id.

(** The search of [tracking_task] through the global matches:
    [is_new_globally] stays [True] unless an entry carries the token's
    address. *)
Definition is_new_globally (token : Token) (matched : list Token) : bool :=
  negb (existsb
          (λ existing_token : Token,
             match existing_token !! "address", token !! "address" with
             | Some a, Some b => bool_decide (a = b)
             | _, _ => false
             end)
          matched).

(** The body of the [for token in all_tokens] loop of [tracking_task] and
    of [tracking_task_callback]; [seen] is
    [context.chat_matched_tokens[tracking_key]]. *)
Definition track_token (user_id : Z)
    (acc : list Match * gset string * (Env * Store)) (token : Token)
  : list Match * gset string * (Env * Store) :=
  let '(matches, seen, es) := acc in
  if address_in token seen then acc
  else
    match check_token_match token (get_list (user_filters es.2) user_id) with
    | None => acc
    | Some matched_filter =>
        let es := (es.1, set_matched es.2 (init_list (user_matched_tokens es.2) user_id)) in
        let es :=
          if is_new_globally token (get_list (user_matched_tokens es.2) user_id)
          then record_match user_id token matched_filter es
          else es in
        let seen :=
          match token !! "address" with
          | Some a => {[a]} ∪ seen
          | None => seen
          end in
        (matches ++ [(token, matched_filter)], seen, es)
    end.

(** One turn of the [while True] loop after the fetches: the candidates
    [all_tokens] are matched, recorded and marked as seen; the first
    component is the batch that is announced. *)
Definition tracking_tick (user_id : Z) (all_tokens : list Token)
    (seen : gset string) (es : Env * Store)
  : list Match * gset string * (Env * Store) :=
  foldl (track_token user_id) ([], seen, es) all_tokens.

(** The preamble of [tracking_task]:
    [if not hasattr(context, 'chat_matched_tokens'): ... = {}] and
    [if tracking_key not in context.chat_matched_tokens: ...[tracking_key] = set()]. *)
Definition init_seen (context : nat) (tracking_key : string) (s : Store) : Store :=
  let d := default ∅ (contexts s !! context) in
  let d := match d !! tracking_key with
           | Some _ => d
           | None => <[tracking_key := ∅]> d
           end in
  set_contexts s (<[context := d]> (contexts s)).

(** [context.chat_matched_tokens[tracking_key]]; [None] is the [KeyError]
    or [AttributeError] of a context that was not prepared. *)
Definition seen_in_context (context : nat) (tracking_key : string) (s : Store)
  : option (gset string) :=
  contexts s !! context ≫= (.!! tracking_key).

(** A turn of the loop of the task registered under the key of
    [(user_id, chat_id)], run on the context object the task holds. *)
Definition task_tick (user_id chat_id : Z) (all_tokens : list Token)
    (es : Env * Store) : option (list Match * (Env * Store)) :=
  let key := get_tracking_key user_id chat_id in
  task ← polling_tasks es.2 !! key;
  seen ← seen_in_context (task_context task) key es.2;
  let '(matches, seen, (e, s)) := tracking_tick user_id all_tokens seen es in
  let d := default ∅ (contexts s !! task_context task) in
  Some (matches,
        (e, set_contexts s (<[task_context task := <[key := seen]> d]> (contexts s)))).

(** [tracking_key in polling_tasks and not polling_tasks[tracking_key].done()] *)
Definition is_tracking (tracking_key : string) (s : Store) : bool :=
  match polling_tasks s !! tracking_key with
  | Some task => negb (task_done task)
  | None => false
  end.

Inductive StartResult : Type := Started | AlreadyTracking | NoFilters.
Inductive StopResult : Type := Stopped | NotTracking.

(** [start_tracking_command] and [start_tracking_callback]; [context] is
    the context object the handler was called with. The task is created
    and its preamble is run. *)
Definition start_tracking_command (user_id chat_id : Z) (context : nat) (s : Store)
  : StartResult * Store :=
  if negb (bool_decide (is_Some (user_filters s !! user_id)))
     || bool_decide (get_list (user_filters s) user_id = [])
  then (NoFilters, s)
  else
    let tracking_key := get_tracking_key user_id chat_id in
    if is_tracking tracking_key s then (AlreadyTracking, s)
    else
      let s := set_tasks s
                 (<[tracking_key := mkTask user_id chat_id context false]>
                    (polling_tasks s)) in
      (Started, init_seen context tracking_key s).

(** [stop_tracking_command] and [stop_tracking_callback]: the task is
    cancelled, nothing else is touched. *)
Definition stop_tracking_command (user_id chat_id : Z) (s : Store)
  : StopResult * Store :=
  let tracking_key := get_tracking_key user_id chat_id in
  match polling_tasks s !! tracking_key with
  | Some task =>
      if negb (task_done task)
      then (Stopped,
            set_tasks s
              (<[tracking_key :=
                   mkTask (task_user task) (task_chat task) (task_context task) true]>
                 (polling_tasks s)))
      else (NotTracking, s)
  | None => (NotTracking, s)
  end.

(** The filter recorded by [clear_matches_command] for a token it folds
    into the history: the first filter of the user that matches it, else a
    generated [token] filter. *)
Definition filter_for_history (current_time : Z) (filters : list WatchlistFilter)
    (token : Token) : WatchlistFilter :=
  match list_find (λ filter_obj, is_Some (check_token_match token [filter_obj])) filters with
  | Some (_, filter_obj) => filter_obj
  | None =>
      mkFilter ("auto-" +:+ pretty current_time) "token"
               (default (default "Unknown" (token !! "name")) (token !! "symbol"))
  end.

(** ['address' not in token or token['address'] not in existing_addresses] *)
Definition missing_from_history (existing_addresses : gset string) (token : Token) : bool :=
  negb (address_in token existing_addresses).

(** [clear_matches_command] and [clear_matches_callback]. *)
Definition clear_matches_command (user_id : Z) (es : Env * Store) : Env * Store :=
  let '(e, s) := es in
  if negb (bool_decide (is_Some (user_matched_tokens s !! user_id)))
     || bool_decide (get_list (user_matched_tokens s) user_id = [])
  then es
  else
    let '(current_time, e) := now_ms e in
    let s := set_history s (init_list (user_match_history s) user_id) in
    let existing_addresses :=
      addresses_of (entry_token <$> get_list (user_match_history s) user_id) in
    let folded :=
      (λ token,
         mkEntry token current_time
           (filter_for_history current_time (get_list (user_filters s) user_id) token))
      <$> filter (λ token, missing_from_history existing_addresses token)
            (get_list (user_matched_tokens s) user_id) in
    let s := set_history s
               (<[user_id := get_list (user_match_history s) user_id ++ folded]>
                  (user_match_history s)) in
    (e, set_matched s (<[user_id := []]> (user_matched_tokens s))).

(** ** The source clients

    A token as a client builds it from a payload still carries raw JSON
    values. Python's [None] is [JNull]. *)

Abbreviation FeedToken := (gmap string json).

Definition dict_empty (d : gmap string json) : bool :=
  bool_decide (dom d = (∅ : gset string)).

(** [bool(v)] *)
Definition json_truthy (v : json) : bool :=
  match v with
  | JNull => false
  | JBool b => b
  | JNum n => negb (n =? 0)
  | JStr s => Text.truthy s
  | JList l => match l with [] => false | _ :: _ => true end
  | JDict d => negb (dict_empty d)
  end.

(** [a or b] *)
Definition py_or (a b : json) : json := if json_truthy a then a else b.

Definition is_dict (v : option json) : bool :=
  match v with Some (JDict _) => true | _ => false end.

Definition MOCK_TOKENS : list FeedToken :=
  [ {[ "address" := JStr "mock1111111111111111111111111111111111111";
       "name" := JStr "Mock Token 1";
       "symbol" := JStr "MOCK1";
       "deployer" := JStr "mockdeployer111111111111111111111111111111";
       "creator" := JStr "mockcreator1111111111111111111111111111111";
       "website" := JStr "https://mocktoken1.com";
       "twitter" := JStr "@mocktoken1" ]};
    {[ "address" := JStr "mock2222222222222222222222222222222222222";
       "name" := JStr "Mock Token 2";
       "symbol" := JStr "MOCK2";
       "deployer" := JStr "mockdeployer222222222222222222222222222222";
       "creator" := JStr "mockcreator2222222222222222222222222222222";
       "website" := JStr "https://mocktoken2.com";
       "twitter" := JStr "@mocktoken2" ]} ].

Definition get_mock_tokens : list FeedToken := MOCK_TOKENS.

Record CacheEntry : Type := mkCacheEntry {
  data : list FeedToken;
  timestamp : Z;
  expiresAt : Z
}.

(** The module-level variables of the two clients. *)
Record Feeds : Type := mkFeeds {
  token_cache : gmap string CacheEntry;
  last_fetch_time : Z;
  cached_response : option (list FeedToken);
  believe_token_cache : gmap string (list FeedToken);
  last_believe_fetch_time : Z
}.

Definition initial_feeds : Feeds := mkFeeds ∅ 0 None ∅ 0.

(** [bool(tokens)] for a value that is [None] or a list. *)
Definition some_tokens (r : option (list FeedToken)) : bool :=
  match r with
  | Some (_ :: _) => true
  | _ => false
  end.

Definition cache_data (key : string) (tokens : list FeedToken) (ttl_minutes : Z)
    (ef : Env * Feeds) : Env * Feeds :=
  let '(e, f) := ef in
  let '(now, e) := now_ms e in
  (e, mkFeeds (<[key := mkCacheEntry tokens now (now + ttl_minutes * 60 * 1000)]>
                 (token_cache f))
              (last_fetch_time f) (cached_response f)
              (believe_token_cache f) (last_believe_fetch_time f)).

(** The clock is read only when the key has an entry. *)
Definition get_cached_data (key : string) (ef : Env * Feeds)
  : option (list FeedToken) * Env :=
  let '(e, f) := ef in
  match token_cache f !! key with
  | None => (None, e)
  | Some cached =>
      let '(t, e) := now_ms e in
      if t <? expiresAt cached then (Some (data cached), e) else (None, e)
  end.

(** The handler of a failed attempt:
    [if attempt < max_retries - 1: ... await asyncio.sleep(delay)]. *)
Definition backoff (max_retries attempt : nat) (e : Env) : Env :=
  if (attempt <? max_retries - 1)%nat then
    let '(x, e) := random_random e in
    let base_delay := 2 ^ Z.of_nat attempt * 2 in
    let jitter := (1 * ((1 # 2) - x))%Q in
    let delay := Qmin (inject_Z base_delay + jitter)%Q 20%Q in
    asyncio_sleep delay e
  else e.

(** The loop [for attempt in range(max_retries)], with [remaining] turns
    still to run. The result [JNull] is the [None] returned when every
    attempt failed. *)
Fixpoint retry_loop (max_retries remaining attempt : nat) (url : string) (e : Env)
  : json * Env :=
  match remaining with
  | O => (JNull, e)
  | S remaining' =>
      let '(r, e) := http_get attempt url e in
      match r with
      | HttpOk payload => (payload, e)
      | HttpError =>
          retry_loop max_retries remaining' (S attempt) url (backoff max_retries attempt e)
      end
  end.

Definition fetch_with_retry (url : string) (max_retries : nat) (e : Env) : json * Env :=
  retry_loop max_retries max_retries 0 url e.

Definition is_valid_token_data (item : json) : bool :=
  match item with
  | JDict d =>
      let has_token := is_dict (d !! "token") in
      let has_pools :=
        match d !! "pools" with
        | Some (JList (_ :: _)) => true
        | _ => false
        end in
      let has (k : string) := bool_decide (is_Some (d !! k)) in
      let has_direct_fields :=
        (has "address" || has "mint" || has "tokenAddress")
        && (has "name" || has "symbol") in
      has_token || has_pools || has_direct_fields
  | _ => false
  end.

(** [extract_value(obj, key, default)] for a dict [obj]. *)
Definition extract_value (obj : gmap string json) (key : string) (default : json) : json :=
  match obj !! key with
  | None | Some JNull => default
  | Some v => v
  end.

(** [pool_data] after
    [if pools and len(pools) > 0 and isinstance(pools[0], dict)];
    [None] is the exception raised by [len] on a number or by [pools[0]]
    on a dict. *)
Definition first_pool (pools : json) : option (gmap string json) :=
  match pools with
  | JList (JDict p :: _) => Some p
  | JList _ | JStr _ | JNull => Some ∅
  | JBool b => if b then None else Some ∅
  | JNum n => if n =? 0 then Some ∅ else None
  | JDict d => if dict_empty d then Some ∅ else None
  end.

Definition sub_dict (obj : gmap string json) (key : string) : option (gmap string json) :=
  match obj !! key with
  | Some (JDict d) => Some d
  | _ => None
  end.

(** The body of [for item in data] in [fetch_latest_tokens]: the token
    that is appended to [processed_tokens], or [None] when the item is
    skipped (not valid, an exception, or no address). *)
Definition process_item (item : json) : option FeedToken :=
  if negb (is_valid_token_data item) then None
  else
    match item with
    | JDict item_d =>
        let token_data := default ∅ (sub_dict item_d "token") in
        let token_data := if dict_empty token_data then item_d else token_data in
        pool_data ← first_pool (default (JList []) (item_d !! "pools"));
        let market_cap := default ∅ (sub_dict pool_data "marketCap") in
        let price := default ∅ (sub_dict pool_data "price") in
        let txns :=
          match sub_dict pool_data "txns" with
          | Some t => t
          | None => default ∅ (sub_dict item_d "txns")
          end in
        let e := JStr "" in
        let address :=
          py_or (extract_value token_data "mint" e)
            (py_or (extract_value token_data "address" e)
               (extract_value pool_data "tokenAddress" e)) in
        let processed_token : FeedToken :=
          list_to_map
            [ ("address", address);
              ("name", extract_value token_data "name" e);
              ("symbol", extract_value token_data "symbol" e);
              ("deployer", extract_value pool_data "deployer" e);
              ("creator", py_or (extract_value token_data "creator" e)
                            (extract_value pool_data "deployer" e));
              ("website", extract_value token_data "website" e);
              ("twitter", extract_value token_data "twitter" e);
              ("twitterUsername", extract_value token_data "twitterUsername" e);
              ("image", extract_value token_data "image" e);
              ("description", extract_value token_data "description" e);
              ("marketCap", extract_value market_cap "usd" e);
              ("price", extract_value price "usd" e);
              ("volume", extract_value txns "volume" e);
              ("createdAt", extract_value pool_data "createdAt" e) ] in
        if json_truthy address then Some processed_token else None
    | _ => None
    end.

Definition string_chars (s : string) : list json :=
  (λ c, JStr (String c EmptyString)) <$> String.list_ascii_of_string s.

(** What [len(data)] and [for item in data] make of a payload; [None] is
    the [TypeError] of a number or a boolean. *)
Definition payload_items (payload : json) : option (list json) :=
  match payload with
  | JList l => Some l
  | JStr s => Some (string_chars s)
  | JDict d => Some (JStr <$> (map_to_list d).*1)
  | JNull | JBool _ | JNum _ => None
  end.

Definition set_primary (f : Feeds) (c : gmap string CacheEntry) (t : Z)
    (r : option (list FeedToken)) : Feeds :=
  mkFeeds c t r (believe_token_cache f) (last_believe_fetch_time f).

Definition latest_tokens_url (force_refresh : bool) (now : Z) : string :=
  "https://data.solanatracker.io/tokens/latest?limit=50"
  +:+ (if force_refresh then "&_cb=" +:+ pretty now else "").

(** The fallback of both failure paths that consult the cache: the live
    cache entry, else the mock tokens. [remember] tells whether the mock
    tokens are stored as the result of this fetch (the retries-exhausted
    path) or only returned (the handler of unexpected errors). *)
Definition cache_or_mock (remember : bool) (now : Z) (ef : Env * Feeds)
  : list FeedToken * (Env * Feeds) :=
  let '(cached_data, e) := get_cached_data "latest-tokens" ef in
  if some_tokens cached_data then (default [] cached_data, (e, ef.2))
  else if remember then
    let mock_tokens := get_mock_tokens in
    let '(e, f) := cache_data "latest-tokens" mock_tokens 30 (e, ef.2) in
    (mock_tokens, (e, set_primary f (token_cache f) now (Some mock_tokens)))
  else (get_mock_tokens, (e, ef.2)).

(** What [fetch_latest_tokens] does with the result of [fetch_with_retry]. *)
Definition process_payload (now : Z) (payload : json) (ef : Env * Feeds)
  : list FeedToken * (Env * Feeds) :=
  match payload with
  | JNull => cache_or_mock true now ef
  | _ =>
      match payload_items payload with
      | None => cache_or_mock false now ef
      | Some items =>
          let processed_tokens := omap process_item items in
          match processed_tokens with
          | [] => (get_mock_tokens, ef)
          | _ :: _ =>
              let '(e, f) := cache_data "latest-tokens" processed_tokens 30 ef in
              (processed_tokens,
               (e, set_primary f (token_cache f) now (Some processed_tokens)))
          end
      end
  end.

Definition fetch_latest_tokens (force_refresh : bool) (ef : Env * Feeds)
  : list FeedToken * (Env * Feeds) :=
  let '(e, f) := ef in
  let '(now, e) := now_ms e in
  let time_since_last_fetch := now - last_fetch_time f in
  let rate_limit := 1500 in
  if negb force_refresh && (time_since_last_fetch <? rate_limit)
     && some_tokens (cached_response f)
  then (default [] (cached_response f), (e, f))
  else
    let full_url := latest_tokens_url force_refresh now in
    let '(cached_data, e) :=
      if negb force_refresh then get_cached_data "latest-tokens" (e, f)
      else (None, e) in
    if some_tokens cached_data then (default [] cached_data, (e, f))
    else
      let '(payload, e) := fetch_with_retry full_url 3 e in
      process_payload now payload (e, f).

Definition believe_cache_key (min_followers : Z) : string :=
  "believe-" +:+ pretty min_followers.

Definition believe_url (min_followers : Z) : string :=
  "https://api.believesignal.com/tokens?count=50&min_followers="
  +:+ pretty min_followers.

(** The token built for one entry of the Believe payload; [None] is the
    [AttributeError] of an entry that is not a dict. *)
Definition believe_token (item : json) : option FeedToken :=
  match item with
  | JDict d =>
      let e := JStr "" in
      let processed_token : FeedToken :=
        {[ "address" := default e (d !! "ca_address");
           "name" := default e (d !! "coin_name");
           "symbol" := default e (d !! "coin_ticker");
           "twitter" := default e (d !! "twitter_handler");
           "website" := default e (d !! "link");
           "created_at" := default e (d !! "created_at");
           "source" := JStr "believe";
           "original_data" := item ]} in
      Some
        match sub_dict d "twitter_info" with
        | Some info =>
            <["twitterVerified" := default (JBool false) (info !! "is_blue_verified")]>
              (<["twitterFollowers" := default (JNum 0) (info !! "followers_count")]>
                 processed_token)
        | None => processed_token
        end
  | _ => None
  end.

Definition fetch_believe_tokens (min_followers : Z) (force_refresh : bool)
    (ef : Env * Feeds) : list FeedToken * (Env * Feeds) :=
  let '(e, f) := ef in
  let '(now, e) := now_ms e in
  let time_since_last_fetch := now - last_believe_fetch_time f in
  let rate_limit := 4000 in
  let cache_key := believe_cache_key min_followers in
  match negb force_refresh && (time_since_last_fetch <? rate_limit),
        believe_token_cache f !! cache_key with
  | true, Some cached => (cached, (e, f))
  | _, _ =>
      let '(r, e) := http_get 0 (believe_url min_followers) e in
      let on_error := (default [] (believe_token_cache f !! cache_key), (e, f)) in
      match r with
      | HttpError => on_error
      | HttpOk (JList (item :: items)) =>
          match mapM believe_token (item :: items) with
          | None => on_error
          | Some processed_tokens =>
              (processed_tokens,
               (e, mkFeeds (token_cache f) (last_fetch_time f) (cached_response f)
                          (<[cache_key := processed_tokens]> (believe_token_cache f))
                          now))
          end
      | HttpOk _ => ([], (e, f))
      end
  end.

(** ** Vocabulary of the statements *)

(** A bare handle: not empty, made of characters the capture group of the
    profile pattern accepts (no slash, question mark or white space), and
    not itself starting with an at sign. *)
Fixpoint all_handle_chars (s : string) : bool :=
  match s with
  | EmptyString => true
  | String c r => Regex.handle_char c && all_handle_chars r
  end.

Definition bare_handle (h : string) : bool :=
  Text.truthy h && all_handle_chars h && negb (Text.startswith "@" h).

(** The front of a profile URL, up to the host. *)
Definition profile_url_hosts : list string :=
  [ "x.com"; "www.x.com"; "http://x.com"; "http://www.x.com";
    "https://x.com"; "https://www.x.com";
    "twitter.com"; "www.twitter.com"; "http://twitter.com";
    "http://www.twitter.com"; "https://twitter.com"; "https://www.twitter.com" ].

(** The ways of writing the handle [h]: bare, with an at sign, and as a
    profile URL with or without the at sign. *)
Definition spellings (h : string) : list string :=
  [h; "@" +:+ h]
  ++ ((λ host, host +:+ "/" +:+ h) <$> profile_url_hosts)
  ++ ((λ host, host +:+ "/@" +:+ h) <$> profile_url_hosts).

(** [v] writes the handle [h], up to letter case. *)
Definition spells (h v : string) : Prop :=
  Text.lower v ∈ spellings (Text.lower h).

Global Instance spells_dec h v : Decision (spells h v).
Proof. unfold spells. apply _. Defined.

(** The value [normalize_twitter_handle] computes from a handle once it
    is in lower case. *)
Definition normalize_lowered (s : string) : string :=
  let s := match Regex.search_twitter_url s with Some g => g | None => s end in
  match Text.strip_prefix "@" s with Some r => r | None => s end.

Definition twitter_filter (filter_id v : string) : WatchlistFilter :=
  mkFilter filter_id "twitter" v.

(** A token that carries a non-empty address. *)
Definition has_address (token : Token) : bool :=
  match token !! "address" with
  | Some a => Text.truthy a
  | None => false
  end.

(** Every entry of every user's global matches and every record of every
    user's history carries a non-empty address. *)
Definition all_addressed (s : Store) : Prop :=
  ∀ user_id,
    Forall (λ token, has_address token = true)
           (get_list (user_matched_tokens s) user_id)
    ∧ Forall (λ entry, has_address (entry_token entry) = true)
             (get_list (user_match_history s) user_id).

(** The number of entries of a list of tokens that carry the address [a]. *)
Definition count_address (a : string) (tokens : list Token) : nat :=
  length (filter (λ token : Token, token !! "address" = Some a) tokens).

(** Sample data for the examples: a quiet environment, a user with one
    filter, and a few tokens. *)
Definition quiet_env : Env :=
  mkEnv (λ n, 1700000000000 + Z.of_nat n) (λ _ _, HttpError) (λ _, 0%Q) 0 0 0 [].

Definition store_with_filters (user_id : Z) (filters : list WatchlistFilter) : Store :=
  mkStore {[ user_id := filters ]} ∅ ∅ ∅ ∅.

Definition pump_filter : WatchlistFilter := mkFilter "1" "token" "pump".
Definition believe_filter : WatchlistFilter := mkFilter "2" "believe" "0".

Definition pump_token : Token := {[ "address" := "A1"; "symbol" := "PUMP" ]}.
Definition pump_token_again : Token :=
  {[ "address" := "A1"; "symbol" := "PUMP"; "name" := "Pump again" ]}.
Definition other_token : Token := {[ "address" := "A2"; "symbol" := "X" ]}.

(** A Believe token whose payload entry had no [ca_address]: the client
    stores the empty string. *)
Definition unaddressed_token : Token :=
  {[ "address" := ""; "symbol" := "GHOST"; "source" := "believe" ]}.

(** The tokens [clear_matches_command] folds into the history of a user:
    those of the global matches without an address, or whose address no
    record of the history carries. *)
Definition to_fold (user_id : Z) (s : Store) : list Token :=
  filter (λ token,
            missing_from_history
              (addresses_of (entry_token <$> get_list (user_match_history s) user_id))
              token)
         (get_list (user_matched_tokens s) user_id).

(** A first session of user 7 in chat 42, started on context object 0 and
    run for one turn on a batch that holds [pump_token]. *)
Definition first_session : option (list Match * (Env * Store)) :=
  task_tick 7 42 [pump_token; other_token]
    (quiet_env,
     (start_tracking_command 7 42 0 (store_with_filters 7 [pump_filter])).2).

Definition store_after_first_session : Store :=
  match first_session with
  | Some (_, (_, s)) => s
  | None => store_with_filters 7 [pump_filter]
  end.

(** [d] is the pause after the failed attempt [attempt]: the capped sum of
    the doubled power of two and a jitter of at most half a second. *)
Definition backoff_delay (attempt : nat) (d : Q) : Prop :=
  ∃ jitter : Q,
    (-(1 # 2) <= jitter)%Q ∧ (jitter <= 1 # 2)%Q
    ∧ d = Qmin (inject_Z (2 ^ Z.of_nat attempt * 2) + jitter)%Q 20%Q.

(** The events of a run of the retry loop that starts at [attempt]:
    requests numbered in order, one pause between two consecutive
    requests, none after the last. *)
Fixpoint well_paced (attempt : nat) (events : list event) : Prop :=
  match events with
  | Attempt n :: rest =>
      n = attempt
      ∧ match rest with
        | [] => True
        | Sleep d :: rest' => backoff_delay attempt d ∧ well_paced (S attempt) rest'
        | Attempt _ :: _ => False
        end
  | _ => False
  end.

Definition is_attempt (ev : event) : bool :=
  match ev with Attempt _ => true | Sleep _ => false end.

Definition count_attempts (events : list event) : nat :=
  length (filter (λ ev, is_attempt ev = true) events).

Definition sleep_at_most (bound : Q) (ev : event) : Prop :=
  match ev with
  | Sleep d => (d <= bound)%Q
  | Attempt _ => True
  end.

(** An endpoint that is down, with a fixed draw of the random source. *)
Definition failing_env : Env :=
  mkEnv (λ n, 1700000000000 + Z.of_nat n) (λ _ _, HttpError) (λ _, (1 # 4)%Q) 0 0 0 [].

(** The two ways in which a fetch of the primary feed yields no token of
    its own: [fetch_with_retry] returned [None], or the payload could be
    walked and no entry of it gave a token. *)
Inductive failure_mode : Type := RetriesExhausted | NoValidTokens.

Definition zero_valid (payload : json) : Prop :=
  ∃ items, payload_items payload = Some items ∧ omap process_item items = [].

Definition failed_as (mode : failure_mode) (payload : json) : Prop :=
  match mode with
  | RetriesExhausted => payload = JNull
  | NoValidTokens => zero_valid payload
  end.

(** The cache entry of the primary feed as [get_cached_data] would return
    it now, when it holds tokens. *)
Definition live_cache (ef : Env * Feeds) : option (list FeedToken) :=
  let cached_data := (get_cached_data "latest-tokens" ef).1 in
  if some_tokens cached_data then cached_data else None.

(** Sample data for the feeds: an endpoint that answers with an empty
    list, a cache that holds one real token and has not expired, an
    endpoint of the Believe feed that answers with one entry, and a
    Believe cache with a slot for the threshold 0 filled long ago. *)
Definition empty_payload_env : Env :=
  mkEnv (λ n, 1700000000000 + Z.of_nat n) (λ _ _, HttpOk (JList [])) (λ _, 0%Q) 0 0 0 [].

Definition cached_token : FeedToken :=
  {[ "address" := JStr "REAL1"; "symbol" := JStr "REAL" ]}.

Definition feeds_with_cache : Feeds :=
  mkFeeds {[ "latest-tokens" :=
               mkCacheEntry [cached_token] 1699999990000 1700001790000 ]}
          1699999990000 (Some [cached_token]) ∅ 0.

Definition believe_entry : json :=
  JDict {[ "ca_address" := JStr "NEW1"; "coin_ticker" := JStr "NEW" ]}.

Definition believe_env : Env :=
  mkEnv (λ n, 1700000000000 + Z.of_nat n) (λ _ _, HttpOk (JList [believe_entry]))
        (λ _, 0%Q) 0 0 0 [].

Definition old_believe_token : FeedToken :=
  {[ "address" := JStr "OLD1"; "symbol" := JStr "OLD"; "source" := JStr "believe" ]}.

Definition feeds_with_believe_slot : Feeds :=
  mkFeeds ∅ 0 None {[ believe_cache_key 0 := [old_believe_token] ]} 0.

(** The candidates [process_new_tokens] records from a batch: those whose
    address is not in the set built before the loop and that a filter
    matches, in the order of the batch. *)
Definition new_matches_of (existing_addresses : gset string)
    (filters : list WatchlistFilter) (tokens : list Token) : list Match :=
  omap (λ token : Token,
          if address_in token existing_addresses then None
          else (λ f, (token, f)) <$> check_token_match token filters)
       tokens.

(** The addresses of a list of tokens, with repetitions. *)
Definition address_list (tokens : list Token) : list string :=
  omap (λ token : Token, token !! "address") tokens.

(** Text within ASCII. *)
Fixpoint is_ascii (s : string) : bool :=
  match s with
  | EmptyString => true
  | String c r => (N_of_ascii c <? 128)%N && is_ascii r
  end.

(** The history represents the token: one of its records carries the
    address of the token. *)
Definition represented (history : list MatchHistoryEntry) (token : Token) : Prop :=
  ∃ a entry,
    token !! "address" = Some a
    ∧ entry ∈ history
    ∧ entry_token entry !! "address" = Some a.

Global Instance represented_dec history token : Decision (represented history token).
Proof.
  unfold represented. destruct (token !! "address") as [a|].
  - destruct (decide (Exists (λ entry, entry_token entry !! "address" = Some a) history))
      as [Hex|Hno].
    + left. apply Exists_exists in Hex as (entry & Hin & Hentry). by exists a, entry.
    + right. intros (b & entry & [= <-] & Hin & Hentry). apply Hno.
      apply Exists_exists. by exists entry.
  - right. by intros (a & entry & [=] & _).
Defined.

(** ** Further vocabulary *)

(** ** Decimal numerals: [str] and [int] *)

Fixpoint all_digits (s : string) : bool :=
  match s with
  | EmptyString => true
  | String c r => bool_decide (is_Some (Text.digit_value c)) && all_digits r
  end.

Fixpoint no_colon (s : string) : bool :=
  match s with
  | EmptyString => true
  | String c r => negb (Ascii.eqb c ":") && no_colon r
  end.

(** ** Website filters *)

Fixpoint slashes (n : nat) : string :=
  match n with
  | O => EmptyString
  | S n' => String "/" (slashes n')
  end.

Fixpoint no_slash (s : string) : bool :=
  match s with
  | EmptyString => true
  | String c r => negb (Ascii.eqb c "/") && no_slash r
  end.

(** A site written without scheme and without [www.]. *)
Definition plain_site (d : string) : bool :=
  Text.truthy d
  && negb (Text.startswith "http" (Text.lower d))
  && negb (Text.startswith "www." (Text.lower d)).

Definition site_prefixes : list string :=
  [""; "http://"; "https://"; "www."; "http://www."; "https://www."].


(** ** Managing the filters of a user *)

(** [s.isdigit()], ASCII digits only. *)
Definition isdigit (s : string) : bool := Text.truthy s && all_digits s.

(** [sep.join(parts)] *)
Fixpoint join (sep : string) (parts : list string) : string :=
  match parts with
  | [] => ""
  | [p] => p
  | p :: rest => p +:+ sep +:+ join sep rest
  end.

(** [s.replace(old, "")] for a non-empty [old]: the occurrences of [old]
    are dropped from left to right, without overlap. The scan takes at
    most one step per character of [s]. *)
Fixpoint remove_all_within (steps : nat) (old s : string) : string :=
  match steps with
  | O => s
  | S steps' =>
      match Text.strip_prefix old s with
      | Some rest => remove_all_within steps' old rest
      | None =>
          match s with
          | EmptyString => EmptyString
          | String c r => String c (remove_all_within steps' old r)
          end
      end
  end.

Definition remove_all (old s : string) : string :=
  if Text.truthy old then remove_all_within (String.length s) old s else s.

Definition set_filters (s : Store) (f : gmap Z (list WatchlistFilter)) : Store :=
  mkStore f (user_matched_tokens s) (user_match_history s) (polling_tasks s) (contexts s).

(** [str(int(datetime.now().timestamp()))]: the reading of the clock in
    whole seconds. *)
Definition timestamp_id (e : Env) : string * Env :=
  let '(ms, e) := now_ms e in (pretty (ms `quot` 1000), e).

Inductive AddResult : Type :=
| Added (new_filter : WatchlistFilter)
| MissingArguments
| InvalidType
| NegativeFollowers
| InvalidNumber
| AlreadyExists.

(** The tail shared by every handler that adds a filter:
    [if user_id not in user_filters: user_filters[user_id] = []], the
    loop that looks for an equal filter, and the append. *)
Definition add_new_filter (user_id : Z) (new_filter : WatchlistFilter) (s : Store)
  : AddResult * Store :=
  let s := set_filters s (init_list (user_filters s) user_id) in
  if existsb (λ existing_filter, are_filters_equal existing_filter new_filter)
             (get_list (user_filters s) user_id)
  then (AlreadyExists, s)
  else (Added new_filter,
        set_filters s (append_to (user_filters s) user_id new_filter)).

Definition valid_types : list string :=
  ["twitter"; "website"; "token"; "wallet"; "believe"].

(** [add_filter_command]; [args] is [context.args]. *)
Definition add_filter_command (user_id : Z) (args : list string) (es : Env * Store)
  : AddResult * (Env * Store) :=
  match args with
  | filter_type :: (_ :: _) as rest =>
      let filter_type := Text.lower filter_type in
      let filter_value := join " " rest in
      if negb (bool_decide (filter_type ∈ valid_types)) then (InvalidType, es)
      else
        let checked : AddResult + string :=
          if bool_decide (filter_type = "believe") then
            match Text.py_int filter_value with
            | Some min_followers =>
                if min_followers <? 0 then inl NegativeFollowers
                else inr (pretty min_followers)
            | None => inl InvalidNumber
            end
          else inr filter_value in
        match checked with
        | inl rejected => (rejected, es)
        | inr filter_value =>
            let '(filter_id, e) := timestamp_id es.1 in
            let '(r, s) :=
              add_new_filter user_id (mkFilter filter_id filter_type filter_value) es.2 in
            (r, (e, s))
        end
  | _ => (MissingArguments, es)
  end.

(** The branch [input_type == "filter_value"] of [handle_filter_input];
    [filter_type] is the kind chosen with the button before, [user_input]
    the text of the message. *)
Definition handle_filter_input (user_id : Z) (filter_type user_input : string)
    (es : Env * Store) : AddResult * (Env * Store) :=
  if bool_decide (filter_type = "believe") && negb (isdigit user_input)
  then (InvalidNumber, es)
  else
    let '(filter_id, e) := timestamp_id es.1 in
    let '(r, s) :=
      add_new_filter user_id (mkFilter filter_id filter_type user_input) es.2 in
    (r, (e, s)).

(** The branches [quick_add_token_], [quick_add_twitter_] and
    [quick_add_believe_] of [button_handler], after the value is cut out
    of the callback data. *)
Definition quick_add_filter (user_id : Z) (filter_type value : string)
    (es : Env * Store) : AddResult * (Env * Store) :=
  let '(filter_id, e) := timestamp_id es.1 in
  let '(r, s) := add_new_filter user_id (mkFilter filter_id filter_type value) es.2 in
  (r, (e, s)).

Inductive RemoveResult : Type :=
| Removed (removed : WatchlistFilter)
| MissingIndex
| InvalidIndex
| NotANumber.

(** The bounds check and [user_filters[user_id].pop(index)] shared by the
    command and the button. *)
Definition remove_filter_at (user_id : Z) (index : Z) (s : Store)
  : RemoveResult * Store :=
  match user_filters s !! user_id with
  | None => (InvalidIndex, s)
  | Some filters =>
      if (index <? 0) || (Z.of_nat (length filters) <=? index) then (InvalidIndex, s)
      else
        match filters !! Z.to_nat index with
        | Some removed =>
            (Removed removed,
             set_filters s (<[user_id := delete (Z.to_nat index) filters]> (user_filters s)))
        | None => (InvalidIndex, s)
        end
  end.

(** [remove_filter_command]: the index of the command counts from one. *)
Definition remove_filter_command (user_id : Z) (args : list string) (s : Store)
  : RemoveResult * Store :=
  match args with
  | [] => (MissingIndex, s)
  | arg :: _ =>
      match Text.py_int arg with
      | Some n => remove_filter_at user_id (n - 1) s
      | None => (NotANumber, s)
      end
  end.

(** The branch [remove_filter_] of [button_handler]: the index in the
    callback data counts from zero. *)
Definition remove_filter_button (user_id : Z) (data : string) (s : Store)
  : RemoveResult * Store :=
  match Text.py_int (remove_all "remove_filter_" data) with
  | Some index => remove_filter_at user_id index s
  | None => (NotANumber, s)
  end.

Inductive ButtonResult : Type :=
| ButtonAdded (r : AddResult)
| ButtonRemoved (r : RemoveResult).

(** The branches of [button_handler] that change the filters, reached in
    the order of the [elif] chain; [None] stands for the other branches
    (the menus, the prompt for a filter value, and the buttons that are
    handed to the handlers of the commands). *)
Definition button_handler (user_id : Z) (data : string) (es : Env * Store)
  : option (ButtonResult * (Env * Store)) :=
  if bool_decide (data = "menu_add_filter") || bool_decide (data = "main_menu")
     || Text.startswith "add_filter_" data
  then None
  else if Text.startswith "quick_add_token_" data then
    let '(r, es) :=
      quick_add_filter user_id "token" (remove_all "quick_add_token_" data) es in
    Some (ButtonAdded r, es)
  else if Text.startswith "quick_add_twitter_" data then
    let '(r, es) :=
      quick_add_filter user_id "twitter" (remove_all "quick_add_twitter_" data) es in
    Some (ButtonAdded r, es)
  else if Text.startswith "quick_add_believe_" data then
    let '(r, es) :=
      quick_add_filter user_id "believe" (remove_all "quick_add_believe_" data) es in
    Some (ButtonAdded r, es)
  else if Text.startswith "remove_filter_" data then
    let '(r, s) := remove_filter_button user_id data es.2 in
    Some (ButtonRemoved r, (es.1, s))
  else None.

(** The callback data [list_filters_callback] attaches to the remove
    button of each filter, in the order of the listing:
    [f"remove_filter_{i-1}"] for [i] counting from one. *)
Definition remove_buttons (filters : list WatchlistFilter) : list string :=
  imap (λ i _, "remove_filter_" +:+ pretty (Z.of_nat i)) filters.

(** No filter of the list equals a filter stored before it. *)
Definition distinct_filters (filters : list WatchlistFilter) : Prop :=
  ∀ i j f g,
    filters !! i = Some f → filters !! j = Some g → (i < j)%nat →
    are_filters_equal f g = false.

(** The requests that change the filters of a user. *)
Inductive filter_request : Type :=
| AddFilterCommand (user_id : Z) (args : list string)
| FilterInput (user_id : Z) (filter_type user_input : string)
| QuickAdd (user_id : Z) (filter_type value : string)
| RemoveFilterCommand (user_id : Z) (args : list string)
| RemoveFilterButton (user_id : Z) (data : string).

Definition handle_filter_request (es : Env * Store) (r : filter_request) : Env * Store :=
  match r with
  | AddFilterCommand user_id args => (add_filter_command user_id args es).2
  | FilterInput user_id filter_type user_input =>
      (handle_filter_input user_id filter_type user_input es).2
  | QuickAdd user_id filter_type value =>
      (quick_add_filter user_id filter_type value es).2
  | RemoveFilterCommand user_id args =>
      (es.1, (remove_filter_command user_id args es.2).2)
  | RemoveFilterButton user_id data =>
      (es.1, (remove_filter_button user_id data es.2).2)
  end.

(** The kind and the value of the filter [add_filter_command] builds from
    its arguments when it accepts them. *)
Definition requested_filter (args : list string) : option (string * string) :=
  match args with
  | filter_type :: (_ :: _) as rest =>
      let filter_type := Text.lower filter_type in
      if negb (bool_decide (filter_type ∈ valid_types)) then None
      else if bool_decide (filter_type = "believe") then
        match Text.py_int (join " " rest) with
        | Some min_followers =>
            if min_followers <? 0 then None else Some (filter_type, pretty min_followers)
        | None => None
        end
      else Some (filter_type, join " " rest)
  | _ => None
  end.

(** The store with the filters of one user replaced. *)
Definition with_filters (s : Store) (user_id : Z) (filters : list WatchlistFilter)
  : Store :=
  set_filters s (<[user_id := filters]> (user_filters s)).

(** Sample data: a store without users, and a run of requests. *)
Definition empty_store : Store := mkStore ∅ ∅ ∅ ∅ ∅.

Definition sample_requests : list filter_request :=
  [ AddFilterCommand 7 ["token"; "pump"];
    AddFilterCommand 7 ["Twitter"; "@Foo"];
    FilterInput 7 "twitter" "https://x.com/foo";
    QuickAdd 7 "token" "PUMP";
    AddFilterCommand 7 ["believe"; "0100"];
    RemoveFilterCommand 7 ["1"];
    RemoveFilterButton 7 "remove_filter_0" ].

(** ** The announcements of a polling task *)

(** One turn of the loop of the polling task as far as the announced
    batch and the seen set go. *)
Definition announce_step (filters : list WatchlistFilter)
    (acc : list Match * gset string) (token : Token) : list Match * gset string :=
  if address_in token acc.2 then acc
  else
    match check_token_match token filters with
    | None => acc
    | Some matched_filter =>
        (acc.1 ++ [(token, matched_filter)],
         match token !! "address" with
         | Some a => {[a]} ∪ acc.2
         | None => acc.2
         end)
    end.

(** The batch announced for the candidates [tokens] by a task whose seen
    set is [seen], and the seen set afterwards. *)
Definition announced (filters : list WatchlistFilter) (seen : gset string)
    (tokens : list Token) : list Match * gset string :=
  foldl (announce_step filters) ([], seen) tokens.

(** ** Requests

    The requests that change the store: the changes of the filters, a
    manual refresh on a batch of fetched tokens, a turn of the polling
    task of a session on its candidates (a task that is cancelled or was
    never started runs no turn), and the commands that clear the matches
    and that start and stop a session. *)
Inductive request : Type :=
| ChangeFilters (r : filter_request)
| Refresh (user_id : Z) (tokens : list Token)
| PollingTurn (user_id chat_id : Z) (all_tokens : list Token)
| ClearMatches (user_id : Z)
| StartTracking (user_id chat_id : Z) (context : nat)
| StopTracking (user_id chat_id : Z).

Definition handle_request (es : Env * Store) (r : request) : Env * Store :=
  match r with
  | ChangeFilters r => handle_filter_request es r
  | Refresh user_id tokens => (process_new_tokens user_id tokens es).2
  | PollingTurn user_id chat_id all_tokens =>
      if is_tracking (get_tracking_key user_id chat_id) es.2 then
        match task_tick user_id chat_id all_tokens es with
        | Some (_, es') => es'
        | None => es
        end
      else es
  | ClearMatches user_id => clear_matches_command user_id es
  | StartTracking user_id chat_id context =>
      (es.1, (start_tracking_command user_id chat_id context es.2).2)
  | StopTracking user_id chat_id =>
      (es.1, (stop_tracking_command user_id chat_id es.2).2)
  end.

(** The polling task run for several turns, each with its candidates and
    the seen set it starts from. *)
Definition run_ticks (user_id : Z) (es : Env * Store)
    (turns : list (list Token * gset string)) : Env * Store :=
  foldl (λ es turn, (tracking_tick user_id turn.1 turn.2 es).2) es turns.

Definition sample_session : list request :=
  [ ChangeFilters (AddFilterCommand 7 ["token"; "pump"]);
    StartTracking 7 42 0;
    PollingTurn 7 42 [pump_token; other_token];
    Refresh 7 [pump_token_again];
    ClearMatches 7;
    ChangeFilters (RemoveFilterCommand 7 ["1"]);
    PollingTurn 7 42 [pump_token];
    StopTracking 7 42;
    ChangeFilters (AddFilterCommand 7 ["token"; "x"]);
    Refresh 7 [pump_token; other_token] ].

(** ** Vocabulary for the source clients *)

(** Every token of the list carries an address that is not empty. *)
Definition feed_addressed (tokens : list FeedToken) : Prop :=
  Forall (λ token : FeedToken,
            ∃ a, token !! "address" = Some a ∧ json_truthy a = true) tokens.

(** What the primary client remembers (the last response and the cache
    entries) holds tokens with addresses only. *)
Definition feeds_addressed (f : Feeds) : Prop :=
  feed_addressed (default [] (cached_response f))
  ∧ ∀ key entry, token_cache f !! key = Some entry → feed_addressed (data entry).

(** Every token of the list is marked as coming from the Believe feed and
    has an address key. *)
Definition believe_tagged (tokens : list FeedToken) : Prop :=
  Forall (λ token : FeedToken,
            token !! "source" = Some (JStr "believe")
            ∧ is_Some (token !! "address")) tokens.

Definition believe_cache_tagged (f : Feeds) : Prop :=
  ∀ key slot, believe_token_cache f !! key = Some slot → believe_tagged slot.

(** The number of pauses in a run of the retry loop. *)
Definition count_sleeps (events : list event) : nat :=
  length (filter (λ ev, is_attempt ev = false) events).

(** An endpoint that fails once and then answers with one entry. *)
Definition sample_items : list json :=
  [JDict {[ "token" := JDict {[ "mint" := JStr "LIVE1"; "symbol" := JStr "LIVE" ]} ]}].

Definition sample_payload : json := JList sample_items.

Definition sample_tokens : list FeedToken := omap process_item sample_items.

Definition flaky_env : Env :=
  mkEnv (λ n, 1700000000000 + Z.of_nat n)
        (λ n _, match n with O => HttpError | _ => HttpOk sample_payload end)
        (λ _, (1 # 4)%Q) 0 0 0 [].

Definition live_env : Env :=
  mkEnv (λ n, 1700000000000 + Z.of_nat n) (λ _ _, HttpOk sample_payload)
        (λ _, 0%Q) 0 0 0 [].

(** ** Persistence

    The directory [user_data] is a finite map from file names to the JSON
    value a file holds; [json.dump] and [json.load] are taken to be
    inverse to each other on these values. The sound preferences
    [user_sound_enabled] are a map of their own. *)

Abbreviation Disk := (gmap string json).

Definition filters_file (user_id : Z) : string :=
  "user_data/" +:+ pretty user_id +:+ "_filters.json".
Definition matched_tokens_file (user_id : Z) : string :=
  "user_data/" +:+ pretty user_id +:+ "_matched_tokens.json".
Definition history_file (user_id : Z) : string :=
  "user_data/" +:+ pretty user_id +:+ "_history.json".
Definition sound_file (user_id : Z) : string :=
  "user_data/" +:+ pretty user_id +:+ "_sound.json".

(** [{'id': f.id, 'type': f.type, 'value': f.value}] *)
Definition filter_to_json (f : WatchlistFilter) : json :=
  JDict {[ "id" := JStr (filter_id f);
           "type" := JStr (filter_type f);
           "value" := JStr (value f) ]}.

Definition token_to_json (token : Token) : json := JDict (JStr <$> token).

Definition entry_to_json (entry : MatchHistoryEntry) : json :=
  JDict {[ "token" := token_to_json (entry_token entry);
           "timestamp" := JNum (entry_timestamp entry);
           "filter" := filter_to_json (entry_filter entry) ]}.

Definition save_user_data (user_id : Z) (s : Store) (sound : gmap Z bool)
    (disk : Disk) : Disk :=
  let disk :=
    match user_filters s !! user_id with
    | Some filters => <[filters_file user_id := JList (filter_to_json <$> filters)]> disk
    | None => disk
    end in
  let disk :=
    match user_matched_tokens s !! user_id with
    | Some tokens => <[matched_tokens_file user_id := JList (token_to_json <$> tokens)]> disk
    | None => disk
    end in
  let disk :=
    match user_match_history s !! user_id with
    | Some history => <[history_file user_id := JList (entry_to_json <$> history)]> disk
    | None => disk
    end in
  match sound !! user_id with
  | Some enabled => <[sound_file user_id := JDict {[ "enabled" := JBool enabled ]}]> disk
  | None => disk
  end.

(** Reading back what [save_user_data] writes. The store holds filters
    and tokens with text fields, so a file with other content is outside
    the model: the readers answer [None] for it. *)
Definition text_of_json (j : json) : option string :=
  match j with JStr s => Some s | _ => None end.

(** [WatchlistFilter(f['id'], f['type'], f['value'])] *)
Definition filter_of_json (j : json) : option WatchlistFilter :=
  match j with
  | JDict d =>
      filter_id ← d !! "id" ≫= text_of_json;
      filter_type ← d !! "type" ≫= text_of_json;
      value ← d !! "value" ≫= text_of_json;
      Some (mkFilter filter_id filter_type value)
  | _ => None
  end.

Definition token_of_json (j : json) : option Token :=
  match j with
  | JDict d =>
      if bool_decide (map_Forall (λ _ v, is_Some (text_of_json v)) d)
      then Some (omap text_of_json d)
      else None
  | _ => None
  end.

(** [MatchHistoryEntry(entry['token'], entry['timestamp'], filter_obj)] *)
Definition entry_of_json (j : json) : option MatchHistoryEntry :=
  match j with
  | JDict d =>
      token ← d !! "token" ≫= token_of_json;
      timestamp ← d !! "timestamp" ≫= (λ v, match v with JNum n => Some n | _ => None end);
      filter_obj ← d !! "filter" ≫= filter_of_json;
      Some (mkEntry token timestamp filter_obj)
  | _ => None
  end.

Definition list_of_json {A} (read : json → option A) (j : json) : option (list A) :=
  match j with
  | JList l => mapM read l
  | _ => None
  end.

(** One [try: ... except FileNotFoundError: ...] block of
    [load_user_data]: the value read from the file, the default when
    there is no file. *)
Definition load_file {A} (read : json → option A) (missing : A) (file : string)
    (disk : Disk) : option A :=
  match disk !! file with
  | Some content => read content
  | None => Some missing
  end.

Definition sound_of_json (j : json) : option bool :=
  match j with
  | JDict d => d !! "enabled" ≫= (λ v, match v with JBool b => Some b | _ => None end)
  | _ => None
  end.

Definition load_user_data (user_id : Z) (s : Store) (sound : gmap Z bool)
    (disk : Disk) : option (Store * gmap Z bool) :=
  filters ← load_file (list_of_json filter_of_json) [] (filters_file user_id) disk;
  tokens ← load_file (list_of_json token_of_json) [] (matched_tokens_file user_id) disk;
  history ← load_file (list_of_json entry_of_json) [] (history_file user_id) disk;
  enabled ← load_file sound_of_json true (sound_file user_id) disk;
  Some (mkStore (<[user_id := filters]> (user_filters s))
                (<[user_id := tokens]> (user_matched_tokens s))
                (<[user_id := history]> (user_match_history s))
                (polling_tasks s) (contexts s),
        <[user_id := enabled]> sound).

(** The state part of [start_command]: a user the process does not know
    yet is given empty lists and then loaded from the files. *)
Definition start_command (user_id : Z) (s : Store) (sound : gmap Z bool)
    (disk : Disk) : option (Store * gmap Z bool) :=
  match user_filters s !! user_id with
  | Some _ => Some (s, sound)
  | None =>
      load_user_data user_id
        (mkStore (<[user_id := []]> (user_filters s))
                 (<[user_id := []]> (user_matched_tokens s))
                 (<[user_id := []]> (user_match_history s))
                 (polling_tasks s) (contexts s))
        (<[user_id := true]> sound) disk
  end.

(** [toggle_sound_command] *)
Definition toggle_sound_command (user_id : Z) (sound : gmap Z bool) : gmap Z bool :=
  let sound :=
    match sound !! user_id with
    | Some _ => sound
    | None => <[user_id := true]> sound
    end in
  <[user_id := negb (default true (sound !! user_id))]> sound.

(** The user is known to the process: present in each of the four dicts,
    as after [start_command]. *)
Definition known_user (user_id : Z) (s : Store) (sound : gmap Z bool) : Prop :=
  is_Some (user_filters s !! user_id)
  ∧ is_Some (user_matched_tokens s !! user_id)
  ∧ is_Some (user_match_history s !! user_id)
  ∧ is_Some (sound !! user_id).

(** Sample data: a user with one filter, one match and one record, and
    the sound turned off. *)
Definition known_store : Store :=
  mkStore {[ 7 := [pump_filter; believe_filter] ]} {[ 7 := [pump_token] ]}
          {[ 7 := [mkEntry pump_token 1700000000000 pump_filter] ]} ∅ ∅.

Definition sound_off : gmap Z bool := {[ 7 := false ]}.

(** * Properties of the text primitives *)

Section TextFacts.
Import Text Regex.

Lemma bool_decide_sym {A} `{EqDecision A} (x y : A) :
  bool_decide (x = y) = bool_decide (y = x).
Proof. apply bool_decide_ext; split; congruence. Qed.

Lemma handle_char_lower c : handle_char (lower_ascii c) = handle_char c.
Proof. by destruct c as [[] [] [] [] [] [] [] []]. Qed.

Lemma lower_ascii_at c : Ascii.eqb (lower_ascii c) "@" = Ascii.eqb c "@".
Proof. by destruct c as [[] [] [] [] [] [] [] []]. Qed.

Lemma all_handle_chars_lower s : all_handle_chars (lower s) = all_handle_chars s.
Proof. induction s as [|c s IH]; [done|]. cbn. by rewrite handle_char_lower, IH. Qed.

Lemma truthy_lower s : truthy (lower s) = truthy s.
Proof. by destruct s. Qed.

Lemma bare_handle_lower h : bare_handle (lower h) = bare_handle h.
Proof.
  unfold bare_handle. rewrite truthy_lower, all_handle_chars_lower.
  destruct h as [|c h]; [done|]. unfold startswith. cbn -[Ascii.eqb].
  rewrite (Ascii.eqb_sym "@"), lower_ascii_at, (Ascii.eqb_sym c).
  by destruct (Ascii.eqb "@" c).
Qed.

Lemma strip_prefix_spec p s t : strip_prefix p s = Some t → s = p +:+ t.
Proof.
  revert s. induction p as [|a p IH]; intros s.
  - cbn. by intros [= ->].
  - destruct s as [|b s]; cbn -[Ascii.eqb]; [done|].
    destruct (Ascii.eqb_spec a b) as [->|]; [|done].
    by intros ->%IH.
Qed.

Lemma append_cons a p t : String a p +:+ t = String a (p +:+ t).
Proof. reflexivity. Qed.

Lemma append_assoc p q t : (p +:+ q) +:+ t = p +:+ (q +:+ t).
Proof. induction p as [|a p IH]; [done|]. by rewrite !append_cons, IH. Qed.

Lemma all_handle_chars_app p t :
  all_handle_chars (p +:+ t) = all_handle_chars p && all_handle_chars t.
Proof.
  induction p as [|a p IH]; [done|].
  rewrite append_cons. cbn. by rewrite IH, andb_assoc.
Qed.

(** Whatever a match leaves is an end of the string. *)
Lemma re_match_suffix r s t : t ∈ re_match r s → ∃ p, s = p +:+ t.
Proof.
  revert s t. induction r as [p|r1 IH1 r2 IH2|r1 IH1 r2 IH2|r1 IH1]; intros s t; cbn.
  - destruct (strip_prefix p s) as [u|] eqn:E; [|by intros ?%elem_of_nil].
    intros ->%list_elem_of_singleton. exists p. by apply strip_prefix_spec.
  - intros (u & Ht & Hu)%list_elem_of_bind.
    destruct (IH1 _ _ Hu) as [p1 ->], (IH2 _ _ Ht) as [p2 ->].
    exists (p1 +:+ p2). by rewrite append_assoc.
  - intros [?|?]%elem_of_app; eauto.
  - intros [?| ->%list_elem_of_singleton]%elem_of_app; [eauto|]. by exists "".
Qed.

Lemma no_path_without_slash t : all_handle_chars t = true → re_match twitter_url_path t = [].
Proof.
  destruct t as [|c t]; [done|]. cbn -[Ascii.eqb]. intros [Hc _]%andb_true_iff.
  destruct (Ascii.eqb_spec "/" c) as [<-|]; [done|done].
Qed.

Lemma no_head_without_slash s : all_handle_chars s = true → re_match twitter_url_head s = [].
Proof.
  intros Hs. apply elem_of_nil_inv. intros x.
  unfold twitter_url_head. cbn [re_match].
  intros (t & Hx & Ht)%list_elem_of_bind.
  apply re_match_suffix in Ht as [p ->].
  rewrite all_handle_chars_app in Hs. apply andb_true_iff in Hs as [_ Hs].
  rewrite (no_path_without_slash _ Hs) in Hx. by apply elem_of_nil in Hx.
Qed.

(** A string without slash, question mark or white space holds no
    profile URL. *)
Lemma search_without_slash s : all_handle_chars s = true → search_twitter_url s = None.
Proof.
  induction s as [|c s IH]; intros Hs.
  - done.
  - cbn [search_twitter_url]. unfold match_here.
    rewrite (no_head_without_slash _ Hs). cbn.
    apply IH. cbn in Hs. by apply andb_true_iff in Hs as [_ ?].
Qed.

Lemma take_handle_all s : all_handle_chars s = true → take_handle s = s.
Proof.
  induction s as [|c s IH]; [done|]. cbn. intros [-> Hs]%andb_true_iff.
  by rewrite IH.
Qed.

Lemma bare_handle_inv h :
  bare_handle h = true →
  truthy h = true ∧ all_handle_chars h = true ∧ strip_prefix "@" h = None.
Proof.
  unfold bare_handle, startswith.
  intros [[? ?]%andb_true_iff Hat]%andb_true_iff.
  destruct (strip_prefix "@" h); done.
Qed.

Lemma no_hashbang h : all_handle_chars h = true → strip_prefix "#!/" h = None.
Proof.
  destruct h as [|c1 [|c2 [|c3 h]]]; cbn -[Ascii.eqb]; try done.
  - by destruct (Ascii.eqb "#" c1).
  - by destruct (Ascii.eqb "#" c1), (Ascii.eqb "!" c2).
  - intros [_ [_ [Hc _]%andb_true_iff]%andb_true_iff]%andb_true_iff.
    destruct (Ascii.eqb "#" c1), (Ascii.eqb "!" c2); try done.
    destruct (Ascii.eqb_spec "/" c3) as [<-|]; done.
Qed.

Lemma path_of_bare h :
  bare_handle h = true → re_match twitter_url_path ("/" +:+ h) = [h].
Proof.
  intros (_ & Hh & Hat)%bare_handle_inv.
  change ("/" +:+ h) with (String "/" h). cbn -[Ascii.eqb strip_prefix].
  change (strip_prefix "/" (String "/" h)) with (Some h). cbn -[strip_prefix].
  rewrite (no_hashbang _ Hh). cbn -[strip_prefix]. by rewrite Hat.
Qed.

Lemma path_of_at_bare h :
  bare_handle h = true → re_match twitter_url_path ("/@" +:+ h) = [h; "@" +:+ h].
Proof.
  intros (_ & Hh & Hat)%bare_handle_inv. reflexivity.
Qed.

(** At the front of a profile URL the host part matches in one way. *)
Lemma host_of_profile_url :
  Forall (λ host, ∀ rest, re_match twitter_url_host (host +:+ rest) = [rest])
         profile_url_hosts.
Proof. repeat constructor; intros rest; reflexivity. Qed.


Lemma truthy_app p q : truthy (p +:+ q) = truthy p || truthy q.
Proof. by destruct p. Qed.

Lemma search_here s g : match_here s = Some g → search_twitter_url s = Some g.
Proof. intros H. destruct s; cbn [search_twitter_url]; by rewrite H. Qed.

Lemma first_group_bare h ts :
  bare_handle h = true → first_group (h :: ts) = Some h.
Proof.
  intros (Ht & Hh & _)%bare_handle_inv. cbn.
  by rewrite (take_handle_all _ Hh), Ht.
Qed.

Lemma search_profile_url host h tail :
  host ∈ profile_url_hosts →
  bare_handle h = true →
  tail = "/" +:+ h ∨ tail = "/@" +:+ h →
  search_twitter_url (host +:+ tail) = Some h.
Proof.
  intros Hhost Hh Htail. apply search_here. unfold match_here, twitter_url_head.
  cbn [re_match].
  rewrite (proj1 (Forall_forall _ _) host_of_profile_url _ Hhost).
  rewrite bind_singleton.
  destruct Htail as [-> | ->].
  - rewrite (path_of_bare _ Hh). by apply first_group_bare.
  - rewrite (path_of_at_bare _ Hh). by apply first_group_bare.
Qed.

Lemma normalize_twitter_handle_lowered v :
  truthy (lower v) = true →
  normalize_twitter_handle v = normalize_lowered (lower v).
Proof.
  rewrite truthy_lower. unfold normalize_twitter_handle. by intros ->.
Qed.

Lemma normalize_spelling h s :
  bare_handle h = true → s ∈ spellings h → truthy s = true ∧ normalize_lowered s = h.
Proof.
  intros Hh Hs. pose proof (bare_handle_inv _ Hh) as (Ht & Hall & Hat).
  unfold spellings in Hs.
  apply elem_of_app in Hs as [Hs|Hs].
  - apply elem_of_cons in Hs as [->|Hs]; [|apply list_elem_of_singleton in Hs as ->].
    + split; [done|]. unfold normalize_lowered.
      by rewrite (search_without_slash _ Hall), Hat.
    + split; [done|]. unfold normalize_lowered.
      rewrite search_without_slash; [done|]. by rewrite all_handle_chars_app, Hall.
  - assert (∃ host tail, s = host +:+ tail ∧ host ∈ profile_url_hosts
                         ∧ (tail = "/" +:+ h ∨ tail = "/@" +:+ h))
      as (host & tail & -> & Hhost & Htail).
    { apply elem_of_app in Hs as [Hs|Hs];
        apply list_elem_of_fmap in Hs as (host & -> & Hhost); eauto 10. }
    split.
    + rewrite truthy_app. destruct Htail as [-> | ->]; by rewrite orb_true_r.
    + unfold normalize_lowered.
      by rewrite (search_profile_url _ _ _ Hhost Hh Htail), Hat.
Qed.

(** Every way of writing a bare handle is normalised to the handle in
    lower case. *)
Lemma normalize_twitter_handle_spells h v :
  bare_handle h = true → spells h v → normalize_twitter_handle v = lower h.
Proof.
  intros Hh Hv. rewrite <- bare_handle_lower in Hh.
  destruct (normalize_spelling _ _ Hh Hv) as [Ht Hn].
  by rewrite normalize_twitter_handle_lowered.
Qed.
End TextFacts.

(** ** ASCII text *)

Lemma is_ascii_lower s : is_ascii (Text.lower s) = is_ascii s.
Proof.
  induction s as [|c s IH]; [done|]. cbn. rewrite IH. f_equal.
  by destruct c as [[] [] [] [] [] [] [] []].
Qed.

Lemma is_ascii_app p q : is_ascii (p +:+ q) = is_ascii p && is_ascii q.
Proof.
  induction p as [|c p IH]; [done|]. rewrite append_cons. cbn.
  by rewrite IH, andb_assoc.
Qed.

(** A value that writes an ASCII handle is ASCII text. *)
Lemma spelling_is_ascii h v : is_ascii h = true → spells h v → is_ascii v = true.
Proof.
  intros Hh Hv. rewrite <- is_ascii_lower. rewrite <- is_ascii_lower in Hh.
  unfold spells, spellings in Hv.
  apply elem_of_cons in Hv as [->|Hv]; [done|].
  apply elem_of_cons in Hv as [->|Hv]; [by rewrite is_ascii_app, Hh|].
  apply elem_of_app in Hv as [Hv|Hv];
    apply list_elem_of_fmap in Hv as (host & -> & Hhost);
    rewrite !is_ascii_app, Hh, andb_true_r;
    unfold profile_url_hosts in Hhost;
    repeat (apply elem_of_cons in Hhost as [->|Hhost]; [done|]);
    by apply elem_of_nil in Hhost.
Qed.

(** ** Filter equality

    C7. Two [twitter] filters whose values write the same bare handle in
    ASCII are equal for [are_filters_equal], whatever the spelling: with
    or without the at sign, in any letter case, bare or as a profile URL.
    The values are then ASCII text as well ([spelling_is_ascii]), on which
    [str.lower] and the class [\s] of the source are what the model
    takes them to be. *)
Theorem twitter_filters_equal_up_to_spelling (h v1 v2 id1 id2 : string) :
  is_ascii h = true →
  bare_handle h = true →
  spells h v1 →
  spells h v2 →
  are_filters_equal (twitter_filter id1 v1) (twitter_filter id2 v2) = true.
Proof.
  intros _ Hh H1 H2. unfold are_filters_equal, twitter_filter. cbn.
  rewrite (normalize_twitter_handle_spells _ _ Hh H1),
          (normalize_twitter_handle_spells _ _ Hh H2).
  by rewrite !bool_decide_eq_true_2 by reflexivity.
Qed.

Lemma twitter_filters_equal_up_to_spelling_witness :
  are_filters_equal (twitter_filter "1" "@Foo") (twitter_filter "2" "https://x.com/foo")
  = true.
Proof.
  apply (twitter_filters_equal_up_to_spelling "foo").
  - reflexivity.
  - reflexivity.
  - apply (bool_decide_unpack _). vm_compute. exact I.
  - apply (bool_decide_unpack _). vm_compute. exact I.
Defined.

(** The three values of the specification, pairwise. *)
Example foo_spellings_pairwise_equal :
  let vs := ["@Foo"; "foo"; "https://x.com/foo"] in
  ∀ v1 v2, v1 ∈ vs → v2 ∈ vs →
    are_filters_equal (twitter_filter "a" v1) (twitter_filter "b" v2) = true.
Proof.
  intros vs v1 v2 H1 H2. unfold vs in H1, H2.
  repeat (apply elem_of_cons in H1 as [->|H1]); [| | |by apply elem_of_nil in H1];
    (repeat (apply elem_of_cons in H2 as [->|H2]); [| | |by apply elem_of_nil in H2]);
    reflexivity.
Qed.

(** C10. [are_filters_equal] is symmetric, for every kind of filter: in
    the [believe] kind both orders compare the integers when both values
    parse and the raw strings otherwise. *)
Theorem are_filters_equal_symmetric (filter1 filter2 : WatchlistFilter) :
  are_filters_equal filter1 filter2 = are_filters_equal filter2 filter1.
Proof.
  unfold are_filters_equal.
  destruct (decide (filter_type filter1 = filter_type filter2)) as [E|N].
  - rewrite <- E. rewrite (bool_decide_eq_true_2 _ eq_refl). cbn.
    repeat case_bool_decide; try congruence;
      destruct (Text.py_int (value filter1)), (Text.py_int (value filter2));
      repeat case_bool_decide; congruence.
  - assert (N' : filter_type filter2 ≠ filter_type filter1) by congruence.
    by rewrite (bool_decide_eq_false_2 _ N), (bool_decide_eq_false_2 _ N').
Qed.

(** ** The matcher *)

Lemma first_match_spec (token : Token) (filters : list WatchlistFilter) :
  match first_match token filters with
  | Some f =>
      ∃ before after,
        filters = before ++ f :: after
        ∧ Forall (λ g, filter_matches token g = false) before
        ∧ filter_matches token f = true
  | None => Forall (λ g, filter_matches token g = false) filters
  end.
Proof.
  induction filters as [|g filters IH]; cbn; [constructor|].
  destruct (filter_matches token g) eqn:Hg.
  - exists [], filters. by repeat split.
  - destruct (first_match token filters) as [f|].
    + destruct IH as (before & after & -> & Hb & Hf).
      exists (g :: before), after. repeat split; [|done]. by constructor.
    + by constructor.
Qed.

Lemma check_token_match_nonempty (token : Token) (filters : list WatchlistFilter) :
  token ≠ ∅ → check_token_match token filters = first_match token filters.
Proof.
  intros Ht. unfold check_token_match.
  rewrite (bool_decide_eq_false_2 _ Ht). cbn.
  case_bool_decide as Hf; [by subst|done].
Qed.

(** C6. For a token that is not the empty dict, [check_token_match]
    returns the first filter, in list order, whose rule is satisfied: every
    filter before it fails its rule; it returns nothing exactly when no
    filter's rule is satisfied. *)
Theorem check_token_match_first (token : Token) (filters : list WatchlistFilter) :
  token ≠ ∅ →
  match check_token_match token filters with
  | Some f =>
      ∃ before after,
        filters = before ++ f :: after
        ∧ Forall (λ g, filter_matches token g = false) before
        ∧ filter_matches token f = true
  | None => Forall (λ g, filter_matches token g = false) filters
  end.
Proof.
  intros Ht. rewrite (check_token_match_nonempty _ _ Ht). apply first_match_spec.
Qed.

Lemma check_token_match_first_witness :
  match check_token_match pump_token
          [mkFilter "0" "wallet" "w"; pump_filter; mkFilter "3" "token" "pu"] with
  | Some f =>
      ∃ before after,
        [mkFilter "0" "wallet" "w"; pump_filter; mkFilter "3" "token" "pu"]
        = before ++ f :: after
        ∧ Forall (λ g, filter_matches pump_token g = false) before
        ∧ filter_matches pump_token f = true
  | None =>
      Forall (λ g, filter_matches pump_token g = false)
             [mkFilter "0" "wallet" "w"; pump_filter; mkFilter "3" "token" "pu"]
  end.
Proof.
  apply (check_token_match_first pump_token).
  apply (bool_decide_unpack _). vm_compute. exact I.
Defined.

(** The guard [if not token] answers for the empty dict before any rule
    is tried. *)
Lemma check_token_match_empty_token (filters : list WatchlistFilter) :
  check_token_match ∅ filters = None.
Proof. done. Qed.

(** ** The match store *)

Section StoreFacts.
Context {K A : Type} `{Countable K}.
Implicit Types (d : gmap K (list A)) (k : K) (x : A).

Lemma get_list_init d k k' : get_list (init_list d k) k' = get_list d k'.
Proof.
  unfold init_list, get_list. destruct (d !! k) eqn:E; [done|].
  destruct (decide (k = k')) as [<-|N].
  - by rewrite lookup_insert_eq, E.
  - by rewrite lookup_insert_ne.
Qed.

Lemma get_list_append d k k' x :
  get_list (append_to d k x) k' = get_list d k' ++ (if decide (k = k') then [x] else []).
Proof.
  unfold append_to. unfold get_list at 1.
  destruct (decide (k = k')) as [<-|N].
  - by rewrite lookup_insert_eq.
  - rewrite lookup_insert_ne by done. by rewrite app_nil_r.
Qed.
End StoreFacts.

Lemma record_match_spec user_id token f e s :
  let es' := record_match user_id token f (e, s) in
  user_filters es'.2 = user_filters s
  ∧ contexts es'.2 = contexts s
  ∧ polling_tasks es'.2 = polling_tasks s
  ∧ (∀ v, get_list (user_matched_tokens es'.2) v
          = get_list (user_matched_tokens s) v
            ++ (if decide (user_id = v) then [token] else []))
  ∧ (∀ v, get_list (user_match_history es'.2) v
          = get_list (user_match_history s) v
            ++ (if decide (user_id = v)
                then [mkEntry token (wall_clock e (clock_reads e)) f] else [])).
Proof.
  cbn. repeat split; intros v.
  - apply get_list_append.
  - by rewrite get_list_append, get_list_init.
Qed.

Lemma foldl_invariant {A B} (P : A → Prop) (Q : B → Prop) (f : A → B → A)
    (l : list B) (a : A) :
  (∀ a x, Q x → P a → P (f a x)) → Forall Q l → P a → P (foldl f a l).
Proof.
  intros Hstep Hl. revert a. induction Hl as [|x l Hx _ IH]; intros a Ha; cbn; [done|].
  apply IH. by apply Hstep.
Qed.

Lemma all_addressed_init_matched s user_id :
  all_addressed (set_matched s (init_list (user_matched_tokens s) user_id))
  ↔ all_addressed s.
Proof.
  unfold all_addressed. cbn. split; intros Hs v; specialize (Hs v);
    by rewrite get_list_init in *.
Qed.

Lemma record_match_addressed user_id token f e s :
  has_address token = true →
  all_addressed s →
  all_addressed (record_match user_id token f (e, s)).2.
Proof.
  intros Ht Hs v.
  destruct (record_match_spec user_id token f e s) as (_ & _ & _ & Hm & Hh).
  rewrite Hm, Hh. destruct (Hs v) as [Hsm Hsh].
  split; apply Forall_app; (split; [done|]); case_decide; by repeat constructor.
Qed.

Lemma process_token_addressed user_id existing acc token :
  has_address token = true →
  all_addressed acc.2.2 →
  all_addressed (process_token user_id existing acc token).2.2.
Proof.
  destruct acc as [new_matches [e s]]. intros Ht Hs. unfold process_token.
  destruct (address_in token existing); [done|].
  destruct (check_token_match _ _); [|done].
  by apply record_match_addressed.
Qed.

Lemma track_token_addressed user_id acc token :
  has_address token = true →
  all_addressed acc.2.2 →
  all_addressed (track_token user_id acc token).2.2.
Proof.
  destruct acc as [[matches seen] [e s]]. intros Ht Hs. unfold track_token.
  destruct (address_in token seen); [done|].
  destruct (check_token_match _ _); [|done]. cbn [fst snd].
  destruct (is_new_globally _ _).
  - apply record_match_addressed; [done|]. by apply all_addressed_init_matched.
  - by apply all_addressed_init_matched.
Qed.

(** C1, counterexample. A Believe token built from an entry without
    [ca_address] has the empty address; it matches a [believe] filter and
    is recorded in the matches and in the history, by
    [process_new_tokens] and by the scheduler alike. *)
Lemma unaddressed_token_is_recorded :
  has_address unaddressed_token = false
  ∧ (let s := (process_new_tokens 7 [unaddressed_token]
                 (quiet_env, store_with_filters 7 [believe_filter])).2.2 in
     get_list (user_matched_tokens s) 7 = [unaddressed_token]
     ∧ entry_token <$> get_list (user_match_history s) 7 = [unaddressed_token])
  ∧ (let s := (tracking_tick 7 [unaddressed_token] ∅
                 (quiet_env, store_with_filters 7 [believe_filter])).2.2 in
     get_list (user_matched_tokens s) 7 = [unaddressed_token]
     ∧ entry_token <$> get_list (user_match_history s) 7 = [unaddressed_token]).
Proof. repeat split; vm_compute; reflexivity. Qed.

(** C2. Two tokens with one address in a single batch are both recorded
    by [process_new_tokens]: the set of known addresses is built before
    the loop and never extended inside it. *)
Theorem process_new_tokens_records_batch_duplicates :
  let '(new_matches, (_, s)) :=
    process_new_tokens 7 [pump_token; pump_token_again]
      (quiet_env, store_with_filters 7 [pump_filter]) in
  new_matches = [(pump_token, pump_filter); (pump_token_again, pump_filter)]
  ∧ get_list (user_matched_tokens s) 7 = [pump_token; pump_token_again]
  ∧ count_address "A1" (get_list (user_matched_tokens s) 7) = 2%nat
  ∧ count_address "A1" (entry_token <$> get_list (user_match_history s) 7) = 2%nat.
Proof. vm_compute. repeat split; reflexivity. Qed.



(** ** De-duplication by address: what the two recording paths do *)

Lemma new_matches_of_cons existing filters token tokens :
  new_matches_of existing filters (token :: tokens)
  = (if address_in token existing then []
     else match check_token_match token filters with
          | Some f => [(token, f)]
          | None => []
          end)
    ++ new_matches_of existing filters tokens.
Proof.
  unfold new_matches_of. cbn.
  destruct (address_in token existing); [done|].
  by destruct (check_token_match token filters).
Qed.

Lemma process_token_fold user_id existing tokens :
  ∀ new_matches e s,
    let filters := get_list (user_filters s) user_id in
    let r := foldl (process_token user_id existing) (new_matches, (e, s)) tokens in
    let added := new_matches_of existing filters tokens in
    r.1 = new_matches ++ added
    ∧ user_filters r.2.2 = user_filters s
    ∧ (∀ v, get_list (user_matched_tokens r.2.2) v
            = get_list (user_matched_tokens s) v
              ++ (if decide (user_id = v) then added.*1 else []))
    ∧ (∀ v, entry_token <$> get_list (user_match_history r.2.2) v
            = (entry_token <$> get_list (user_match_history s) v)
              ++ (if decide (user_id = v) then added.*1 else [])).
Proof.
  induction tokens as [|token tokens IH]; intros new_matches e s; cbn zeta.
  - cbn. repeat split; intros; try case_decide; by rewrite ?app_nil_r.
  - cbn [foldl]. rewrite new_matches_of_cons.
    unfold process_token at 2 4 6 8. cbn [fst snd].
    destruct (address_in token existing); [exact (IH new_matches e s)|].
    destruct (check_token_match token (get_list (user_filters s) user_id))
      as [f|] eqn:Hf; [|exact (IH new_matches e s)].
    destruct (record_match_spec user_id token f e s) as (Hrf & _ & _ & Hrm & Hrh).
    destruct (record_match user_id token f (e, s)) as [e1 s1] eqn:Hrec.
    cbn [fst snd] in *.
    specialize (IH (new_matches ++ [(token, f)]) e1 s1). cbn zeta in IH.
    rewrite Hrf in IH. destruct IH as (H1 & H2 & H3 & H4).
    repeat split.
    + by rewrite H1, <- app_assoc.
    + by rewrite H2.
    + intros v. rewrite H3, Hrm. case_decide; by rewrite <- ?app_assoc, ?app_nil_r.
    + intros v. rewrite H4, Hrh, fmap_app.
      case_decide; by rewrite <- ?app_assoc, ?app_nil_r.
Qed.

(** What a call of [process_new_tokens] returns and records. *)
Lemma process_new_tokens_spec user_id tokens e s :
  let r := process_new_tokens user_id tokens (e, s) in
  let added :=
    new_matches_of (addresses_of (get_list (user_matched_tokens s) user_id))
      (get_list (user_filters s) user_id) tokens in
  r.1 = added
  ∧ user_filters r.2.2 = user_filters s
  ∧ get_list (user_matched_tokens r.2.2) user_id
    = get_list (user_matched_tokens s) user_id ++ added.*1
  ∧ entry_token <$> get_list (user_match_history r.2.2) user_id
    = (entry_token <$> get_list (user_match_history s) user_id) ++ added.*1.
Proof.
  cbn zeta. unfold process_new_tokens.
  destruct (_ || _) eqn:Hguard.
  - assert (new_matches_of (addresses_of (get_list (user_matched_tokens s) user_id))
              (get_list (user_filters s) user_id) tokens = []) as ->.
    { apply orb_true_iff in Hguard as [[Hg|Hg]%orb_true_iff|Hg].
      - apply bool_decide_eq_true in Hg. by subst.
      - apply negb_true_iff, bool_decide_eq_false in Hg.
        assert (get_list (user_filters s) user_id = []) as ->.
        { unfold get_list. destruct (user_filters s !! user_id); [|done]. by destruct Hg. }
        unfold new_matches_of. induction tokens as [|t ts IHt]; [done|]. cbn.
        destruct (address_in t _); [done|].
        unfold check_token_match at 1. by rewrite orb_true_r.
      - apply bool_decide_eq_true in Hg. rewrite Hg.
        unfold new_matches_of. induction tokens as [|t ts IHt]; [done|]. cbn.
        destruct (address_in t _); [done|].
        unfold check_token_match at 1. by rewrite orb_true_r. }
    cbn. by rewrite !app_nil_r.
  - pose proof (process_token_fold user_id
                  (addresses_of
                     (get_list (init_list (user_matched_tokens s) user_id) user_id))
                  tokens [] e
                  (set_matched s (init_list (user_matched_tokens s) user_id))) as H.
    cbn zeta in H. cbn [user_filters set_matched user_matched_tokens user_match_history] in H.
    rewrite get_list_init in H. destruct H as (H1 & H2 & H3 & H4).
    specialize (H3 user_id). specialize (H4 user_id).
    rewrite get_list_init in H3. rewrite decide_True in H3, H4 by done.
    cbn [user_matched_tokens set_matched]. rewrite get_list_init.
    done.
Qed.

Lemma track_token_records user_id matches seen e s token :
  let r := track_token user_id (matches, seen, (e, s)) token in
  let recorded :=
    if address_in token seen then []
    else match check_token_match token (get_list (user_filters s) user_id) with
         | None => []
         | Some _ =>
             if is_new_globally token (get_list (user_matched_tokens s) user_id)
             then [token] else []
         end in
  get_list (user_matched_tokens r.2.2) user_id
  = get_list (user_matched_tokens s) user_id ++ recorded
  ∧ entry_token <$> get_list (user_match_history r.2.2) user_id
    = (entry_token <$> get_list (user_match_history s) user_id) ++ recorded.
Proof.
  cbv zeta. unfold track_token. cbn [fst snd].
  destruct (address_in token seen); [by rewrite !app_nil_r|].
  destruct (check_token_match _ _) as [f|]; [|by rewrite !app_nil_r].
  cbn [fst snd].
  change (user_matched_tokens (set_matched s (init_list (user_matched_tokens s) user_id)))
    with (init_list (user_matched_tokens s) user_id).
  rewrite get_list_init.
  destruct (is_new_globally token (get_list (user_matched_tokens s) user_id)).
  - destruct (record_match_spec user_id token f e
                (set_matched s (init_list (user_matched_tokens s) user_id)))
      as (_ & _ & _ & HG & HH).
    cbv zeta in HG, HH. rewrite (HG user_id), (HH user_id), !decide_True by done.
    cbn [set_matched user_matched_tokens user_match_history].
    rewrite get_list_init, fmap_app. done.
  - cbn [snd set_matched user_matched_tokens user_match_history].
    by rewrite get_list_init, !app_nil_r.
Qed.

(** C1, as amended. Neither processing step tests that the address of a
    candidate is not empty. [process_new_tokens] appends to the matches
    and to the history every candidate of the batch that a filter matches
    and whose address is not among the addresses of the matches present
    before the call. The body of the scheduler's loop skips a candidate
    whose address is in the seen set of the chat, and otherwise appends
    it when a filter matches it and no entry of the matches carries its
    address. What holds is preservation: when every candidate of the
    batch carries a non-empty address, a store in which every entry of
    the matches and of the history carries one is still such a store
    after [process_new_tokens] and after a turn of the scheduler. *)
Theorem addresses_preserved_by_processing (user_id : Z) (tokens : list Token)
    (seen : gset string) (e : Env) (s : Store) :
  let filters := get_list (user_filters s) user_id in
  let matched := get_list (user_matched_tokens s) user_id in
  let history := get_list (user_match_history s) user_id in
  (let r := process_new_tokens user_id tokens (e, s) in
   let added := (new_matches_of (addresses_of matched) filters tokens).*1 in
   get_list (user_matched_tokens r.2.2) user_id = matched ++ added
   ∧ entry_token <$> get_list (user_match_history r.2.2) user_id
     = (entry_token <$> history) ++ added)
  ∧ (∀ matches token,
       let r := track_token user_id (matches, seen, (e, s)) token in
       let recorded :=
         if address_in token seen then []
         else match check_token_match token filters with
              | None => []
              | Some _ => if is_new_globally token matched then [token] else []
              end in
       get_list (user_matched_tokens r.2.2) user_id = matched ++ recorded
       ∧ entry_token <$> get_list (user_match_history r.2.2) user_id
         = (entry_token <$> history) ++ recorded)
  ∧ (Forall (λ token, has_address token = true) tokens →
     all_addressed s →
     all_addressed (process_new_tokens user_id tokens (e, s)).2.2
     ∧ all_addressed (tracking_tick user_id tokens seen (e, s)).2.2).
Proof.
  cbv zeta. split_and!.
  - by destruct (process_new_tokens_spec user_id tokens e s) as (_ & _ & ? & _).
  - by destruct (process_new_tokens_spec user_id tokens e s) as (_ & _ & _ & ?).
  - intros matches token. apply track_token_records.
  - intros Ht Hs. split.
    + unfold process_new_tokens.
      destruct (_ || _); [done|].
      apply (foldl_invariant (λ acc, all_addressed acc.2.2)
               (λ token, has_address token = true)); [|done|].
      * intros. by apply process_token_addressed.
      * by apply all_addressed_init_matched.
    + unfold tracking_tick.
      apply (foldl_invariant (λ acc, all_addressed acc.2.2)
               (λ token, has_address token = true)); [|done|done].
      intros. by apply track_token_addressed.
Qed.

Lemma addresses_preserved_by_processing_witness :
  all_addressed
    (process_new_tokens 7 [pump_token; other_token]
       (quiet_env, store_with_filters 7 [pump_filter])).2.2
  ∧ all_addressed
      (tracking_tick 7 [pump_token; other_token] ∅
         (quiet_env, store_with_filters 7 [pump_filter])).2.2.
Proof.
  apply (addresses_preserved_by_processing 7 [pump_token; other_token] ∅ quiet_env
           (store_with_filters 7 [pump_filter])).
  - repeat constructor.
  - intros v. unfold store_with_filters, get_list. cbn.
    rewrite !lookup_empty. split; constructor.
Defined.

(** The seen set comes first in the scheduler: a candidate whose address
    the chat has seen is not recorded, although no entry of the matches
    carries its address. *)
Example seen_candidate_is_not_recorded :
  get_list (user_matched_tokens
              (tracking_tick 7 [pump_token] {["A1"]}
                 (quiet_env, store_with_filters 7 [pump_filter])).2.2) 7
  = [].
Proof. vm_compute. reflexivity. Qed.

Lemma elem_of_new_matches_of existing filters tokens token f :
  token ∈ tokens →
  address_in token existing = false →
  check_token_match token filters = Some f →
  (token, f) ∈ new_matches_of existing filters tokens.
Proof.
  intros Hin Hex Hf. unfold new_matches_of. apply list_elem_of_omap.
  exists token. split; [done|]. by rewrite Hex, Hf.
Qed.

Lemma new_matches_of_nil existing filters tokens :
  Forall (λ token, address_in token existing = true
                   ∨ check_token_match token filters = None) tokens →
  new_matches_of existing filters tokens = [].
Proof.
  induction 1 as [|token tokens [Ht|Ht] _ IH]; [done|..];
    rewrite new_matches_of_cons, IH, Ht; [done|].
  by destruct (address_in token existing).
Qed.

Lemma address_in_addresses_of token tokens a :
  token !! "address" = Some a →
  address_in token (addresses_of tokens) = true ↔ a ∈ address_list tokens.
Proof.
  intros Ha. unfold address_in, addresses_of, address_list. rewrite Ha.
  by rewrite bool_decide_eq_true, elem_of_list_to_set.
Qed.

(** Two successive calls: the second call of [process_new_tokens] on a
    batch whose tokens all have an [address] key finds every matching
    token already recorded and records nothing. *)
Lemma process_new_tokens_twice user_id tokens e s :
  Forall (λ token : Token, is_Some (token !! "address")) tokens →
  let first := process_new_tokens user_id tokens (e, s) in
  let second := process_new_tokens user_id tokens first.2 in
  second.1 = []
  ∧ get_list (user_matched_tokens second.2.2) user_id
    = get_list (user_matched_tokens first.2.2) user_id
  ∧ entry_token <$> get_list (user_match_history second.2.2) user_id
    = entry_token <$> get_list (user_match_history first.2.2) user_id.
Proof.
  intros Hkeys first second.
  destruct (process_new_tokens_spec user_id tokens e s) as (_ & Hf1 & Hm1 & _).
  fold first in Hf1, Hm1.
  destruct first as [new_matches [e1 s1]]. cbn [fst snd] in *.
  destruct (process_new_tokens_spec user_id tokens e1 s1) as (H1 & _ & Hm2 & Hh2).
  fold second in H1, Hm2, Hh2.
  assert (Hnone :
    new_matches_of (addresses_of (get_list (user_matched_tokens s1) user_id))
      (get_list (user_filters s1) user_id) tokens = []).
  { apply new_matches_of_nil, Forall_forall. intros token Hin.
    destruct (proj1 (Forall_forall _ _) Hkeys token Hin) as [a Ha].
    rewrite Hf1.
    destruct (check_token_match token (get_list (user_filters s) user_id))
      as [f|] eqn:Hf; [left|by right].
    apply (address_in_addresses_of _ _ a Ha). rewrite Hm1.
    unfold address_list. rewrite omap_app. apply elem_of_app.
    destruct (address_in token
                (addresses_of (get_list (user_matched_tokens s) user_id))) eqn:Hold.
    - left. by apply (address_in_addresses_of _ _ a Ha).
    - right. apply list_elem_of_omap. exists token. split; [|done].
      apply list_elem_of_fmap. exists (token, f). split; [done|].
      by apply elem_of_new_matches_of. }
  rewrite Hnone in *. cbn in Hm2, Hh2. rewrite app_nil_r in Hm2, Hh2. done.
Qed.

Lemma is_new_globally_fresh token matched a :
  token !! "address" = Some a →
  is_new_globally token matched = true →
  a ∉ address_list matched.
Proof.
  intros Ha Hnew (existing & Hin & He)%list_elem_of_omap.
  unfold is_new_globally in Hnew. apply negb_true_iff in Hnew.
  assert (existsb
            (λ existing_token : Token,
               match existing_token !! "address", token !! "address" with
               | Some a, Some b => bool_decide (a = b)
               | _, _ => false
               end) matched = true) as Habs; [|congruence].
  apply existsb_exists. exists existing. split; [by apply list_elem_of_In|].
  rewrite He, Ha. by apply bool_decide_eq_true.
Qed.

Lemma track_token_no_duplicate user_id acc token :
  NoDup (address_list (get_list (user_matched_tokens acc.2.2) user_id)) →
  NoDup (address_list
           (get_list (user_matched_tokens (track_token user_id acc token).2.2) user_id)).
Proof.
  destruct acc as [[matches seen] [e s]]. cbn [fst snd]. intros Hs.
  unfold track_token.
  destruct (address_in token seen); [done|].
  destruct (check_token_match _ _) as [f|]; [|done]. cbn [fst snd].
  cbn [user_matched_tokens set_matched].
  destruct (is_new_globally _ _) eqn:Hnew.
  - destruct (record_match_spec user_id token f e
                (set_matched s (init_list (user_matched_tokens s) user_id)))
      as (_ & _ & _ & Hm & _).
    rewrite Hm. cbn [user_matched_tokens set_matched]. rewrite get_list_init.
    rewrite decide_True by done.
    unfold address_list. rewrite omap_app. cbn.
    rewrite get_list_init in Hnew.
    destruct (token !! "address") as [a|] eqn:Ha; cbn.
    + apply NoDup_app. split; [done|]. split; [|apply NoDup_singleton].
      intros x Hx ->%list_elem_of_singleton.
      by apply (is_new_globally_fresh token _ _ Ha Hnew).
    + by rewrite app_nil_r.
  - cbn [snd user_matched_tokens set_matched]. by rewrite get_list_init.
Qed.

(** Inside a batch: a turn of the scheduler never records an address a
    second time. *)
Lemma tracking_tick_no_duplicate user_id tokens seen es :
  NoDup (address_list (get_list (user_matched_tokens es.2) user_id)) →
  NoDup (address_list
           (get_list (user_matched_tokens (tracking_tick user_id tokens seen es).2.2)
              user_id)).
Proof.
  intros Hs. unfold tracking_tick.
  apply (foldl_invariant
           (λ acc : list Match * gset string * (Env * Store),
              NoDup (address_list (get_list (user_matched_tokens acc.2.2) user_id)))
           (λ _, True)); [|by apply Forall_true|done].
  intros acc x _. apply track_token_no_duplicate.
Qed.

(** The batch that [process_new_tokens] records twice is recorded once by
    the scheduler. *)
Example tracking_tick_records_batch_once :
  let '(matches, _, (_, s)) :=
    tracking_tick 7 [pump_token; pump_token_again] ∅
      (quiet_env, store_with_filters 7 [pump_filter]) in
  matches = [(pump_token, pump_filter)]
  ∧ get_list (user_matched_tokens s) 7 = [pump_token]
  ∧ entry_token <$> get_list (user_match_history s) 7 = [pump_token].
Proof. vm_compute. repeat split; reflexivity. Qed.

Lemma elem_of_addresses_of a tokens :
  a ∈ addresses_of tokens ↔ ∃ token : Token, token ∈ tokens ∧ token !! "address" = Some a.
Proof.
  unfold addresses_of. rewrite elem_of_list_to_set, list_elem_of_omap. done.
Qed.

Lemma missing_from_empty_history token : missing_from_history ∅ token = true.
Proof.
  unfold missing_from_history, address_in. destruct (token !! "address"); [|done].
  by rewrite bool_decide_eq_false_2 by set_solver.
Qed.

Lemma missing_from_history_represented history token :
  missing_from_history (addresses_of (entry_token <$> history)) token = true
  ↔ ¬ represented history token.
Proof.
  unfold missing_from_history, address_in, represented.
  destruct (token !! "address") as [a|] eqn:Ha.
  - rewrite negb_true_iff, bool_decide_eq_false, elem_of_addresses_of. split.
    + intros Hno (b & entry & [= <-] & Hin & Hentry). apply Hno.
      exists (entry_token entry). split; [|done]. apply list_elem_of_fmap. by exists entry.
    + intros Hno (t & (entry & -> & Hin)%list_elem_of_fmap & Ht). apply Hno.
      by exists a, entry.
  - split; [|done]. by intros _ (a & entry & [=] & _).
Qed.

Lemma to_fold_represented user_id s :
  to_fold user_id s
  = filter (λ token, ¬ represented (get_list (user_match_history s) user_id) token)
           (get_list (user_matched_tokens s) user_id).
Proof.
  unfold to_fold. apply list_filter_iff. intros token.
  rewrite <- missing_from_history_represented. apply Is_true_true.
Qed.

(** C8. [clear_matches_command] empties the global matches of the user
    after it has extended the history, at its end, with one record for
    each matched token that the history did not represent, in the order
    of the matches, and with no record for a matched token that it did
    represent. A token is represented when a record of the history
    carries its address; a token without address key never is. Every
    matched token is therefore in the history afterwards or was
    represented there. With matches [T1; T2] and an empty history the
    history becomes [T1; T2]. The seen sets of the contexts and the tasks
    are untouched. *)
Theorem clear_matches_folds_then_empties (user_id : Z) (e : Env) (s : Store) :
  let s' := (clear_matches_command user_id (e, s)).2 in
  get_list (user_matched_tokens s') user_id = []
  ∧ (∃ folded,
       get_list (user_match_history s') user_id
       = get_list (user_match_history s) user_id ++ folded
       ∧ entry_token <$> folded
         = filter (λ token,
                     ¬ represented (get_list (user_match_history s) user_id) token)
                  (get_list (user_matched_tokens s) user_id))
  ∧ (∀ token, token ∈ get_list (user_matched_tokens s) user_id →
       token ∈ entry_token <$> get_list (user_match_history s') user_id
       ∨ represented (get_list (user_match_history s) user_id) token)
  ∧ (∀ T1 T2, get_list (user_matched_tokens s) user_id = [T1; T2] →
              get_list (user_match_history s) user_id = [] →
              entry_token <$> get_list (user_match_history s') user_id = [T1; T2])
  ∧ contexts s' = contexts s
  ∧ polling_tasks s' = polling_tasks s.
Proof.
  set (folded_tokens := to_fold user_id s).
  assert (Hmain :
    let s' := (clear_matches_command user_id (e, s)).2 in
    get_list (user_matched_tokens s') user_id = []
    ∧ (∃ folded,
         get_list (user_match_history s') user_id
         = get_list (user_match_history s) user_id ++ folded
         ∧ entry_token <$> folded = folded_tokens)
    ∧ contexts s' = contexts s ∧ polling_tasks s' = polling_tasks s).
  { unfold clear_matches_command.
    destruct (negb _ || _) eqn:Hguard; cbn.
    - assert (Hnil : get_list (user_matched_tokens s) user_id = []).
      { apply orb_true_iff in Hguard as [Hg|Hg].
        - apply negb_true_iff, bool_decide_eq_false in Hg.
          unfold get_list. destruct (user_matched_tokens s !! user_id); [|done].
          by destruct Hg.
        - by apply bool_decide_eq_true in Hg. }
      repeat split; [done| |done..].
      exists []. split; [by rewrite app_nil_r|].
      unfold folded_tokens, to_fold. by rewrite Hnil.
    - unfold get_list at 1. rewrite lookup_insert_eq. cbn.
      repeat split; [|done..].
      eexists. split.
      + unfold get_list at 1. rewrite lookup_insert_eq. rewrite get_list_init. done.
      + rewrite <- list_fmap_compose. unfold folded_tokens, to_fold.
        apply list_fmap_id. }
  cbn zeta in *. destruct Hmain as (Hm & (folded & Hh & Hf) & Hc & Hp).
  repeat split; [done|exists folded; by rewrite <- to_fold_represented| | |done|done].
  - intros token Ht. rewrite Hh, fmap_app, Hf.
    destruct (missing_from_history
                (addresses_of (entry_token <$> get_list (user_match_history s) user_id))
                token) eqn:Hmiss.
    + left. apply elem_of_app. right. unfold folded_tokens, to_fold.
      apply list_elem_of_filter. split; [by apply Is_true_true|done].
    + right. unfold missing_from_history, address_in in Hmiss.
      destruct (token !! "address") as [a|] eqn:Ha; [|done].
      apply negb_false_iff, bool_decide_eq_true in Hmiss.
      apply elem_of_addresses_of in Hmiss as (t' & (entry & -> & Hentry)%list_elem_of_fmap & Ht').
      by exists a, entry.
  - intros T1 T2 HT Hhist. rewrite Hh, fmap_app, Hf, Hhist.
    unfold folded_tokens, to_fold. rewrite HT, Hhist. cbn [fmap list_fmap app].
    change (addresses_of []) with (∅ : gset string).
    rewrite !filter_cons_True by (apply Is_true_true, missing_from_empty_history).
    done.
Qed.

(** A matched token whose address a record of the history carries is not
    folded again; the other one is. *)
Example represented_token_is_not_folded_again :
  let s := mkStore ∅ {[ 7 := [pump_token_again; other_token] ]}
                   {[ 7 := [mkEntry pump_token 1 pump_filter] ]} ∅ ∅ in
  address_list
    (entry_token <$> get_list (user_match_history
                                 (clear_matches_command 7 (quiet_env, s)).2) 7)
  = ["A1"; "A2"]
  ∧ length (get_list (user_match_history (clear_matches_command 7 (quiet_env, s)).2) 7)
    = 2%nat.
Proof. vm_compute. split; reflexivity. Qed.

Lemma record_match_filters user_id token f es :
  user_filters (record_match user_id token f es).2 = user_filters es.2.
Proof. by destruct es. Qed.

Lemma track_token_filters user_id acc token :
  user_filters (track_token user_id acc token).2.2 = user_filters acc.2.2.
Proof.
  destruct acc as [[matches seen] [e s]]. unfold track_token.
  destruct (address_in token seen); [done|].
  destruct (check_token_match _ _); [|done]. cbn [fst snd].
  destruct (is_new_globally _ _); [|done]. by rewrite record_match_filters.
Qed.

Lemma track_token_contexts user_id acc token :
  contexts (track_token user_id acc token).2.2 = contexts acc.2.2
  ∧ polling_tasks (track_token user_id acc token).2.2 = polling_tasks acc.2.2.
Proof.
  destruct acc as [[matches seen] [e s]]. unfold track_token.
  destruct (address_in token seen); [done|].
  destruct (check_token_match _ _); [|done]. cbn [fst snd].
  by destruct (is_new_globally _ _).
Qed.

Lemma tracking_tick_frame user_id tokens seen es :
  let r := tracking_tick user_id tokens seen es in
  user_filters r.2.2 = user_filters es.2
  ∧ contexts r.2.2 = contexts es.2
  ∧ polling_tasks r.2.2 = polling_tasks es.2.
Proof.
  unfold tracking_tick.
  apply (foldl_invariant
           (λ acc : list Match * gset string * (Env * Store),
              user_filters acc.2.2 = user_filters es.2
              ∧ contexts acc.2.2 = contexts es.2
              ∧ polling_tasks acc.2.2 = polling_tasks es.2)
           (λ _, True)); [|by apply Forall_true|done].
  intros acc x _ (Hf & Hc & Hp).
  rewrite track_token_filters. destruct (track_token_contexts user_id acc x) as [-> ->].
  done.
Qed.

Lemma track_token_keeps_matches user_id acc token m :
  m ∈ acc.1.1 → m ∈ (track_token user_id acc token).1.1.
Proof.
  destruct acc as [[matches seen] es]. unfold track_token. cbn [fst snd].
  destruct (address_in token seen); [done|].
  destruct (check_token_match _ _); [|done]. cbn [fst snd].
  intros ?. apply elem_of_app. by left.
Qed.

Lemma tracking_tick_keeps_matches user_id tokens :
  ∀ acc m, m ∈ acc.1.1 → m ∈ (foldl (track_token user_id) acc tokens).1.1.
Proof.
  induction tokens as [|x tokens IH]; intros acc m Hm; cbn; [done|].
  by apply IH, track_token_keeps_matches.
Qed.

Lemma track_token_seen user_id acc x token :
  address_in token (track_token user_id acc x).1.2 = true →
  address_in token acc.1.2 = true
  ∨ ∃ f, (x, f) ∈ (track_token user_id acc x).1.1
         ∧ x !! "address" = token !! "address".
Proof.
  destruct acc as [[matches seen] es]. unfold track_token. cbn [fst snd].
  destruct (address_in x seen); [by left|].
  destruct (check_token_match _ _) as [f|]; [|by left]. cbn [fst snd].
  unfold address_in.
  destruct (token !! "address") as [a|] eqn:Ha; [|done].
  destruct (x !! "address") as [b|] eqn:Hb; [|by left].
  intros [->%elem_of_singleton|Hin]%bool_decide_eq_true%elem_of_union.
  - right. exists f. split; [|done]. apply elem_of_app. right. by apply list_elem_of_singleton.
  - left. by apply bool_decide_eq_true.
Qed.

(** A candidate that a filter matches is announced by the turn, or a
    candidate with its address is, unless the address was already seen in
    this context when the turn began. *)
Lemma tracking_tick_announces user_id tokens :
  ∀ acc token f,
    token ∈ tokens →
    check_token_match token (get_list (user_filters acc.2.2) user_id) = Some f →
    address_in token acc.1.2 = true
    ∨ ∃ m, m ∈ (foldl (track_token user_id) acc tokens).1.1
           ∧ m.1 !! "address" = token !! "address".
Proof.
  induction tokens as [|x tokens IH]; intros acc token f Hin Hf.
  { by apply elem_of_nil in Hin. }
  cbn [foldl]. apply elem_of_cons in Hin as [->|Hin].
  - destruct (address_in x acc.1.2) eqn:Hseen; [by left|right].
    exists (x, f). split; [|done].
    apply tracking_tick_keeps_matches.
    destruct acc as [[matches seen] es]. unfold track_token. cbn [fst snd] in *.
    rewrite Hseen, Hf. cbn [fst snd]. apply elem_of_app. right.
    by apply list_elem_of_singleton.
  - destruct (IH (track_token user_id acc x) token f Hin) as [Hseen|Hm].
    + by rewrite track_token_filters.
    + apply track_token_seen in Hseen as [?|(g & Hg & Ha)]; [by left|right].
      exists (x, g). split; [|done]. by apply tracking_tick_keeps_matches.
    + by right.
Qed.

(** ** Sessions *)

Lemma stop_tracking_frame user_id chat_id s :
  let s' := (stop_tracking_command user_id chat_id s).2 in
  user_filters s' = user_filters s
  ∧ user_matched_tokens s' = user_matched_tokens s
  ∧ user_match_history s' = user_match_history s
  ∧ contexts s' = contexts s
  ∧ is_tracking (get_tracking_key user_id chat_id) s' = false.
Proof.
  unfold stop_tracking_command, is_tracking.
  destruct (polling_tasks s !! get_tracking_key user_id chat_id) as [task|] eqn:E.
  - destruct (task_done task) eqn:D; cbn.
    + by rewrite E, D.
    + by rewrite lookup_insert_eq.
  - cbn. by rewrite E.
Qed.

Lemma init_seen_fresh context tracking_key s :
  contexts s !! context = None →
  seen_in_context context tracking_key (init_seen context tracking_key s) = Some ∅.
Proof.
  intros Hc. unfold seen_in_context, init_seen. cbn.
  rewrite lookup_insert_eq, Hc. cbn. rewrite lookup_empty. cbn.
  by rewrite lookup_insert_eq.
Qed.

(** A context object that still carries a set for the key keeps it: the
    preamble creates a set only where there is none. *)
Lemma init_seen_reused context tracking_key s seen :
  seen_in_context context tracking_key s = Some seen →
  seen_in_context context tracking_key (init_seen context tracking_key s) = Some seen.
Proof.
  unfold seen_in_context, init_seen. cbn.
  destruct (contexts s !! context) as [d|] eqn:Hc; [|done]. cbn.
  intros Hd. by rewrite Hd, lookup_insert_eq.
Qed.

(** C5. After [stop_tracking_command] and then [start_tracking_command]
    for the same user and chat, called as every handler is with the
    context object of its own update (one on which no
    [chat_matched_tokens] was set), the new task is registered, its seen
    set is empty, and a turn of its loop announces every candidate a
    filter matches, whatever an earlier session had marked as seen. *)
Theorem restart_begins_with_empty_seen_set (user_id chat_id : Z) (context : nat)
    (s : Store) :
  get_list (user_filters s) user_id ≠ [] →
  contexts s !! context = None →
  let key := get_tracking_key user_id chat_id in
  let r := start_tracking_command user_id chat_id context
             (stop_tracking_command user_id chat_id s).2 in
  r.1 = Started
  ∧ polling_tasks r.2 !! key = Some (mkTask user_id chat_id context false)
  ∧ seen_in_context context key r.2 = Some ∅
  ∧ ∀ e tokens token f,
      token ∈ tokens →
      check_token_match token (get_list (user_filters s) user_id) = Some f →
      ∃ matches es' m,
        task_tick user_id chat_id tokens (e, r.2) = Some (matches, es')
        ∧ m ∈ matches
        ∧ m.1 !! "address" = token !! "address".
Proof.
  intros Hfilters Hfresh key r.
  destruct (stop_tracking_frame user_id chat_id s) as (Hf & _ & _ & Hc & Hstop).
  fold key in Hstop.
  set (s1 := (stop_tracking_command user_id chat_id s).2) in *.
  assert (Hr : r = (Started,
                    init_seen context key
                      (set_tasks s1 (<[key := mkTask user_id chat_id context false]>
                                       (polling_tasks s1))))).
  { unfold r, start_tracking_command. fold key. rewrite Hf, Hstop.
    assert (is_Some (user_filters s !! user_id)) as Hsome.
    { unfold get_list in Hfilters. destruct (user_filters s !! user_id); [eauto|done]. }
    rewrite (bool_decide_eq_true_2 _ Hsome), (bool_decide_eq_false_2 _ Hfilters).
    done. }
  assert (Hseen : seen_in_context context key r.2 = Some ∅).
  { rewrite Hr. apply init_seen_fresh. cbn. by rewrite Hc. }
  assert (Htask : polling_tasks r.2 !! key = Some (mkTask user_id chat_id context false)).
  { rewrite Hr. cbn. by rewrite lookup_insert_eq. }
  assert (Hrf : user_filters r.2 = user_filters s).
  { rewrite Hr. cbn. done. }
  repeat split; [by rewrite Hr|done|done|].
  intros e tokens token f Hin Hmatch.
  unfold task_tick. fold key. cbn [fst snd].
  rewrite Htask. cbn [mbind option_bind task_context]. rewrite Hseen. cbn [mbind option_bind].
  destruct (tracking_tick_announces user_id tokens ([], ∅, (e, r.2)) token f Hin)
    as [Hseen'|(m & Hm & Ha)].
  { cbn [fst snd]. by rewrite Hrf. }
  { unfold address_in in Hseen'. cbn [fst snd] in Hseen'.
    destruct (token !! "address"); [|done].
    apply bool_decide_eq_true in Hseen'. set_solver. }
  fold (tracking_tick user_id tokens ∅ (e, r.2)) in Hm.
  destruct (tracking_tick user_id tokens ∅ (e, r.2)) as [[matches seen'] [e' s']].
  eexists _, _, m. split; [reflexivity|]. done.
Qed.

Lemma restart_begins_with_empty_seen_set_witness :
  seen_in_context 1 (get_tracking_key 7 42)
    (start_tracking_command 7 42 1
       (stop_tracking_command 7 42 store_after_first_session).2).2 = Some ∅.
Proof.
  refine (proj1 (proj2 (proj2
            (restart_begins_with_empty_seen_set 7 42 1 store_after_first_session _ _)))).
  - vm_compute. discriminate.
  - vm_compute. reflexivity.
Defined.

(** The scenario in full. The first session announces [pump_token] and
    marks its address; after a stop, a session started on a new context
    object announces it again although the global matches hold it once;
    a session started on the context object of the first one keeps the
    old set and stays silent. *)
Example restart_scenario :
  (fst <$> first_session) = Some [(pump_token, pump_filter)]
  ∧ seen_in_context 0 (get_tracking_key 7 42) store_after_first_session = Some {["A1"]}
  ∧ (let s := (start_tracking_command 7 42 1
                 (stop_tracking_command 7 42 store_after_first_session).2).2 in
     match task_tick 7 42 [pump_token; other_token] (quiet_env, s) with
     | Some (matches, (_, s')) =>
         matches = [(pump_token, pump_filter)]
         ∧ get_list (user_matched_tokens s') 7 = [pump_token]
     | None => False
     end)
  ∧ (let s := (start_tracking_command 7 42 0
                 (stop_tracking_command 7 42 store_after_first_session).2).2 in
     match task_tick 7 42 [pump_token; other_token] (quiet_env, s) with
     | Some (matches, _) => matches = []
     | None => False
     end).
Proof. vm_compute. repeat split; reflexivity. Qed.

(** ** The retry loop *)

Lemma jitter_bounds (x : Q) :
  (0 <= x)%Q → (x < 1)%Q →
  (-(1 # 2) <= 1 * ((1 # 2) - x))%Q ∧ (1 * ((1 # 2) - x) <= 1 # 2)%Q.
Proof. intros. split; lra. Qed.

Lemma count_attempts_cons ev events :
  count_attempts (ev :: events)
  = ((if is_attempt ev then 1 else 0) + count_attempts events)%nat.
Proof.
  unfold count_attempts. destruct ev.
  - by rewrite filter_cons_True by done.
  - by rewrite filter_cons_False by done.
Qed.

Lemma backoff_spec (max_retries attempt : nat) (e : Env) :
  (∀ n, (0 <= random e n)%Q ∧ (random e n < 1)%Q) →
  random (backoff max_retries attempt e) = random e
  ∧ ∃ pause,
      trace (backoff max_retries attempt e) = trace e ++ pause
      ∧ (if (attempt <? max_retries - 1)%nat
         then ∃ d, pause = [Sleep d] ∧ backoff_delay attempt d ∧ (d <= 20)%Q
         else pause = []).
Proof.
  intros Hrand. unfold backoff.
  destruct (attempt <? max_retries - 1)%nat; cbn.
  - split; [done|]. eexists. split; [done|]. eexists. split; [done|].
    destruct (Hrand (random_calls e)) as [H0 H1].
    destruct (jitter_bounds _ H0 H1) as [Hlo Hhi].
    split; [|apply Q.le_min_r].
    eexists. repeat split; [exact Hlo|exact Hhi].
  - split; [done|]. exists []. by rewrite app_nil_r.
Qed.

Lemma retry_loop_paced (max_retries : nat) (url : string) :
  ∀ remaining attempt e,
    (∀ n, (0 <= random e n)%Q ∧ (random e n < 1)%Q) →
    (attempt + S remaining = max_retries)%nat →
    ∃ new,
      trace (retry_loop max_retries (S remaining) attempt url e).2 = trace e ++ new
      ∧ well_paced attempt new
      ∧ (count_attempts new ≤ S remaining)%nat
      ∧ Forall (sleep_at_most 20) new.
Proof.
  induction remaining as [|remaining IH]; intros attempt e Hrand Hsum.
  - cbn [retry_loop]. unfold http_get.
    destruct (http e (http_calls e) url); cbn [fst snd trace].
    + exists [Attempt attempt]. repeat split; [done|repeat constructor].
    + match goal with
      | |- context [backoff _ _ ?e1] =>
          destruct (backoff_spec max_retries attempt e1 Hrand) as (_ & pause & -> & Hp)
      end.
      assert ((attempt <? max_retries - 1)%nat = false) as Hlast
        by (apply Nat.ltb_ge; lia).
      rewrite Hlast in Hp. subst pause. cbn [trace]. rewrite app_nil_r.
      exists [Attempt attempt]. repeat split; [done|repeat constructor].
  - change (retry_loop max_retries (S (S remaining)) attempt url e)
      with (let '(r, e1) := http_get attempt url e in
            match r with
            | HttpOk payload => (payload, e1)
            | HttpError =>
                retry_loop max_retries (S remaining) (S attempt) url
                  (backoff max_retries attempt e1)
            end).
    unfold http_get.
    destruct (http e (http_calls e) url); cbn [fst snd trace].
    + exists [Attempt attempt]. repeat split; [|repeat constructor].
      rewrite count_attempts_cons. cbn. lia.
    + match goal with
      | |- context [backoff _ _ ?e1] =>
          destruct (backoff_spec max_retries attempt e1 Hrand)
            as (Hrand' & pause & Htrace & Hp);
          destruct (IH (S attempt) (backoff max_retries attempt e1))
            as (new & Hnew & Hpaced & Hcount & Hsleep)
      end.
      { intros n. rewrite Hrand'. apply Hrand. }
      { lia. }
      assert ((attempt <? max_retries - 1)%nat = true) as Hmore
        by (apply Nat.ltb_lt; lia).
      rewrite Hmore in Hp. destruct Hp as (d & -> & Hd & Hle).
      rewrite Hnew, Htrace. cbn [trace].
      exists (Attempt attempt :: Sleep d :: new).
      split; [by rewrite <- !app_assoc|].
      repeat split; [done|done| |].
      * rewrite !count_attempts_cons. cbn. lia.
      * by repeat constructor.
Qed.

(** C9. A call of [fetch_with_retry] with the three attempts every
    caller leaves it appends to the trace a run that is well paced from
    attempt 0: at most three requests, a pause only between two
    consecutive requests, each pause the capped sum
    [min(2 ** attempt * 2 + jitter, 20)] with a jitter within half a
    second, and so never more than twenty seconds. Delays are rationals. *)
Theorem fetch_with_retry_backoff (url : string) (e : Env) :
  (∀ n, (0 <= random e n)%Q ∧ (random e n < 1)%Q) →
  ∃ new,
    trace (fetch_with_retry url 3 e).2 = trace e ++ new
    ∧ well_paced 0 new
    ∧ (count_attempts new ≤ 3)%nat
    ∧ Forall (sleep_at_most 20) new.
Proof. intros Hrand. by apply (retry_loop_paced 3 url 2 0%nat e). Qed.

Lemma fetch_with_retry_backoff_witness :
  ∃ new,
    trace (fetch_with_retry "https://data.solanatracker.io/tokens/latest?limit=50" 3
             failing_env).2 = trace failing_env ++ new
    ∧ well_paced 0 new
    ∧ (count_attempts new ≤ 3)%nat
    ∧ Forall (sleep_at_most 20) new.
Proof.
  apply (fetch_with_retry_backoff _ failing_env).
  intros n. cbn. split; [discriminate|reflexivity].
Defined.

(** With the endpoint down the run is three requests and two pauses, of
    2.25 and 4.25 seconds for a draw of 0.25. *)
Example three_attempts_two_sleeps :
  let '(payload, e) :=
    fetch_with_retry "https://data.solanatracker.io/tokens/latest?limit=50" 3
      failing_env in
  payload = JNull
  ∧ trace e = [Attempt 0; Sleep (Qmin (2 + 1 * ((1 # 2) - (1 # 4))) 20);
               Attempt 1; Sleep (Qmin (4 + 1 * ((1 # 2) - (1 # 4))) 20);
               Attempt 2]
  ∧ http_calls e = 3%nat.
Proof. cbn. repeat split. Qed.

(** ** The primary feed *)

Lemma cache_or_mock_result remember now ef :
  (cache_or_mock remember now ef).1 = default MOCK_TOKENS (live_cache ef).
Proof.
  unfold cache_or_mock, live_cache.
  destruct (get_cached_data "latest-tokens" ef) as [cached_data e] eqn:E. cbn [fst].
  destruct (some_tokens cached_data) eqn:Hc.
  - destruct cached_data as [[|]|]; done.
  - destruct remember; [|done]. by destruct (cache_data _ _ _ _).
Qed.

Lemma process_payload_zero_valid now payload ef :
  zero_valid payload → process_payload now payload ef = (MOCK_TOKENS, ef).
Proof.
  intros (items & Hitems & Hnone). unfold process_payload.
  destruct payload; try done; by rewrite Hitems, Hnone.
Qed.

(** Every token the primary client builds carries a truthy address. *)
Lemma process_item_has_address item token :
  process_item item = Some token →
  ∃ a, token !! "address" = Some a ∧ json_truthy a = true.
Proof.
  unfold process_item. destruct (negb _); [done|].
  destruct item; try done.
  destruct (first_pool _) as [pool_data|]; [|done]. cbn.
  match goal with
  | |- context [json_truthy ?a] => destruct (json_truthy a) eqn:Ha; [|done]
  end.
  intros [= <-]. eexists. split; [|exact Ha]. done.
Qed.

(** C3, as amended. A forced fetch of the primary feed, which is what
    every turn of the scheduler and every manual refresh issues, answers
    the two failure modes differently. When the retries are exhausted the
    result is the live cache entry if there is one with tokens, and the
    mock tokens otherwise. When the payload yields no valid token the
    result is the mock tokens, whatever the cache holds. *)
Theorem primary_feed_fallback (mode : failure_mode) (e : Env) (f : Feeds) :
  let now := (now_ms e).1 in
  let fetched := fetch_with_retry (latest_tokens_url true now) 3 (now_ms e).2 in
  failed_as mode fetched.1 →
  (fetch_latest_tokens true (e, f)).1
  = match mode with
    | RetriesExhausted => default MOCK_TOKENS (live_cache (fetched.2, f))
    | NoValidTokens => MOCK_TOKENS
    end.
Proof.
  intros now fetched Hmode.
  assert (Hrun : fetch_latest_tokens true (e, f)
                 = process_payload now fetched.1 (fetched.2, f)).
  { unfold fetch_latest_tokens, fetched, now.
    cbn -[fetch_with_retry process_payload latest_tokens_url].
    match goal with
    | |- context [fetch_with_retry ?u ?m ?e1] => generalize (fetch_with_retry u m e1)
    end.
    by intros [payload e1]. }
  rewrite Hrun. destruct mode; unfold failed_as in Hmode.
  - rewrite Hmode. apply cache_or_mock_result.
  - by rewrite (process_payload_zero_valid _ _ _ Hmode).
Qed.

Lemma primary_feed_fallback_witness :
  (fetch_latest_tokens true (failing_env, feeds_with_cache)).1 = [cached_token].
Proof.
  refine (eq_trans (primary_feed_fallback RetriesExhausted failing_env feeds_with_cache _) _).
  - vm_compute. reflexivity.
  - vm_compute. reflexivity.
Defined.

(** C3, counterexample. With a live cache entry that holds a token, a
    payload that yields no token is answered with the mock tokens, not
    with the cache entry. *)
Lemma empty_payload_skips_cache :
  let fetched :=
    fetch_with_retry (latest_tokens_url true (now_ms empty_payload_env).1) 3
      (now_ms empty_payload_env).2 in
  zero_valid fetched.1
  ∧ live_cache (fetched.2, feeds_with_cache) = Some [cached_token]
  ∧ (fetch_latest_tokens true (empty_payload_env, feeds_with_cache)).1 = MOCK_TOKENS
  ∧ MOCK_TOKENS ≠ [cached_token].
Proof.
  split; [|split; [|split]].
  - exists []. split; vm_compute; reflexivity.
  - vm_compute. reflexivity.
  - vm_compute. reflexivity.
  - intros H. apply (f_equal length) in H. discriminate H.
Qed.

(** ** The Believe feed *)

Lemma believe_cache_key_inj t1 t2 : believe_cache_key t1 = believe_cache_key t2 → t1 = t2.
Proof.
  unfold believe_cache_key. intros H%(inj (String.app "believe-")).
  by apply (inj pretty).
Qed.

(** A fetch that goes to the endpoint and gets a list of entries stores
    the tokens in the slot of its threshold and sets the one timestamp. *)
Lemma fetch_believe_tokens_live t force e f item items processed :
  force = true ∨ believe_token_cache f !! believe_cache_key t = None
              ∨ 4000 <= wall_clock e (clock_reads e) - last_believe_fetch_time f →
  http e (http_calls e) (believe_url t) = HttpOk (JList (item :: items)) →
  mapM believe_token (item :: items) = Some processed →
  ∃ e1,
    fetch_believe_tokens t force (e, f)
    = (processed,
       (e1, mkFeeds (token_cache f) (last_fetch_time f) (cached_response f)
              (<[believe_cache_key t := processed]> (believe_token_cache f))
              (wall_clock e (clock_reads e))))
    ∧ wall_clock e1 = wall_clock e
    ∧ clock_reads e1 = S (clock_reads e)
    ∧ http_calls e1 = S (http_calls e).
Proof.
  intros Hlive Hresp Hproc. unfold fetch_believe_tokens.
  cbn -[mapM believe_url believe_cache_key].
  assert (Hgo :
    match negb force
          && (wall_clock e (clock_reads e) - last_believe_fetch_time f <? 4000),
          believe_token_cache f !! believe_cache_key t with
    | true, Some _ => False
    | _, _ => True
    end).
  { destruct Hlive as [->|[->|Hlate]]; [done|by destruct (_ && _)|].
    assert ((wall_clock e (clock_reads e) - last_believe_fetch_time f <? 4000) = false)
      as -> by (apply Z.ltb_ge; lia).
    by rewrite andb_false_r. }
  destruct (negb force && _), (believe_token_cache f !! believe_cache_key t);
    try done; rewrite Hresp, Hproc; eexists; (split; [reflexivity|done]).
Qed.

(** C4, as amended. The Believe client keeps one cache slot per
    threshold and one timestamp for all of them. After a live fetch for
    the threshold [t1], the timestamp is the time of that fetch and the
    slots of the other thresholds are as before; a non-forced fetch for
    [t2] that follows within four seconds is answered from the slot of
    [t2] without a request when that slot is filled, also when [t2]
    differs from [t1], and makes its request only when [t2] has no slot. *)
Theorem believe_rate_limit_is_shared (t1 t2 : Z) (e : Env) (f : Feeds)
    (item : json) (items : list json) (processed : list FeedToken) :
  http e (http_calls e) (believe_url t1) = HttpOk (JList (item :: items)) →
  mapM believe_token (item :: items) = Some processed →
  wall_clock e (S (clock_reads e)) - wall_clock e (clock_reads e) < 4000 →
  let first := fetch_believe_tokens t1 true (e, f) in
  let second := fetch_believe_tokens t2 false first.2 in
  last_believe_fetch_time first.2.2 = wall_clock e (clock_reads e)
  ∧ (t1 ≠ t2 →
     believe_token_cache first.2.2 !! believe_cache_key t2
     = believe_token_cache f !! believe_cache_key t2)
  ∧ match believe_token_cache first.2.2 !! believe_cache_key t2 with
    | Some cached =>
        second.1 = cached
        ∧ second.2.2 = first.2.2
        ∧ http_calls second.2.1 = http_calls first.2.1
    | None => http_calls second.2.1 = S (http_calls first.2.1)
    end.
Proof.
  intros Hresp Hproc Hsoon first second.
  destruct (fetch_believe_tokens_live t1 true e f item items processed)
    as (e1 & Hfirst & Hclock & Hreads & Hcalls); [by left|done|done|].
  subst second. unfold first. rewrite Hfirst. cbn [fst snd last_believe_fetch_time
    believe_token_cache].
  split; [done|]. split.
  { intros Hne. rewrite lookup_insert_ne; [done|]. by intros ?%believe_cache_key_inj. }
  unfold fetch_believe_tokens at 1 2 3. cbn -[mapM believe_url believe_cache_key].
  rewrite Hclock, Hreads.
  assert ((wall_clock e (S (clock_reads e)) - wall_clock e (clock_reads e) <? 4000) = true)
    as -> by (apply Z.ltb_lt; lia).
  destruct (<[believe_cache_key t1:=processed]> (believe_token_cache f)
              !! believe_cache_key t2) as [cached|]; [done|].
  destruct (http e1 (http_calls e1) (believe_url t2)) as [[| | | |[|i l]|]|]; try done.
  by destruct (mapM believe_token (i :: l)).
Qed.

Lemma believe_rate_limit_is_shared_witness :
  (fetch_believe_tokens 0 false
     (fetch_believe_tokens 100 true (believe_env, feeds_with_believe_slot)).2).1
  = [old_believe_token].
Proof.
  pose proof (believe_rate_limit_is_shared 100 0 believe_env feeds_with_believe_slot
                believe_entry [] _ eq_refl eq_refl eq_refl) as (_ & _ & H).
  vm_compute in H. destruct H as (H & _). vm_compute. exact H.
Defined.

(** C4, counterexample. The slot of threshold 0 was filled long ago; a
    fetch for threshold 0 alone goes to the endpoint, but issued one
    millisecond after a live fetch for threshold 100 it is answered from
    the old slot and no request is made. *)
Lemma fetch_suppressed_by_other_threshold :
  let alone := fetch_believe_tokens 0 false (believe_env, feeds_with_believe_slot) in
  let first := fetch_believe_tokens 100 true (believe_env, feeds_with_believe_slot) in
  let second := fetch_believe_tokens 0 false first.2 in
  http_calls alone.2.1 = 1%nat
  ∧ alone.1 ≠ [old_believe_token]
  ∧ http_calls first.2.1 = 1%nat
  ∧ second.1 = [old_believe_token]
  ∧ http_calls second.2.1 = 1%nat.
Proof.
  split; [|split; [|split; [|split]]]; try (vm_compute; reflexivity).
  vm_compute. intros H. discriminate H.
Qed.

(** * Further properties of the code *)

Lemma digit_value_pretty_N_char x :
  (x < 10)%N → Text.digit_value (pretty_N_char x) = Some (Z.of_N x).
Proof.
  intros Hx.
  assert (x = 0 ∨ x = 1 ∨ x = 2 ∨ x = 3 ∨ x = 4 ∨ x = 5 ∨ x = 6
          ∨ x = 7 ∨ x = 8 ∨ x = 9)%N as H by lia.
  by repeat (destruct H as [->|H]; [done|]); subst.
Qed.

Lemma pretty_N_go_digits x :
  ∀ s, all_digits s = true → all_digits (pretty_N_go x s) = true.
Proof.
  induction (N.lt_wf_0 x) as [x _ IH]; intros s Hs.
  assert (x = 0 ∨ 0 < x)%N as [->|Hx] by lia; [by rewrite pretty_N_go_0|].
  rewrite pretty_N_go_step by done. apply IH; [by apply N.div_lt|].
  cbn. rewrite Hs, andb_true_r. apply bool_decide_eq_true.
  rewrite digit_value_pretty_N_char; [done|]. by apply N.mod_lt.
Qed.

Lemma decimal_step (x : N) :
  Z.of_N x = 10 * Z.of_N (x `div` 10) + Z.of_N (x `mod` 10).
Proof.
  rewrite <- (N2Z.inj_mul 10), <- N2Z.inj_add. f_equal. by apply N.div_mod.
Qed.

Lemma int_digits_pretty_N_go x :
  (0 < x)%N →
  ∀ s after, Text.int_digits 0 after (pretty_N_go x s)
             = Text.int_digits (Z.of_N x) true s.
Proof.
  induction (N.lt_wf_0 x) as [x _ IH]; intros Hx s after.
  rewrite pretty_N_go_step by done.
  assert (Hc : Text.digit_value (pretty_N_char (x `mod` 10)) = Some (Z.of_N (x `mod` 10)))
    by (apply digit_value_pretty_N_char; by apply N.mod_lt).
  destruct (N.eq_0_gt_0_cases (x `div` 10)) as [Hz|Hpos].
  - rewrite Hz, pretty_N_go_0. cbn [Text.int_digits]. rewrite Hc.
    f_equal. rewrite (decimal_step x), Hz. lia.
  - rewrite IH; [|by apply N.div_lt|done]. cbn [Text.int_digits]. rewrite Hc.
    f_equal. by rewrite (decimal_step x).
Qed.

Lemma all_digits_head c r : all_digits (String c r) = true → 
  Text.is_int_space c = false ∧ c ≠ "+"%char ∧ c ≠ "-"%char.
Proof.
  cbn. intros [Hc _]%andb_true_iff. apply bool_decide_eq_true in Hc.
  destruct c as [[] [] [] [] [] [] [] []]; by destruct Hc.
Qed.

Lemma rstrip_digits s :
  all_digits s = true → Text.rstrip_by Text.is_int_space s = s.
Proof.
  induction s as [|c r IH]; [done|]. intros Hs.
  destruct (all_digits_head _ _ Hs) as (Hsp & _).
  cbn in Hs. apply andb_true_iff in Hs as [_ Hr].
  cbn. rewrite (IH Hr). destruct r; [by rewrite Hsp|done].
Qed.

Lemma strip_digits s :
  all_digits s = true →
  Text.lstrip_by Text.is_int_space (Text.rstrip_by Text.is_int_space s) = s.
Proof.
  intros Hs. rewrite (rstrip_digits _ Hs).
  destruct s as [|c r]; [done|].
  destruct (all_digits_head _ _ Hs) as (Hsp & _). cbn. by rewrite Hsp.
Qed.

Lemma py_int_digits s :
  all_digits s = true → Text.py_int s = Text.int_digits 0 false s.
Proof.
  intros Hs. unfold Text.py_int. rewrite (strip_digits _ Hs).
  destruct s as [|c r]; [done|].
  destruct (all_digits_head _ _ Hs) as (_ & Hplus & Hminus).
  destruct c as [[] [] [] [] [] [] [] []]; done.
Qed.

Lemma pretty_N_digits (x : N) :
  all_digits (pretty x) = true ∧ Text.int_digits 0 false (pretty x) = Some (Z.of_N x).
Proof.
  unfold pretty, pretty_N. case_decide as Hx; [by subst|].
  split; [by apply pretty_N_go_digits|].
  rewrite int_digits_pretty_N_go by lia. done.
Qed.

(** [int(str(n)) == n] *)
Lemma py_int_pretty (n : Z) : Text.py_int (pretty n) = Some n.
Proof.
  destruct n as [|p|p]; [done|..]; unfold pretty, pretty_Z.
  - destruct (pretty_N_digits (Npos p)) as [Hd Hv].
    change (pretty p) with (pretty (Npos p)). by rewrite py_int_digits.
  - destruct (pretty_N_digits (Npos p)) as [Hd Hv].
    change (pretty p) with (pretty (Npos p)).
    unfold Text.py_int.
    assert (Text.lstrip_by Text.is_int_space
              (Text.rstrip_by Text.is_int_space ("-" +:+ pretty (N.pos p)))
            = "-" +:+ pretty (N.pos p)) as ->.
    { change ("-" +:+ ?s) with (String "-" s).
      cbn [Text.rstrip_by]. rewrite (rstrip_digits _ Hd).
      destruct (pretty (N.pos p)); done. }
    change ("-" +:+ ?s) with (String "-" s). cbn. by rewrite Hv.
Qed.

Lemma all_digits_no_colon s : all_digits s = true → no_colon s = true.
Proof.
  induction s as [|c r IH]; [done|]. cbn.
  intros [Hc Hr]%andb_true_iff. rewrite (IH Hr), andb_true_r.
  apply bool_decide_eq_true in Hc.
  destruct c as [[] [] [] [] [] [] [] []]; by destruct Hc.
Qed.

Lemma pretty_Z_no_colon (n : Z) : no_colon (pretty n) = true.
Proof.
  destruct n as [|p|p]; [done|..]; unfold pretty, pretty_Z;
    change (pretty p) with (pretty (Npos p));
    destruct (pretty_N_digits (Npos p)) as [Hd _].
  - by apply all_digits_no_colon.
  - change ("-" +:+ ?s) with (String "-" s). cbn. by apply all_digits_no_colon.
Qed.

Lemma app_colon_inj s1 s2 t1 t2 :
  no_colon s1 = true → no_colon s2 = true →
  s1 +:+ ":" +:+ t1 = s2 +:+ ":" +:+ t2 → s1 = s2 ∧ t1 = t2.
Proof.
  revert s2. induction s1 as [|a s1 IH]; intros [|b s2] H1 H2 Heq.
  - by injection Heq.
  - injection Heq as <- _. by cbn in H2.
  - injection Heq as -> _. by cbn in H1.
  - injection Heq as -> Heq. cbn in H1, H2.
    apply andb_true_iff in H1 as [_ H1]. apply andb_true_iff in H2 as [_ H2].
    destruct (IH s2 H1 H2 Heq) as [-> ->]. done.
Qed.

(** Two sessions share a tracking key only if they are the session of
    one user in one chat. *)
Theorem get_tracking_key_inj (user1 chat1 user2 chat2 : Z) :
  get_tracking_key user1 chat1 = get_tracking_key user2 chat2 →
  user1 = user2 ∧ chat1 = chat2.
Proof.
  unfold get_tracking_key. intros H.
  apply app_colon_inj in H as [Hu Hc]; [|apply pretty_Z_no_colon..].
  split; by apply (inj pretty).
Qed.

(** ** Filter equality as an equivalence *)

Lemma are_filters_equal_refl f : are_filters_equal f f = true.
Proof.
  unfold are_filters_equal. rewrite (bool_decide_eq_true_2 _ eq_refl). cbn.
  repeat case_bool_decide; try done;
    destruct (Text.py_int (value f)); repeat case_bool_decide; done.
Qed.

Lemma are_filters_equal_same_type f1 f2 :
  are_filters_equal f1 f2 = true → filter_type f1 = filter_type f2.
Proof.
  unfold are_filters_equal. case_bool_decide; [done|]. by cbn.
Qed.

(** X1. [are_filters_equal] is transitive: with its symmetry and
    reflexivity it is an equivalence on filters, so the duplicate check
    of the handlers does not depend on which of two equal filters was
    stored first. *)
Theorem are_filters_equal_trans (f1 f2 f3 : WatchlistFilter) :
  are_filters_equal f1 f2 = true →
  are_filters_equal f2 f3 = true →
  are_filters_equal f1 f3 = true.
Proof.
  intros H12 H23.
  pose proof (are_filters_equal_same_type _ _ H12) as E12.
  pose proof (are_filters_equal_same_type _ _ H23) as E23.
  unfold are_filters_equal in *. rewrite <- E23, <- E12 in *.
  rewrite (bool_decide_eq_true_2 _ eq_refl) in *. cbn [negb] in *.
  repeat case_bool_decide; try congruence;
  destruct (Text.py_int (value f1)) as [n1|] eqn:P1,
           (Text.py_int (value f2)) as [n2|] eqn:P2,
           (Text.py_int (value f3)) as [n3|] eqn:P3;
    repeat case_bool_decide; congruence.
Qed.

Section WebsiteFacts.
Import Text Regex.
#[local] Arguments strip_prefix !_ !_ /.

Lemma lower_app p q : lower (p +:+ q) = lower p +:+ lower q.
Proof. induction p as [|a p IH]; [done|]. rewrite !append_cons. cbn. by rewrite IH. Qed.

Lemma lower_slashes n : lower (slashes n) = slashes n.
Proof. induction n as [|n IH]; [done|]. cbn. by rewrite IH. Qed.

Lemma strip_prefix_slashes q x n :
  no_slash q = true → strip_prefix q x = None → strip_prefix q (x +:+ slashes n) = None.
Proof.
  revert x. induction q as [|a q IH]; intros x Hq Hx; [done|].
  cbn in Hq. apply andb_true_iff in Hq as [Ha Hq].
  destruct x as [|b x].
  - change ("" +:+ slashes n) with (slashes n).
    destruct n as [|n]; [done|]. cbn -[Ascii.eqb].
    by destruct (Ascii.eqb a "/").
  - rewrite append_cons. cbn -[Ascii.eqb] in *.
    destruct (Ascii.eqb a b); [by apply IH|done].
Qed.

Lemma rstrip_slashes y n :
  rstrip_by (λ c, Ascii.eqb c "/") (y +:+ slashes n) = rstrip_by (λ c, Ascii.eqb c "/") y.
Proof.
  induction y as [|c y IH].
  - change ("" +:+ slashes n) with (slashes n).
    induction n as [|n IHn]; [done|]. cbn in *. by rewrite IHn.
  - rewrite append_cons. cbn -[Ascii.eqb]. by rewrite IH.
Qed.

Lemma strip_prefix_empty x : strip_prefix "" x = Some x.
Proof. by destruct x. Qed.

Lemma strip_scheme_www_plain p x :
  p ∈ site_prefixes →
  strip_prefix "http" x = None → strip_prefix "www." x = None →
  strip_scheme_www (p +:+ x) = x.
Proof.
  intros Hp Hh Hw. unfold site_prefixes in Hp.
  repeat (apply elem_of_cons in Hp as [->|Hp]); [..|by apply elem_of_nil in Hp];
    unfold strip_scheme_www, scheme, www; cbv [String.append];
    cbn; rewrite ?strip_prefix_empty, ?Hh, ?Hw; cbn; rewrite ?Hh, ?Hw; done.
Qed.
End WebsiteFacts.

Section WebsiteTheorem.
Import Text Regex.

Lemma plain_site_inv d :
  plain_site d = true →
  truthy d = true
  ∧ strip_prefix "http" (lower d) = None ∧ strip_prefix "www." (lower d) = None.
Proof.
  unfold plain_site, startswith.
  intros [[Ht Hh]%andb_true_iff Hw]%andb_true_iff.
  destruct (strip_prefix "http" (lower d)), (strip_prefix "www." (lower d)); done.
Qed.

Lemma normalize_url_plain d :
  plain_site d = true →
  normalize_url d = rstrip_by (λ c, Ascii.eqb c "/") (lower d).
Proof.
  intros (Ht & Hh & Hw)%plain_site_inv. unfold normalize_url. rewrite Ht. cbn [negb].
  by rewrite <- (strip_scheme_www_plain "" (lower d)) at 2 by (done || set_solver).
Qed.

Lemma normalize_url_decorated d p n :
  plain_site d = true → p ∈ site_prefixes →
  normalize_url (p +:+ d +:+ slashes n) = normalize_url d.
Proof.
  intros Hd Hp. rewrite (normalize_url_plain d Hd).
  destruct (plain_site_inv d Hd) as (Ht & Hh & Hw).
  unfold normalize_url.
  assert (truthy (p +:+ d +:+ slashes n) = true) as ->.
  { destruct p; [|done]. by destruct d. }
  cbn [negb]. rewrite !lower_app, lower_slashes.
  assert (lower p = p) as ->.
  { unfold site_prefixes in Hp.
    repeat (apply elem_of_cons in Hp as [->|Hp]); [done..|by apply elem_of_nil in Hp]. }
  rewrite strip_scheme_www_plain; [apply rstrip_slashes|done|..];
    by apply strip_prefix_slashes.
Qed.
End WebsiteTheorem.

Lemma plain_site_lower d1 d2 :
  Text.lower d1 = Text.lower d2 → plain_site d1 = plain_site d2.
Proof.
  intros H. unfold plain_site. rewrite <- (truthy_lower d1), <- (truthy_lower d2).
  by rewrite H.
Qed.

Lemma normalize_url_lower d1 d2 :
  Text.lower d1 = Text.lower d2 → normalize_url d1 = normalize_url d2.
Proof.
  intros H. unfold normalize_url.
  rewrite <- (truthy_lower d1), <- (truthy_lower d2). by rewrite H.
Qed.

Lemma lower_eq_ascii d1 d2 :
  is_ascii d1 = true → Text.lower d1 = Text.lower d2 → is_ascii d2 = true.
Proof. intros H1 Hl. by rewrite <- is_ascii_lower, <- Hl, is_ascii_lower. Qed.

(** X2. Two website filters are equal when their values write the same
    site in ASCII, whatever the letter case of the site, the scheme and
    [www.] prefix in front of it and the number of slashes behind it.
    Both values are then ASCII text ([lower_eq_ascii]), on which
    [str.lower] is the lower-casing of the model. *)
Theorem website_filters_equal_up_to_decoration
    (d1 d2 p1 p2 id1 id2 : string) (n1 n2 : nat) :
  is_ascii d1 = true →
  plain_site d1 = true →
  Text.lower d1 = Text.lower d2 →
  p1 ∈ site_prefixes → p2 ∈ site_prefixes →
  are_filters_equal (mkFilter id1 "website" (p1 +:+ d1 +:+ slashes n1))
                    (mkFilter id2 "website" (p2 +:+ d2 +:+ slashes n2)) = true.
Proof.
  intros _ Hd Hl H1 H2. unfold are_filters_equal. cbn [filter_type value].
  assert (plain_site d2 = true) as Hd2 by by rewrite <- (plain_site_lower d1 d2).
  rewrite !normalize_url_decorated by done.
  rewrite (normalize_url_lower d1 d2 Hl).
  by rewrite (bool_decide_eq_true_2 (normalize_url d2 = normalize_url d2)).
Qed.

Lemma website_filters_equal_up_to_decoration_witness :
  are_filters_equal (mkFilter "1" "website" "https://www.Example.com/a//")
                    (mkFilter "2" "website" "example.COM/a") = true.
Proof.
  apply (website_filters_equal_up_to_decoration
           "Example.com/a" "example.COM/a" "https://www." "" "1" "2" 2 0);
    [reflexivity|reflexivity|reflexivity|..];
    apply (bool_decide_unpack _); vm_compute; exact I.
Defined.

Lemma are_filters_equal_trans_witness :
  are_filters_equal (mkFilter "1" "believe" "7") (mkFilter "3" "believe" "+7") = true.
Proof.
  apply (are_filters_equal_trans _ (mkFilter "2" "believe" " 007 ")); reflexivity.
Defined.

(** ** The matcher and letter case *)

Lemma lower_ascii_idemp c : Text.lower_ascii (Text.lower_ascii c) = Text.lower_ascii c.
Proof. by destruct c as [[] [] [] [] [] [] [] []]. Qed.

Lemma lower_idemp s : Text.lower (Text.lower s) = Text.lower s.
Proof. induction s as [|c s IH]; [done|]. cbn. by rewrite lower_ascii_idemp, IH. Qed.

Lemma normalize_twitter_handle_lower v :
  normalize_twitter_handle (Text.lower v) = normalize_twitter_handle v.
Proof.
  unfold normalize_twitter_handle. by rewrite truthy_lower, lower_idemp.
Qed.

Lemma field_lower (token : Token) key :
  field (Text.lower <$> token) key = Text.lower (field token key).
Proof. unfold field. rewrite lookup_fmap. by destruct (token !! key). Qed.

Lemma filter_matches_lower (token : Token) (f : WatchlistFilter) :
  filter_type f ≠ "believe" →
  filter_matches (Text.lower <$> token) f = filter_matches token f.
Proof.
  intros Hf. unfold filter_matches.
  rewrite (bool_decide_eq_false_2 _ Hf).
  by rewrite !field_lower, !normalize_twitter_handle_lower, !lower_idemp.
Qed.

(** X3. The matcher does not see the letter case of a token: for filters
    of the kinds other than [believe], a token and the token with every
    field in lower case are matched by the same filter. *)
Theorem check_token_match_ignores_case (token : Token) (filters : list WatchlistFilter) :
  Forall (λ f, filter_type f ≠ "believe") filters →
  check_token_match (Text.lower <$> token) filters = check_token_match token filters.
Proof.
  intros Hf. unfold check_token_match.
  assert (bool_decide (Text.lower <$> token = ∅) = bool_decide (token = ∅)) as ->.
  { apply bool_decide_ext. apply fmap_empty_iff. }
  destruct (bool_decide (token = ∅) || bool_decide (filters = [])); [done|].
  induction Hf as [|f filters Hb _ IH]; [done|].
  cbn. by rewrite filter_matches_lower, IH.
Qed.

Lemma check_token_match_ignores_case_witness :
  check_token_match (Text.lower <$> pump_token) [pump_filter]
  = check_token_match pump_token [pump_filter].
Proof.
  apply (check_token_match_ignores_case pump_token [pump_filter]).
  repeat constructor. by vm_compute.
Defined.

Lemma contains_empty s : Text.contains "" s = true.
Proof. by destruct s. Qed.

(** X4. The empty value as a filter. A [token] filter whose value is the
    empty string (the text prompt stores one when a group message holds
    nothing but the mention of the bot) matches every token that is not
    the empty dict, so once it heads the list of a user every token is
    attributed to it. *)
Theorem empty_token_filter_matches_all (token : Token) (filter_id : string)
    (filters : list WatchlistFilter) :
  token ≠ ∅ →
  check_token_match token (mkFilter filter_id "token" "" :: filters)
  = Some (mkFilter filter_id "token" "").
Proof.
  intros Hne. rewrite check_token_match_nonempty by done.
  cbn [first_match]. unfold filter_matches. cbn [filter_type value Text.lower].
  rewrite !bool_decide_eq_false_2 by done.
  rewrite (bool_decide_eq_true_2 ("token" = "token")) by done.
  cbn [String.length Nat.ltb Nat.leb]. by rewrite contains_empty.
Qed.

Lemma empty_token_filter_matches_all_witness :
  check_token_match other_token [mkFilter "1" "token" ""; pump_filter]
  = Some (mkFilter "1" "token" "").
Proof.
  apply (empty_token_filter_matches_all other_token "1" [pump_filter]).
  apply (bool_decide_unpack _). vm_compute. exact I.
Defined.

(** ** Managing the filters *)

Lemma add_new_filter_spec user_id new_filter s :
  let r := add_new_filter user_id new_filter s in
  let filters := get_list (user_filters s) user_id in
  user_matched_tokens r.2 = user_matched_tokens s
  ∧ user_match_history r.2 = user_match_history s
  ∧ polling_tasks r.2 = polling_tasks s
  ∧ contexts r.2 = contexts s
  ∧ is_Some (user_filters r.2 !! user_id)
  ∧ (∀ v, v ≠ user_id →
          get_list (user_filters r.2) v = get_list (user_filters s) v)
  ∧ (if existsb (λ existing_filter, are_filters_equal existing_filter new_filter) filters
     then r.1 = AlreadyExists ∧ get_list (user_filters r.2) user_id = filters
     else r.1 = Added new_filter
          ∧ get_list (user_filters r.2) user_id = filters ++ [new_filter]).
Proof.
  unfold add_new_filter. cbn [set_filters user_filters].
  rewrite get_list_init.
  assert (Hinit : is_Some (init_list (user_filters s) user_id !! user_id)).
  { unfold init_list. destruct (user_filters s !! user_id) eqn:E; [by rewrite E|].
    by rewrite lookup_insert_eq. }
  destruct (existsb _ _); cbn.
  - split_and!; try done; [intros v _|]; apply get_list_init.
  - split_and!; try done.
    + unfold append_to. by rewrite lookup_insert_eq.
    + intros v Hv. rewrite get_list_append, get_list_init.
      destruct (decide (user_id = v)); [by subst|]. by rewrite app_nil_r.
    + rewrite get_list_append, get_list_init. by rewrite decide_True.
Qed.

Lemma add_filter_command_spec user_id args es :
  match requested_filter args with
  | Some (filter_type, filter_value) =>
      let r := add_new_filter user_id
                 (mkFilter (timestamp_id es.1).1 filter_type filter_value) es.2 in
      add_filter_command user_id args es = (r.1, ((timestamp_id es.1).2, r.2))
  | None =>
      (add_filter_command user_id args es).2 = es
      ∧ ∀ f, (add_filter_command user_id args es).1 ≠ Added f
  end.
Proof.
  unfold requested_filter, add_filter_command.
  destruct args as [|a [|b rest]]; [done..|].
  destruct (negb (bool_decide (Text.lower a ∈ valid_types))); [done|].
  destruct (bool_decide (Text.lower a = "believe")).
  - destruct (Text.py_int _) as [n|]; [|done].
    destruct (n <? 0); [done|].
    unfold timestamp_id, now_ms; cbn. by destruct (add_new_filter _ _ _).
  - unfold timestamp_id, now_ms; cbn. by destruct (add_new_filter _ _ _).
Qed.

Lemma distinct_filters_snoc filters f :
  distinct_filters filters →
  existsb (λ g, are_filters_equal g f) filters = false →
  distinct_filters (filters ++ [f]).
Proof.
  intros Hd Hex i j x y Hi Hj Hlt.
  pose proof (lookup_lt_Some _ _ _ Hj) as Hlen. rewrite length_app in Hlen. cbn in Hlen.
  destruct (decide (j < length filters)%nat) as [Hin|Hout].
  - rewrite lookup_app_l in Hi, Hj by lia. eauto.
  - assert (j = length filters) as -> by lia.
    rewrite lookup_app_l in Hi by lia.
    rewrite lookup_app_r, Nat.sub_diag in Hj by lia. injection Hj as <-.
    destruct (are_filters_equal x f) eqn:E; [|done].
    assert (existsb (λ g, are_filters_equal g f) filters = true); [|congruence].
    apply existsb_exists. exists x. split; [|done].
    apply list_elem_of_In. by eapply list_elem_of_lookup_2.
Qed.

Lemma distinct_filters_delete filters k :
  distinct_filters filters → distinct_filters (delete k filters).
Proof.
  intros Hd i j x y Hi Hj Hlt.
  destruct (decide (j < k)%nat).
  - rewrite list_lookup_delete_lt in Hi, Hj by lia. eauto.
  - rewrite list_lookup_delete_ge in Hj by lia.
    destruct (decide (i < k)%nat).
    + rewrite list_lookup_delete_lt in Hi by lia. eapply Hd; [done..|lia].
    + rewrite list_lookup_delete_ge in Hi by lia. eapply Hd; [done..|lia].
Qed.

Lemma get_list_insert {A} (d : gmap Z (list A)) k k' l :
  get_list (<[k := l]> d) k' = if decide (k = k') then l else get_list d k'.
Proof.
  unfold get_list. destruct (decide (k = k')) as [->|Hne].
  - by rewrite lookup_insert_eq.
  - by rewrite lookup_insert_ne.
Qed.

Lemma add_new_filter_distinct user_id f s :
  (∀ v, distinct_filters (get_list (user_filters s) v)) →
  ∀ v, distinct_filters (get_list (user_filters (add_new_filter user_id f s).2) v).
Proof.
  intros Hd v.
  destruct (add_new_filter_spec user_id f s) as (_ & _ & _ & _ & _ & Hother & Hself).
  destruct (decide (v = user_id)) as [->|Hne]; [|by rewrite Hother].
  destruct (existsb _ _) eqn:E.
  - destruct Hself as [_ ->]. apply Hd.
  - destruct Hself as [_ ->]. by apply distinct_filters_snoc.
Qed.

Lemma remove_filter_at_cases user_id index s :
  let r := remove_filter_at user_id index s in
  (r.2 = s ∧ ∀ f, r.1 ≠ Removed f)
  ∨ ∃ filters f,
      user_filters s !! user_id = Some filters
      ∧ 0 <= index
      ∧ filters !! Z.to_nat index = Some f
      ∧ r = (Removed f, with_filters s user_id (delete (Z.to_nat index) filters)).
Proof.
  unfold remove_filter_at.
  destruct (user_filters s !! user_id) as [filters|] eqn:E; [|by left].
  destruct ((index <? 0) || (Z.of_nat (length filters) <=? index)) eqn:B; [by left|].
  apply orb_false_iff in B as [B1%Z.ltb_ge B2].
  destruct (filters !! Z.to_nat index) as [f|] eqn:L; [|by left].
  right. by exists filters, f.
Qed.

Lemma remove_filter_at_valid user_id index s filters f :
  user_filters s !! user_id = Some filters →
  0 <= index →
  filters !! Z.to_nat index = Some f →
  remove_filter_at user_id index s
  = (Removed f, with_filters s user_id (delete (Z.to_nat index) filters)).
Proof.
  intros E Hi L. unfold remove_filter_at. rewrite E.
  pose proof (lookup_lt_Some _ _ _ L) as Hlt.
  assert ((index <? 0) || (Z.of_nat (length filters) <=? index) = false) as ->.
  { apply orb_false_iff. split; [by apply Z.ltb_ge|]. apply Z.leb_gt. lia. }
  by rewrite L.
Qed.

Lemma remove_filter_at_distinct user_id index s :
  (∀ v, distinct_filters (get_list (user_filters s) v)) →
  ∀ v, distinct_filters (get_list (user_filters (remove_filter_at user_id index s).2) v).
Proof.
  intros Hd v.
  destruct (remove_filter_at_cases user_id index s) as [[-> _]|(filters & f & E & _ & _ & ->)];
    [apply Hd|].
  cbn. rewrite get_list_insert. case_decide as Hv; [|apply Hd].
  apply distinct_filters_delete. specialize (Hd user_id).
  unfold get_list in Hd. by rewrite E in Hd.
Qed.

Lemma handle_filter_request_distinct es r :
  (∀ v, distinct_filters (get_list (user_filters es.2) v)) →
  ∀ v, distinct_filters (get_list (user_filters (handle_filter_request es r).2) v).
Proof.
  intros Hd. destruct r as [u args|u ty input|u ty val|u args|u data]; cbn.
  - pose proof (add_filter_command_spec u args es) as H.
    destruct (requested_filter args) as [[ty val]|].
    + cbv zeta in H. rewrite H. cbn. by apply add_new_filter_distinct.
    + destruct H as [-> _]. done.
  - unfold handle_filter_input.
    destruct (bool_decide (ty = "believe") && negb (isdigit input)); [done|].
    destruct (timestamp_id es.1) as [id e'].
    destruct (add_new_filter u _ es.2) as [r s'] eqn:E. cbn.
    change s' with (r, s').2. rewrite <- E. by apply add_new_filter_distinct.
  - unfold quick_add_filter.
    destruct (timestamp_id es.1) as [id e'].
    destruct (add_new_filter u _ es.2) as [r s'] eqn:E. cbn.
    change s' with (r, s').2. rewrite <- E. by apply add_new_filter_distinct.
  - unfold remove_filter_command. destruct args as [|a ?]; [done|].
    destruct (Text.py_int a); [|done]. by apply remove_filter_at_distinct.
  - unfold remove_filter_button. destruct (Text.py_int _); [|done].
    by apply remove_filter_at_distinct.
Qed.

Lemma distinct_filters_nil : distinct_filters [].
Proof. intros i j f g Hi. by rewrite lookup_nil in Hi. Qed.

Example sample_requests_outcome :
  get_list (user_filters (foldl handle_filter_request (quiet_env, empty_store)
                            sample_requests).2) 7
  = [mkFilter "1700000000" "believe" "100"].
Proof. vm_compute. repeat split; reflexivity. Qed.

Lemma are_filters_equal_ids id1 id2 filter_type value g :
  are_filters_equal (mkFilter id1 filter_type value) g
  = are_filters_equal (mkFilter id2 filter_type value) g.
Proof. done. Qed.

Lemma existsb_snoc_equal filters id1 id2 filter_type value :
  existsb (λ g, are_filters_equal g (mkFilter id2 filter_type value))
          (filters ++ [mkFilter id1 filter_type value]) = true.
Proof.
  rewrite existsb_app. cbn.
  rewrite (are_filters_equal_ids id1 id2),
    (are_filters_equal_refl (mkFilter id2 filter_type value)).
  by rewrite orb_true_r.
Qed.

Lemma add_new_filter_added user_id f s g :
  (add_new_filter user_id f s).1 = Added g →
  g = f
  ∧ existsb (λ x, are_filters_equal x f) (get_list (user_filters s) user_id) = false
  ∧ get_list (user_filters (add_new_filter user_id f s).2) user_id
    = get_list (user_filters s) user_id ++ [f].
Proof.
  intros H.
  destruct (add_new_filter_spec user_id f s) as (_ & _ & _ & _ & _ & _ & Hself).
  destruct (existsb _ _).
  - destruct Hself as [E _]. congruence.
  - destruct Hself as [E ->]. split; [congruence|done].
Qed.

Lemma add_new_filter_exists user_id f s :
  existsb (λ x, are_filters_equal x f) (get_list (user_filters s) user_id) = true →
  is_Some (user_filters s !! user_id) →
  add_new_filter user_id f s = (AlreadyExists, s).
Proof.
  intros Hex [l Hl]. unfold add_new_filter. cbn [set_filters user_filters].
  assert (init_list (user_filters s) user_id = user_filters s) as ->.
  { unfold init_list. by rewrite Hl. }
  rewrite Hex. by destruct s.
Qed.

(** X6. A filter that was just added cannot be added again:
    [add_filter_command] called a second time with the same arguments,
    at whatever time, answers that the filter exists and leaves the
    store as it is. *)
Theorem add_filter_command_twice (user_id : Z) (args : list string)
    (es : Env * Store) (e' : Env) (f : WatchlistFilter) :
  (add_filter_command user_id args es).1 = Added f →
  let s' := (add_filter_command user_id args es).2.2 in
  (add_filter_command user_id args (e', s')).1 = AlreadyExists
  ∧ (add_filter_command user_id args (e', s')).2.2 = s'.
Proof.
  intros Hadd s'. subst s'.
  pose proof (add_filter_command_spec user_id args es) as H1.
  pose proof (add_filter_command_spec user_id args
                (e', (add_filter_command user_id args es).2.2)) as H2.
  destruct (requested_filter args) as [[ty val]|].
  - cbv zeta in H1, H2. rewrite H2. rewrite H1 in Hadd |- *. cbn in Hadd |- *.
    apply add_new_filter_added in Hadd as (-> & _ & Hl).
    destruct (add_new_filter_spec user_id
                (mkFilter (timestamp_id es.1).1 ty val) es.2) as (_ & _ & _ & _ & Hsome & _).
    rewrite add_new_filter_exists; [done| |done].
    rewrite Hl. apply existsb_snoc_equal.
  - destruct H1 as [_ H1]. by destruct (H1 f).
Qed.

Lemma add_filter_command_twice_witness :
  let s' := (add_filter_command 7 ["token"; "pump"] (quiet_env, empty_store)).2.2 in
  (add_filter_command 7 ["token"; "pump"] (failing_env, s')).1 = AlreadyExists
  ∧ (add_filter_command 7 ["token"; "pump"] (failing_env, s')).2.2 = s'.
Proof.
  apply (add_filter_command_twice 7 ["token"; "pump"] (quiet_env, empty_store)
           failing_env (mkFilter "1700000000" "token" "pump")).
  reflexivity.
Defined.

(** X7. A [believe] filter stored by [add_filter_command] carries the
    canonical decimal form of a number that is not negative, whatever
    spelling of the number the command was given; [int] reads the stored
    value back as that number, so the conversion [int(filter_obj.value)]
    of the polling task succeeds for it. *)
Theorem believe_filter_value_is_numeric (user_id : Z) (args : list string)
    (es : Env * Store) (f : WatchlistFilter) :
  (add_filter_command user_id args es).1 = Added f →
  filter_type f = "believe" →
  ∃ n, 0 <= n ∧ value f = pretty n ∧ Text.py_int (value f) = Some n.
Proof.
  intros Hadd Hty.
  pose proof (add_filter_command_spec user_id args es) as H.
  destruct (requested_filter args) as [[ty val]|] eqn:Hreq.
  - cbv zeta in H. rewrite H in Hadd. cbn in Hadd.
    apply add_new_filter_added in Hadd as (-> & _). cbn in Hty |- *. subst ty.
    unfold requested_filter in Hreq.
    destruct args as [|a [|b rest]]; [done..|].
    destruct (negb _); [done|].
    destruct (bool_decide (Text.lower a = "believe")) eqn:B.
    + destruct (Text.py_int _) as [n|]; [|done].
      destruct (n <? 0) eqn:N; [done|]. apply Z.ltb_ge in N.
      injection Hreq as _ <-. exists n. by rewrite py_int_pretty.
    + apply bool_decide_eq_false in B. by injection Hreq as ? _.
  - destruct H as [_ H]. by destruct (H f).
Qed.

Lemma believe_filter_value_is_numeric_witness :
  ∃ n, 0 <= n ∧ "100" = pretty n ∧ Text.py_int "100" = Some n.
Proof.
  apply (believe_filter_value_is_numeric 7 ["Believe"; " +0_100 "]
           (quiet_env, empty_store) (mkFilter "1700000000" "believe" "100"));
    reflexivity.
Defined.

Example believe_filter_is_normalised :
  (add_filter_command 7 ["Believe"; " +0_100 "] (quiet_env, empty_store)).1
  = Added (mkFilter "1700000000" "believe" "100")
  ∧ (add_filter_command 7 ["believe"; "-5"] (quiet_env, empty_store)).1 = NegativeFollowers
  ∧ (add_filter_command 7 ["believe"; "many"] (quiet_env, empty_store)).1 = InvalidNumber
  ∧ (add_filter_command 7 ["believe"; "1"; "000"] (quiet_env, empty_store)).1 = InvalidNumber
  ∧ (handle_filter_input 7 "believe" "0100" (quiet_env, empty_store)).1
    = Added (mkFilter "1700000000" "believe" "0100")
  ∧ (handle_filter_input 7 "believe" "+100" (quiet_env, empty_store)).1 = InvalidNumber.
Proof. vm_compute. repeat split; reflexivity. Qed.

(** ** Removing filters *)

Lemma pretty_nat_digits (i : nat) : all_digits (pretty (Z.of_nat i)) = true.
Proof.
  destruct (Z.of_nat i) as [|p|p] eqn:E; [done| |lia].
  unfold pretty, pretty_Z. change (pretty p) with (pretty (Npos p)).
  apply pretty_N_digits.
Qed.

Lemma delete_last {A} (l : list A) (x : A) : delete (length l) (l ++ [x]) = l.
Proof. rewrite delete_middle. apply app_nil_r. Qed.

(** X8. Adding a filter and then removing the last filter of the list, by
    the number under which [list_filters_command] shows it, gives back
    the filter that was added and restores the list of the user. *)
Theorem add_then_remove_last (user_id : Z) (args : list string) (es : Env * Store)
    (f : WatchlistFilter) :
  (add_filter_command user_id args es).1 = Added f →
  let s1 := (add_filter_command user_id args es).2.2 in
  let last := Z.of_nat (length (get_list (user_filters s1) user_id)) in
  let r := remove_filter_command user_id [pretty last] s1 in
  r.1 = Removed f
  ∧ ∀ v, get_list (user_filters r.2) v = get_list (user_filters es.2) v.
Proof.
  intros Hadd s1 last r. subst s1 last r.
  pose proof (add_filter_command_spec user_id args es) as H.
  destruct (requested_filter args) as [[ty val]|];
    [|destruct H as [_ H]; by destruct (H f)].
  cbv zeta in H. rewrite H in Hadd |- *. cbn [fst snd] in Hadd |- *.
  set (new := mkFilter (timestamp_id es.1).1 ty val) in *.
  destruct (add_new_filter_spec user_id new es.2)
    as (_ & _ & _ & _ & [l Hl] & Hother & _).
  apply add_new_filter_added in Hadd as (-> & _ & Hlist).
  set (s1 := (add_new_filter user_id new es.2).2) in *.
  assert (l = get_list (user_filters es.2) user_id ++ [new]) as Hl'.
  { rewrite <- Hlist. unfold get_list. by rewrite Hl. }
  unfold remove_filter_command. rewrite py_int_pretty.
  rewrite Hlist, length_app. cbn [length].
  rewrite (remove_filter_at_valid user_id _ s1 l new Hl).
  - cbn [fst snd with_filters set_filters user_filters].
    assert (Z.to_nat (Z.of_nat (length (get_list (user_filters es.2) user_id) + 1) - 1)
            = length (get_list (user_filters es.2) user_id)) as -> by lia.
    rewrite Hl', delete_last.
    assert (∀ v, get_list (<[user_id := get_list (user_filters es.2) user_id]>
                             (user_filters s1)) v
                 = get_list (user_filters es.2) v) as Hall.
    { intros v. rewrite get_list_insert. case_decide as Hv; [by subst|].
      apply Hother. congruence. }
    split; [done|apply Hall].
  - lia.
  - rewrite Hl'.
    assert (Z.to_nat (Z.of_nat (length (get_list (user_filters es.2) user_id) + 1) - 1)
            = length (get_list (user_filters es.2) user_id)) as -> by lia.
    by rewrite lookup_app_r, Nat.sub_diag by lia.
Qed.

Lemma add_then_remove_last_witness :
  let s1 := (add_filter_command 7 ["token"; "moon"]
               (quiet_env, store_with_filters 7 [pump_filter])).2.2 in
  let last := Z.of_nat (length (get_list (user_filters s1) 7)) in
  let r := remove_filter_command 7 [pretty last] s1 in
  r.1 = Removed (mkFilter "1700000000" "token" "moon")
  ∧ ∀ v, get_list (user_filters r.2) v
         = get_list (user_filters (quiet_env, store_with_filters 7 [pump_filter]).2) v.
Proof.
  apply (add_then_remove_last 7 ["token"; "moon"]
           (quiet_env, store_with_filters 7 [pump_filter])
           (mkFilter "1700000000" "token" "moon")).
  reflexivity.
Defined.

Lemma remove_all_within_digits old0 old d steps :
  all_digits d = true →
  Text.digit_value old0 = None →
  remove_all_within steps (String old0 old) d = d.
Proof.
  intros Hd Hold. revert d Hd. induction steps as [|steps IH]; intros d Hd; [done|].
  destruct d as [|c r]; [done|].
  cbn in Hd. apply andb_true_iff in Hd as [Hc Hr].
  apply bool_decide_eq_true in Hc as [v Hv].
  cbn -[Ascii.eqb]. destruct (Ascii.eqb_spec old0 c) as [->|_]; [congruence|].
  by rewrite IH.
Qed.

Lemma strip_prefix_app p s : Text.strip_prefix p (p +:+ s) = Some s.
Proof.
  induction p as [|a p IH]; [by destruct s|].
  rewrite append_cons. cbn -[Ascii.eqb]. by rewrite Ascii.eqb_refl.
Qed.

Lemma length_app_string p s : String.length (p +:+ s) = (String.length p + String.length s)%nat.
Proof. induction p as [|a p IH]; [done|]. rewrite append_cons. cbn. by rewrite IH. Qed.

Lemma remove_all_prefix_digits old0 old d :
  all_digits d = true →
  Text.digit_value old0 = None →
  remove_all (String old0 old) (String old0 old +:+ d) = d.
Proof.
  intros Hd Hold. unfold remove_all. cbn [Text.truthy].
  rewrite length_app_string. cbn [String.length Nat.add].
  cbn [remove_all_within]. rewrite strip_prefix_app.
  by apply remove_all_within_digits.
Qed.

Lemma remove_filter_button_index user_id (i : nat) s :
  remove_filter_button user_id ("remove_filter_" +:+ pretty (Z.of_nat i)) s
  = remove_filter_at user_id (Z.of_nat i) s.
Proof.
  unfold remove_filter_button.
  rewrite remove_all_prefix_digits by (done || apply pretty_nat_digits).
  by rewrite py_int_pretty.
Qed.

(** X9. The remove button that [list_filters_callback] attaches to the
    filter listed in place [i] (counted from zero) removes that filter
    and no other, and does what [remove_filter_command] does for the
    number [i + 1] under which the filter is listed. *)
Theorem remove_button_removes_listed_filter (user_id : Z)
    (filters : list WatchlistFilter) (i : nat) (f : WatchlistFilter)
    (data : string) (e : Env) (s : Store) :
  user_filters s !! user_id = Some filters →
  filters !! i = Some f →
  remove_buttons filters !! i = Some data →
  button_handler user_id data (e, s)
  = Some (ButtonRemoved (Removed f), (e, with_filters s user_id (delete i filters)))
  ∧ remove_filter_command user_id [pretty (Z.of_nat (S i))] s
    = (Removed f, with_filters s user_id (delete i filters)).
Proof.
  intros Hs Hf Hdata. unfold remove_buttons in Hdata.
  rewrite list_lookup_imap, Hf in Hdata. injection Hdata as <-.
  assert (remove_filter_at user_id (Z.of_nat i) s
          = (Removed f, with_filters s user_id (delete i filters))) as Hat.
  { rewrite (remove_filter_at_valid user_id _ s filters f Hs); rewrite ?Nat2Z.id; [done|lia|done]. }
  split.
  - unfold button_handler.
    change ("remove_filter_" +:+ ?d) with (String "r" ("emove_filter_" +:+ d)).
    rewrite !bool_decide_eq_false_2 by done. cbn [orb].
    change (Text.startswith "add_filter_" (String "r" ?x)) with false.
    change (Text.startswith "quick_add_token_" (String "r" ?x)) with false.
    change (Text.startswith "quick_add_twitter_" (String "r" ?x)) with false.
    change (Text.startswith "quick_add_believe_" (String "r" ?x)) with false.
    cbv iota.
    change (String "r" ("emove_filter_" +:+ ?d)) with ("remove_filter_" +:+ d).
    unfold Text.startswith. rewrite strip_prefix_app.
    cbn [fst snd]. by rewrite remove_filter_button_index, Hat.
  - unfold remove_filter_command. rewrite py_int_pretty.
    replace (Z.of_nat (S i) - 1) with (Z.of_nat i) by lia. done.
Qed.

Lemma remove_button_removes_listed_filter_witness :
  button_handler 7 "remove_filter_1"
    (quiet_env, store_with_filters 7 [pump_filter; believe_filter])
  = Some (ButtonRemoved (Removed believe_filter),
          (quiet_env,
           with_filters (store_with_filters 7 [pump_filter; believe_filter]) 7
             (delete 1%nat [pump_filter; believe_filter])))
  ∧ remove_filter_command 7 [pretty (Z.of_nat 2)]
      (store_with_filters 7 [pump_filter; believe_filter])
    = (Removed believe_filter,
       with_filters (store_with_filters 7 [pump_filter; believe_filter]) 7
         (delete 1%nat [pump_filter; believe_filter])).
Proof.
  apply (remove_button_removes_listed_filter 7 [pump_filter; believe_filter] 1
           believe_filter "remove_filter_1" quiet_env
           (store_with_filters 7 [pump_filter; believe_filter]));
    reflexivity.
Defined.

(** ** Tracking sessions *)

Lemma init_seen_tasks context key s :
  polling_tasks (init_seen context key s) = polling_tasks s
  ∧ user_filters (init_seen context key s) = user_filters s
  ∧ user_matched_tokens (init_seen context key s) = user_matched_tokens s
  ∧ user_match_history (init_seen context key s) = user_match_history s.
Proof. done. Qed.

Lemma start_tracking_tasks user_id chat_id context s key :
  key ≠ get_tracking_key user_id chat_id →
  polling_tasks (start_tracking_command user_id chat_id context s).2 !! key
  = polling_tasks s !! key.
Proof.
  intros Hne. unfold start_tracking_command.
  destruct (negb _ || _); [done|].
  destruct (is_tracking _ s); [done|].
  cbn. by rewrite lookup_insert_ne.
Qed.

Lemma stop_tracking_tasks user_id chat_id s key :
  key ≠ get_tracking_key user_id chat_id →
  polling_tasks (stop_tracking_command user_id chat_id s).2 !! key
  = polling_tasks s !! key.
Proof.
  intros Hne. unfold stop_tracking_command.
  destruct (polling_tasks s !! get_tracking_key user_id chat_id) as [task|]; [|done].
  destruct (negb (task_done task)); [|done].
  cbn. by rewrite lookup_insert_ne.
Qed.

(** X10. Sessions do not interfere: starting or stopping the tracking of
    one user in one chat changes neither the task registered for any
    other pair of user and chat nor whether that pair is being tracked.
    This rests on the key [f"{user_id}:{chat_id}"] being different for
    different pairs. *)
Theorem tracking_sessions_are_independent (user1 chat1 user2 chat2 : Z)
    (context : nat) (s : Store) :
  (user1, chat1) ≠ (user2, chat2) →
  let key := get_tracking_key user2 chat2 in
  let started := (start_tracking_command user1 chat1 context s).2 in
  let stopped := (stop_tracking_command user1 chat1 s).2 in
  polling_tasks started !! key = polling_tasks s !! key
  ∧ is_tracking key started = is_tracking key s
  ∧ polling_tasks stopped !! key = polling_tasks s !! key
  ∧ is_tracking key stopped = is_tracking key s.
Proof.
  intros Hne key started stopped.
  assert (key ≠ get_tracking_key user1 chat1) as Hkey.
  { intros [-> ->]%get_tracking_key_inj. done. }
  assert (polling_tasks started !! key = polling_tasks s !! key) as H1
    by by apply start_tracking_tasks.
  assert (polling_tasks stopped !! key = polling_tasks s !! key) as H2
    by by apply stop_tracking_tasks.
  unfold is_tracking. by rewrite H1, H2.
Qed.

Lemma tracking_sessions_are_independent_witness :
  let key := get_tracking_key 7 (-42) in
  let s := store_with_filters 7 [pump_filter] in
  let started := (start_tracking_command 74 2 0 s).2 in
  let stopped := (stop_tracking_command 74 2 s).2 in
  polling_tasks started !! key = polling_tasks s !! key
  ∧ is_tracking key started = is_tracking key s
  ∧ polling_tasks stopped !! key = polling_tasks s !! key
  ∧ is_tracking key stopped = is_tracking key s.
Proof.
  apply (tracking_sessions_are_independent 74 2 7 (-42) 0
           (store_with_filters 7 [pump_filter])).
  discriminate.
Defined.

Lemma start_tracking_started user_id chat_id context s :
  (start_tracking_command user_id chat_id context s).1 = Started →
  let s' := (start_tracking_command user_id chat_id context s).2 in
  user_filters s' = user_filters s
  ∧ negb (bool_decide (is_Some (user_filters s !! user_id)))
    || bool_decide (get_list (user_filters s) user_id = []) = false
  ∧ polling_tasks s' !! get_tracking_key user_id chat_id
    = Some (mkTask user_id chat_id context false).
Proof.
  unfold start_tracking_command.
  destruct (negb _ || _) eqn:G; [done|].
  destruct (is_tracking _ s) eqn:T; [done|]. intros _. cbn.
  by rewrite lookup_insert_eq.
Qed.

Lemma stop_tracking_twice user_id chat_id s :
  let stopped := (stop_tracking_command user_id chat_id s).2 in
  stop_tracking_command user_id chat_id stopped = (NotTracking, stopped).
Proof.
  cbv zeta. unfold stop_tracking_command at 2 3.
  destruct (polling_tasks s !! get_tracking_key user_id chat_id) as [task|] eqn:E.
  - destruct (negb (task_done task)) eqn:D.
    + unfold stop_tracking_command. cbn. by rewrite lookup_insert_eq.
    + unfold stop_tracking_command. cbn. by rewrite E, D.
  - unfold stop_tracking_command. cbn. by rewrite E.
Qed.

(** X11. The guards of the session commands. Once tracking has started
    for a user in a chat, a further command to start answers that
    tracking is on and changes nothing, whatever context object it comes
    with; a command to stop stops it; and a second command to stop
    answers that nothing is tracked and changes nothing. *)
Theorem session_guards (user_id chat_id : Z) (context context' : nat) (s : Store) :
  let r := start_tracking_command user_id chat_id context s in
  r.1 = Started →
  start_tracking_command user_id chat_id context' r.2 = (AlreadyTracking, r.2)
  ∧ (stop_tracking_command user_id chat_id r.2).1 = Stopped
  ∧ stop_tracking_command user_id chat_id (stop_tracking_command user_id chat_id r.2).2
    = (NotTracking, (stop_tracking_command user_id chat_id r.2).2).
Proof.
  intros r Hstarted. subst r.
  destruct (start_tracking_started _ _ _ _ Hstarted) as (Hf & G & Ht).
  split_and!.
  - unfold start_tracking_command at 1. rewrite Hf, G.
    unfold is_tracking. by rewrite Ht.
  - unfold stop_tracking_command. by rewrite Ht.
  - apply stop_tracking_twice.
Qed.

Lemma session_guards_witness :
  let r := start_tracking_command 7 42 0 (store_with_filters 7 [pump_filter]) in
  start_tracking_command 7 42 1 r.2 = (AlreadyTracking, r.2)
  ∧ (stop_tracking_command 7 42 r.2).1 = Stopped
  ∧ stop_tracking_command 7 42 (stop_tracking_command 7 42 r.2).2
    = (NotTracking, (stop_tracking_command 7 42 r.2).2).
Proof.
  apply (session_guards 7 42 0 1 (store_with_filters 7 [pump_filter])).
  reflexivity.
Defined.

(** ** The polling task: announcements and records *)

Lemma track_token_announce user_id acc token :
  ((track_token user_id acc token).1.1, (track_token user_id acc token).1.2)
  = announce_step (get_list (user_filters acc.2.2) user_id) (acc.1.1, acc.1.2) token.
Proof.
  destruct acc as [[matches seen] es]. unfold track_token, announce_step. cbn [fst snd].
  destruct (address_in token seen); [done|].
  destruct (check_token_match _ _); done.
Qed.

Lemma tracking_fold_announce user_id tokens :
  ∀ acc,
    let r := foldl (track_token user_id) acc tokens in
    (r.1.1, r.1.2)
    = foldl (announce_step (get_list (user_filters acc.2.2) user_id))
            (acc.1.1, acc.1.2) tokens.
Proof.
  induction tokens as [|token tokens IH]; intros acc; [done|].
  cbn. rewrite IH, track_token_filters. by rewrite track_token_announce.
Qed.

Lemma address_in_mono token (seen seen' : gset string) :
  seen ⊆ seen' → address_in token seen = true → address_in token seen' = true.
Proof.
  unfold address_in. intros Hsub. destruct (token !! "address"); [|done].
  intros H%bool_decide_eq_true. apply bool_decide_eq_true. set_solver.
Qed.

Lemma announce_step_seen filters acc token :
  acc.2 ⊆ (announce_step filters acc token).2
  ∧ (is_Some (token !! "address") →
     address_in token (announce_step filters acc token).2 = true
     ∨ check_token_match token filters = None).
Proof.
  unfold announce_step. destruct (address_in token acc.2) eqn:A; [by auto|].
  destruct (check_token_match token filters) eqn:C; [|by auto].
  cbn. split.
  - destruct (token !! "address"); set_solver.
  - intros [a Ha]. left. unfold address_in. rewrite Ha.
    apply bool_decide_eq_true. set_solver.
Qed.

Lemma announce_fold_seen filters tokens :
  ∀ acc,
    let r := foldl (announce_step filters) acc tokens in
    acc.2 ⊆ r.2
    ∧ ∀ token, token ∈ tokens → is_Some (token !! "address") →
        address_in token r.2 = true ∨ check_token_match token filters = None.
Proof.
  induction tokens as [|x tokens IH]; intros acc; cbn.
  - split; [done|]. intros token H. by apply elem_of_nil in H.
  - destruct (IH (announce_step filters acc x)) as [Hsub Hcov].
    destruct (announce_step_seen filters acc x) as [Hsub1 Hcov1].
    split; [by etrans|].
    intros token [->|Hin]%elem_of_cons Haddr; [|by apply Hcov].
    destruct (Hcov1 Haddr) as [H|H]; [|by right].
    left. by eapply address_in_mono.
Qed.

Lemma tracking_fold_silent user_id tokens matches seen es :
  Forall (λ token, address_in token seen = true
                   ∨ check_token_match token (get_list (user_filters es.2) user_id) = None)
         tokens →
  foldl (track_token user_id) (matches, seen, es) tokens = (matches, seen, es).
Proof.
  induction 1 as [|token tokens Hstep _ IH]; [done|].
  cbn [foldl]. unfold track_token at 2.
  destruct Hstep as [->| ->]; [done|]. by destruct (address_in token seen).
Qed.

(** X14. A second turn of the polling task on candidates it has already
    gone through announces nothing and leaves the whole state as it is,
    when every candidate carries an address key (as the tokens of both
    source clients do). *)
Theorem second_tick_is_silent (user_id : Z) (tokens : list Token)
    (seen : gset string) (es : Env * Store) :
  Forall (λ token : Token, is_Some (token !! "address")) tokens →
  let first := tracking_tick user_id tokens seen es in
  tracking_tick user_id tokens first.1.2 first.2 = ([], first.1.2, first.2).
Proof.
  intros Haddr first. unfold tracking_tick at 1.
  apply tracking_fold_silent.
  pose proof (tracking_fold_announce user_id tokens ([], seen, es)) as Hann.
  cbv zeta in Hann. cbn [fst snd] in Hann.
  destruct (announce_fold_seen (get_list (user_filters es.2) user_id) tokens ([], seen))
    as [_ Hcov].
  destruct (tracking_tick_frame user_id tokens seen es) as (Hf & _).
  fold first in Hf. rewrite Hf.
  assert (first.1.2 = (foldl (announce_step (get_list (user_filters es.2) user_id))
                         ([], seen) tokens).2) as ->.
  { rewrite <- Hann. done. }
  apply Forall_forall. intros token Hin.
  apply Hcov; [done|]. by eapply Forall_forall in Haddr.
Qed.

Lemma second_tick_is_silent_witness :
  let first := tracking_tick 7 [pump_token; other_token] ∅
                 (quiet_env, store_with_filters 7 [pump_filter]) in
  tracking_tick 7 [pump_token; other_token] first.1.2 first.2
  = ([], first.1.2, first.2).
Proof.
  apply (second_tick_is_silent 7 [pump_token; other_token] ∅
           (quiet_env, store_with_filters 7 [pump_filter])).
  apply (bool_decide_unpack _). vm_compute. exact I.
Defined.

Lemma is_new_globally_known (token : Token) matched a :
  token !! "address" = Some a →
  a ∈ address_list matched →
  is_new_globally token matched = false.
Proof.
  intros Ha Hin. unfold is_new_globally. apply negb_false_iff.
  apply existsb_exists. unfold address_list in Hin.
  apply list_elem_of_omap in Hin as (existing & Hex & Haddr).
  exists existing. split; [by apply list_elem_of_In|].
  rewrite Haddr, Ha. by apply bool_decide_eq_true.
Qed.

Lemma address_list_app l1 l2 : address_list (l1 ++ l2) = address_list l1 ++ address_list l2.
Proof. unfold address_list. apply omap_app. Qed.

Lemma track_token_matched user_id acc token :
  let r := track_token user_id acc token in
  let G := get_list (user_matched_tokens acc.2.2) user_id in
  let G' := get_list (user_matched_tokens r.2.2) user_id in
  (G' = G ∨ G' = G ++ [token])
  ∧ ((∀ a, a ∈ acc.1.2 → a ∈ address_list G) →
     ∀ a, a ∈ r.1.2 → a ∈ address_list G').
Proof.
  destruct acc as [[matches seen] [e s]]. unfold track_token. cbn [fst snd].
  destruct (address_in token seen); [by auto|].
  destruct (check_token_match _ _) as [f|]; [|by auto].
  cbn [fst snd].
  change (user_matched_tokens (set_matched s (init_list (user_matched_tokens s) user_id)))
    with (init_list (user_matched_tokens s) user_id).
  rewrite get_list_init.
  destruct (is_new_globally token (get_list (user_matched_tokens s) user_id)) eqn:N.
  - destruct (record_match_spec user_id token f e
                (set_matched s (init_list (user_matched_tokens s) user_id)))
      as (_ & _ & _ & HG & _).
    cbv zeta in HG. rewrite (HG user_id). cbn [set_matched user_matched_tokens].
    rewrite get_list_init, decide_True by done.
    split; [by right|]. intros J a Ha. rewrite address_list_app.
    apply elem_of_app.
    destruct (token !! "address") as [b|] eqn:Hb; [|left; by apply J].
    apply elem_of_union in Ha as [->%elem_of_singleton|Ha]; [|left; by apply J].
    right. unfold address_list. cbn. rewrite Hb. set_solver.
  - cbn [fst snd set_matched user_matched_tokens]. rewrite get_list_init.
    split; [by left|]. intros J a Ha.
    destruct (token !! "address") as [b|] eqn:Hb; [|by apply J].
    apply elem_of_union in Ha as [->%elem_of_singleton|Ha]; [|by apply J].
    destruct (decide (b ∈ address_list (get_list (user_matched_tokens s) user_id)))
      as [?|Hnot]; [done|].
    exfalso. unfold is_new_globally in N. apply negb_false_iff in N.
    apply existsb_exists in N as (x & Hx & Heq). rewrite Hb in Heq.
    destruct (x !! "address") as [c|] eqn:Hc; [|done].
    apply bool_decide_eq_true in Heq as ->. apply Hnot.
    unfold address_list. apply list_elem_of_omap. exists x.
    split; [by apply list_elem_of_In|done].
Qed.

Lemma tracking_fold_seen_recorded user_id tokens :
  ∀ acc,
    let r := foldl (track_token user_id) acc tokens in
    (∀ a, a ∈ acc.1.2 → a ∈ address_list (get_list (user_matched_tokens acc.2.2) user_id)) →
    ∀ a, a ∈ r.1.2 → a ∈ address_list (get_list (user_matched_tokens r.2.2) user_id).
Proof.
  induction tokens as [|token tokens IH]; intros acc; [done|].
  cbn. intros J. apply IH. by apply track_token_matched.
Qed.

Lemma track_token_known user_id acc token :
  (∀ f, check_token_match token (get_list (user_filters acc.2.2) user_id) = Some f →
        ∃ a, token !! "address" = Some a
             ∧ a ∈ address_list (get_list (user_matched_tokens acc.2.2) user_id)) →
  let r := track_token user_id acc token in
  get_list (user_matched_tokens r.2.2) user_id
  = get_list (user_matched_tokens acc.2.2) user_id
  ∧ get_list (user_match_history r.2.2) user_id
    = get_list (user_match_history acc.2.2) user_id.
Proof.
  destruct acc as [[matches seen] [e s]]. unfold track_token. cbn [fst snd].
  intros Hknown.
  destruct (address_in token seen); [done|].
  destruct (check_token_match _ _) as [f|]; [|done].
  destruct (Hknown f eq_refl) as (a & Ha & Hin).
  cbn [fst snd].
  change (user_matched_tokens (set_matched s (init_list (user_matched_tokens s) user_id)))
    with (init_list (user_matched_tokens s) user_id).
  rewrite get_list_init.
  rewrite (is_new_globally_known token _ a Ha Hin).
  cbn. by rewrite get_list_init.
Qed.

Lemma tracking_fold_known user_id tokens :
  ∀ acc,
    (∀ token f, token ∈ tokens →
       check_token_match token (get_list (user_filters acc.2.2) user_id) = Some f →
       ∃ a, token !! "address" = Some a
            ∧ a ∈ address_list (get_list (user_matched_tokens acc.2.2) user_id)) →
    let r := foldl (track_token user_id) acc tokens in
    get_list (user_matched_tokens r.2.2) user_id
    = get_list (user_matched_tokens acc.2.2) user_id
    ∧ get_list (user_match_history r.2.2) user_id
      = get_list (user_match_history acc.2.2) user_id.
Proof.
  induction tokens as [|token tokens IH]; intros acc Hknown; [done|].
  cbn [foldl].
  destruct (track_token_known user_id acc token) as [HG HH].
  { intros f Hf. apply (Hknown token f); [by left|done]. }
  destruct (IH (track_token user_id acc token)) as [HG' HH'].
  { intros x f Hx Hf. rewrite track_token_filters in Hf. rewrite HG.
    apply (Hknown x f); [by right|done]. }
  cbv zeta. by rewrite HG', HH'.
Qed.

(** X15. Announcements are kept per chat, records per user. When the
    polling tasks of two chats of one user go through the same candidates,
    each starting from an empty seen set, the second task announces the
    batch the first announced, and nothing is recorded a second time: the
    matches and the history of the user are as the first task left them.
    Every candidate carries an address key. *)
Theorem announcements_per_chat_records_per_user (user_id : Z) (tokens : list Token)
    (es : Env * Store) :
  Forall (λ token : Token, is_Some (token !! "address")) tokens →
  let first := tracking_tick user_id tokens ∅ es in
  let second := tracking_tick user_id tokens ∅ first.2 in
  second.1 = first.1
  ∧ first.1 = announced (get_list (user_filters es.2) user_id) ∅ tokens
  ∧ get_list (user_matched_tokens second.2.2) user_id
    = get_list (user_matched_tokens first.2.2) user_id
  ∧ get_list (user_match_history second.2.2) user_id
    = get_list (user_match_history first.2.2) user_id.
Proof.
  intros Haddr first second.
  pose proof (tracking_fold_announce user_id tokens ([], ∅, es)) as H1.
  pose proof (tracking_fold_announce user_id tokens ([], ∅, first.2)) as H2.
  destruct (tracking_tick_frame user_id tokens ∅ es) as (Hf & _).
  cbv zeta in H1, H2. cbn [fst snd] in H1, H2. fold first in Hf.
  rewrite Hf in H2.
  change (foldl (track_token user_id) ([], ∅, es) tokens) with first in H1.
  change (foldl (track_token user_id) ([], ∅, first.2) tokens) with second in H2.
  assert (first.1 = announced (get_list (user_filters es.2) user_id) ∅ tokens) as E1.
  { unfold announced. rewrite <- H1. by destruct first as [[??]?]. }
  assert (second.1 = first.1) as E2.
  { rewrite E1. unfold announced. rewrite <- H2. by destruct second as [[??]?]. }
  split_and!; [done|done|..];
    apply (tracking_fold_known user_id tokens ([], ∅, first.2)).
  all: intros token f Hin Hf'; cbn [fst snd] in *; rewrite Hf in Hf'.
  all: assert (is_Some (token !! "address")) as [a Ha]
         by by eapply Forall_forall in Haddr.
  all: exists a; split; [done|].
  all: apply (tracking_fold_seen_recorded user_id tokens ([], ∅, es));
         [intros ? H; by apply elem_of_empty in H|].
  all: fold (tracking_tick user_id tokens ∅ es); fold first.
  all: destruct (announce_fold_seen (get_list (user_filters es.2) user_id) tokens ([], ∅))
         as [_ Hcov].
  all: destruct (Hcov token Hin (ex_intro _ a Ha)) as [Hseen|Hnone]; [|congruence].
  all: fold (announced (get_list (user_filters es.2) user_id) ∅ tokens) in Hseen.
  all: rewrite <- E1 in Hseen; unfold address_in in Hseen; rewrite Ha in Hseen.
  all: by apply bool_decide_eq_true in Hseen.
Qed.

Lemma announcements_per_chat_records_per_user_witness :
  let first := tracking_tick 7 [pump_token; pump_token_again; other_token] ∅
                 (quiet_env, store_with_filters 7 [pump_filter]) in
  let second := tracking_tick 7 [pump_token; pump_token_again; other_token] ∅ first.2 in
  second.1 = first.1
  ∧ first.1 = announced (get_list (user_filters
                           (quiet_env, store_with_filters 7 [pump_filter]).2) 7) ∅
                [pump_token; pump_token_again; other_token]
  ∧ get_list (user_matched_tokens second.2.2) 7
    = get_list (user_matched_tokens first.2.2) 7
  ∧ get_list (user_match_history second.2.2) 7
    = get_list (user_match_history first.2.2) 7.
Proof.
  apply (announcements_per_chat_records_per_user 7
           [pump_token; pump_token_again; other_token]
           (quiet_env, store_with_filters 7 [pump_filter])).
  apply (bool_decide_unpack _). vm_compute. exact I.
Defined.

(** ** Invariants of the store under every request *)

Lemma record_match_history user_id token f es v :
  get_list (user_match_history es.2) v
  `prefix_of` get_list (user_match_history (record_match user_id token f es).2) v.
Proof.
  destruct es as [e s].
  destruct (record_match_spec user_id token f e s) as (_ & _ & _ & _ & HH).
  cbv zeta in HH. rewrite (HH v). by apply prefix_app_r.
Qed.

Lemma process_token_history user_id existing acc token v :
  get_list (user_match_history acc.2.2) v
  `prefix_of` get_list (user_match_history (process_token user_id existing acc token).2.2) v.
Proof.
  destruct acc as [matches es]. unfold process_token.
  destruct (address_in token existing); [done|].
  destruct (check_token_match _ _); [|done]. apply record_match_history.
Qed.

Lemma process_new_tokens_history user_id tokens es v :
  get_list (user_match_history es.2) v
  `prefix_of` get_list (user_match_history (process_new_tokens user_id tokens es).2.2) v.
Proof.
  destruct es as [e s]. unfold process_new_tokens.
  destruct (_ || _); [done|].
  set (existing := addresses_of _).
  change (get_list (user_match_history (e, s).2) v)
    with (get_list (user_match_history
                      (([] : list Match),
                       (e, set_matched s (init_list (user_matched_tokens s) user_id))).2.2) v).
  generalize (([] : list Match),
              (e, set_matched s (init_list (user_matched_tokens s) user_id))).
  induction tokens as [|token tokens IH]; intros acc; [done|].
  cbn [foldl]. etrans; [apply (process_token_history user_id existing acc token)|apply IH].
Qed.

Lemma track_token_history user_id acc token v :
  get_list (user_match_history acc.2.2) v
  `prefix_of` get_list (user_match_history (track_token user_id acc token).2.2) v.
Proof.
  destruct acc as [[matches seen] [e s]]. unfold track_token. cbn [fst snd].
  destruct (address_in token seen); [done|].
  destruct (check_token_match _ _) as [f|]; [|done].
  cbn [fst snd]. destruct (is_new_globally _ _); [|done].
  apply (record_match_history user_id token f
           (e, set_matched s (init_list (user_matched_tokens s) user_id))).
Qed.

Lemma tracking_tick_history user_id tokens seen es v :
  get_list (user_match_history es.2) v
  `prefix_of` get_list (user_match_history (tracking_tick user_id tokens seen es).2.2) v.
Proof.
  unfold tracking_tick.
  change (get_list (user_match_history es.2) v)
    with (get_list (user_match_history (([] : list Match), seen, es).2.2) v).
  generalize (([] : list Match), seen, es).
  induction tokens as [|token tokens IH]; intros acc; [done|].
  cbn [foldl]. etrans; [apply (track_token_history user_id acc token)|apply IH].
Qed.

Lemma task_tick_frame user_id chat_id tokens es matches es' :
  task_tick user_id chat_id tokens es = Some (matches, es') →
  ∃ seen,
    user_filters es'.2 = user_filters (tracking_tick user_id tokens seen es).2.2
    ∧ user_matched_tokens es'.2
      = user_matched_tokens (tracking_tick user_id tokens seen es).2.2
    ∧ user_match_history es'.2
      = user_match_history (tracking_tick user_id tokens seen es).2.2.
Proof.
  unfold task_tick.
  destruct (polling_tasks es.2 !! get_tracking_key user_id chat_id) as [task|]; [|done].
  cbn. destruct (seen_in_context _ _ _) as [seen|]; [|done]. cbn.
  destruct (tracking_tick user_id tokens seen es) as [[m seen'] [e1 s1]] eqn:E.
  intros [= <- <-]. exists seen. by rewrite E.
Qed.

Lemma clear_matches_history user_id es v :
  get_list (user_match_history es.2) v
  `prefix_of` get_list (user_match_history (clear_matches_command user_id es).2) v.
Proof.
  destruct es as [e s]. unfold clear_matches_command.
  destruct (_ || _); [done|]. cbn.
  rewrite get_list_insert. rewrite !get_list_init.
  case_decide as Hv; [subst v; by apply prefix_app_r|done].
Qed.

Lemma clear_matches_filters user_id es :
  user_filters (clear_matches_command user_id es).2 = user_filters es.2.
Proof.
  destruct es as [e s]. unfold clear_matches_command.
  by destruct (_ || _).
Qed.

Lemma handle_filter_request_history es r :
  user_match_history (handle_filter_request es r).2 = user_match_history es.2
  ∧ user_matched_tokens (handle_filter_request es r).2 = user_matched_tokens es.2.
Proof.
  destruct r as [u args|u ty input|u ty val|u args|u data]; cbn [handle_filter_request].
  - pose proof (add_filter_command_spec u args es) as H.
    destruct (requested_filter args) as [[ty val]|].
    + cbv zeta in H. rewrite H. cbn [fst snd].
      destruct (add_new_filter_spec u (mkFilter (timestamp_id es.1).1 ty val) es.2)
        as (H1 & H2 & _).
      by rewrite H1, H2.
    + by destruct H as [-> _].
  - unfold handle_filter_input.
    destruct (bool_decide (ty = "believe") && negb (isdigit input)); [done|].
    destruct (timestamp_id es.1) as [id e'].
    destruct (add_new_filter_spec u (mkFilter id ty input) es.2) as (H1 & H2 & _).
    cbv zeta in H1, H2.
    destruct (add_new_filter u _ es.2) as [r s']. cbn [fst snd] in *. exact (conj H2 H1).
  - unfold quick_add_filter.
    destruct (timestamp_id es.1) as [id e'].
    destruct (add_new_filter_spec u (mkFilter id ty val) es.2) as (H1 & H2 & _).
    cbv zeta in H1, H2.
    destruct (add_new_filter u _ es.2) as [r s']. cbn [fst snd] in *. exact (conj H2 H1).
  - unfold remove_filter_command. destruct args as [|a ?]; [done|].
    destruct (Text.py_int a) as [n|]; [|done].
    by destruct (remove_filter_at_cases u (n - 1) es.2)
      as [[-> _]|(filters & f & _ & _ & _ & ->)].
  - unfold remove_filter_button. destruct (Text.py_int _) as [n|]; [|done].
    by destruct (remove_filter_at_cases u n es.2)
      as [[-> _]|(filters & f & _ & _ & _ & ->)].
Qed.

Lemma handle_request_history es r v :
  get_list (user_match_history es.2) v
  `prefix_of` get_list (user_match_history (handle_request es r).2) v.
Proof.
  destruct r as [r|u tokens|u c tokens|u|u c ctx|u c]; cbn [handle_request].
  - by destruct (handle_filter_request_history es r) as [-> _].
  - apply process_new_tokens_history.
  - destruct (is_tracking _ _); [|done].
    destruct (task_tick u c tokens es) as [[m es']|] eqn:E; [|done].
    destruct (task_tick_frame _ _ _ _ _ _ E) as (seen & _ & _ & ->).
    apply tracking_tick_history.
  - apply clear_matches_history.
  - cbn. unfold start_tracking_command.
    destruct (_ || _); [done|]. by destruct (is_tracking _ _).
  - cbn. by destruct (stop_tracking_frame u c es.2) as (_ & _ & -> & _).
Qed.

(** X17. The history of a user is only ever appended to: whatever
    requests are handled (changes of the filters, manual refreshes,
    turns of polling tasks, clearing of the matches, starting and
    stopping of sessions), the history each user had before is a prefix
    of the history the user has afterwards. *)
Theorem history_only_grows (requests : list request) (es : Env * Store) (v : Z) :
  get_list (user_match_history es.2) v
  `prefix_of` get_list (user_match_history (foldl handle_request es requests).2) v.
Proof.
  revert es. induction requests as [|r requests IH]; intros es; [done|].
  cbn [foldl]. etrans; [apply (handle_request_history es r v)|apply IH].
Qed.

Example sample_session_history :
  address_list
    (entry_token <$> get_list (user_match_history
                                 (foldl handle_request (quiet_env, empty_store)
                                    sample_session).2) 7)
  = ["A1"; "A2"].
Proof. vm_compute. repeat split; reflexivity. Qed.

Lemma handle_request_filters es r :
  (∀ q, r ≠ ChangeFilters q) →
  user_filters (handle_request es r).2 = user_filters es.2.
Proof.
  intros Hr. destruct r as [q|u tokens|u c tokens|u|u c ctx|u c]; cbn [handle_request].
  - by destruct (Hr q).
  - destruct es as [e s].
    by destruct (process_new_tokens_spec u tokens e s) as (_ & -> & _).
  - destruct (is_tracking _ _); [|done].
    destruct (task_tick u c tokens es) as [[m es']|] eqn:E; [|done].
    destruct (task_tick_frame _ _ _ _ _ _ E) as (seen & -> & _).
    by destruct (tracking_tick_frame u tokens seen es) as (-> & _).
  - apply clear_matches_filters.
  - cbn. unfold start_tracking_command.
    destruct (_ || _); [done|]. by destruct (is_tracking _ _).
  - cbn. by destruct (stop_tracking_frame u c es.2) as (-> & _).
Qed.

(** X5. No user ever holds two equal filters. Whatever requests are
    handled, in whatever order and for whatever users (filters added by
    the command, by the text prompt or by a button, filters removed by
    the command or by a button, refreshes, polling turns, clearing of
    matches, sessions started and stopped), each stored filter differs,
    in the sense of [are_filters_equal], from every filter stored before
    it in the list of its user. *)
Theorem filters_stay_distinct (requests : list request) (es : Env * Store) :
  (∀ v, distinct_filters (get_list (user_filters es.2) v)) →
  ∀ v, distinct_filters (get_list (user_filters (foldl handle_request es requests).2) v).
Proof.
  revert es. induction requests as [|r requests IH]; intros es Hd; [done|].
  cbn [foldl]. apply IH. intros v.
  destruct r as [q| | | | |];
    [by apply handle_filter_request_distinct|rewrite handle_request_filters by done..];
    apply Hd.
Qed.

Lemma filters_stay_distinct_witness :
  distinct_filters
    (get_list (user_filters (foldl handle_request (quiet_env, empty_store)
                               (sample_session
                                ++ (ChangeFilters <$> sample_requests))).2) 7).
Proof.
  apply (filters_stay_distinct (sample_session ++ (ChangeFilters <$> sample_requests))
           (quiet_env, empty_store)).
  intros v. apply distinct_filters_nil.
Defined.

(** ** The manual refresh *)

Lemma process_token_frame user_id existing acc token :
  let r := process_token user_id existing acc token in
  polling_tasks r.2.2 = polling_tasks acc.2.2
  ∧ contexts r.2.2 = contexts acc.2.2
  ∧ (is_Some (user_matched_tokens acc.2.2 !! user_id) →
     is_Some (user_matched_tokens r.2.2 !! user_id))
  ∧ ∀ v, v ≠ user_id →
      get_list (user_matched_tokens r.2.2) v = get_list (user_matched_tokens acc.2.2) v
      ∧ get_list (user_match_history r.2.2) v = get_list (user_match_history acc.2.2) v.
Proof.
  destruct acc as [matches [e s]]. unfold process_token. cbn [fst snd].
  destruct (address_in token existing); [done|].
  destruct (check_token_match _ _) as [f|]; [|done].
  destruct (record_match_spec user_id token f e s) as (_ & Hc & Ht & HG & HH).
  cbv zeta in *. cbn [fst snd] in *. split_and!; [done|done|..].
  - intros _. cbn. unfold append_to. by rewrite lookup_insert_eq.
  - intros v Hv. rewrite (HG v), (HH v), !decide_False by done.
    by rewrite !app_nil_r.
Qed.

Lemma process_fold_frame user_id existing tokens :
  ∀ acc,
    let r := foldl (process_token user_id existing) acc tokens in
    polling_tasks r.2.2 = polling_tasks acc.2.2
    ∧ contexts r.2.2 = contexts acc.2.2
    ∧ (is_Some (user_matched_tokens acc.2.2 !! user_id) →
       is_Some (user_matched_tokens r.2.2 !! user_id))
    ∧ ∀ v, v ≠ user_id →
        get_list (user_matched_tokens r.2.2) v = get_list (user_matched_tokens acc.2.2) v
        ∧ get_list (user_match_history r.2.2) v = get_list (user_match_history acc.2.2) v.
Proof.
  induction tokens as [|token tokens IH]; intros acc; [done|].
  cbn [foldl]. cbv zeta.
  destruct (IH (process_token user_id existing acc token)) as (H1 & H2 & H3 & H4).
  destruct (process_token_frame user_id existing acc token) as (G1 & G2 & G3 & G4).
  rewrite H1, H2, G1, G2. split_and!; [done|done|by auto|].
  intros v Hv. destruct (H4 v Hv) as [-> ->]. by apply G4.
Qed.

Lemma process_token_filters user_id existing acc token :
  user_filters (process_token user_id existing acc token).2.2 = user_filters acc.2.2.
Proof.
  destruct acc as [matches es]. unfold process_token.
  destruct (address_in token existing); [done|].
  destruct (check_token_match _ _); [|done]. apply record_match_filters.
Qed.

Lemma process_token_entries user_id existing acc token :
  ∃ entries,
    get_list (user_match_history (process_token user_id existing acc token).2.2) user_id
    = get_list (user_match_history acc.2.2) user_id ++ entries
    ∧ (λ entry, (entry_token entry, entry_filter entry)) <$> entries
      = new_matches_of existing (get_list (user_filters acc.2.2) user_id) [token].
Proof.
  destruct acc as [matches [e s]]. rewrite new_matches_of_cons.
  change (new_matches_of _ _ []) with ([] : list Match). rewrite app_nil_r.
  unfold process_token. cbn [fst snd].
  destruct (address_in token existing).
  { exists []. split; [by rewrite app_nil_r|done]. }
  destruct (check_token_match _ _) as [f|].
  2: { exists []. split; [by rewrite app_nil_r|done]. }
  destruct (record_match_spec user_id token f e s) as (_ & _ & _ & _ & HR).
  cbv zeta in HR. cbn [fst snd]. rewrite (HR user_id), decide_True by done.
  by exists [mkEntry token (wall_clock e (clock_reads e)) f].
Qed.

Lemma new_matches_of_app existing filters l1 l2 :
  new_matches_of existing filters (l1 ++ l2)
  = new_matches_of existing filters l1 ++ new_matches_of existing filters l2.
Proof. unfold new_matches_of. apply omap_app. Qed.

Lemma process_fold_entries user_id existing tokens :
  ∀ acc,
    let r := foldl (process_token user_id existing) acc tokens in
    ∃ entries,
      get_list (user_match_history r.2.2) user_id
      = get_list (user_match_history acc.2.2) user_id ++ entries
      ∧ (λ entry, (entry_token entry, entry_filter entry)) <$> entries
        = new_matches_of existing (get_list (user_filters acc.2.2) user_id) tokens.
Proof.
  induction tokens as [|token tokens IH]; intros acc.
  - exists []. by rewrite app_nil_r.
  - cbn [foldl]. cbv zeta.
    destruct (IH (process_token user_id existing acc token)) as (entries & HH & HE).
    destruct (process_token_entries user_id existing acc token) as (first & HH1 & HE1).
    rewrite process_token_filters in HE.
    exists (first ++ entries). split.
    + by rewrite HH, HH1, <- app_assoc.
    + change (token :: tokens) with ([token] ++ tokens).
      by rewrite fmap_app, new_matches_of_app, HE, HE1.
Qed.

(** X12. What a manual refresh does. [process_new_tokens] returns, in the
    order of the batch, exactly the tokens whose address was not among
    the matches of the user before the call and that a filter of the
    user matches, each with the first filter that matches it; it appends
    exactly these tokens to the matches of the user and one record for
    each, with that filter, to the history; and it touches neither the
    filters, the sessions and the seen sets nor the matches and the
    history of any other user. *)
Theorem process_new_tokens_result (user_id : Z) (tokens : list Token)
    (e : Env) (s : Store) :
  let r := process_new_tokens user_id tokens (e, s) in
  let added :=
    new_matches_of (addresses_of (get_list (user_matched_tokens s) user_id))
      (get_list (user_filters s) user_id) tokens in
  r.1 = added
  ∧ get_list (user_matched_tokens r.2.2) user_id
    = get_list (user_matched_tokens s) user_id ++ added.*1
  ∧ (∃ entries,
       get_list (user_match_history r.2.2) user_id
       = get_list (user_match_history s) user_id ++ entries
       ∧ (λ entry, (entry_token entry, entry_filter entry)) <$> entries = added)
  ∧ user_filters r.2.2 = user_filters s
  ∧ polling_tasks r.2.2 = polling_tasks s
  ∧ contexts r.2.2 = contexts s
  ∧ ∀ v, v ≠ user_id →
      get_list (user_matched_tokens r.2.2) v = get_list (user_matched_tokens s) v
      ∧ get_list (user_match_history r.2.2) v = get_list (user_match_history s) v.
Proof.
  pose proof (process_new_tokens_spec user_id tokens e s) as Hspec.
  cbv zeta in Hspec |- *. destruct Hspec as (H1 & H2 & H3 & _).
  split; [done|]. split; [done|]. split; [|split; [done|]].
  - unfold process_new_tokens in *.
    destruct (bool_decide (tokens = []) || _ || _) eqn:G.
    + cbn [fst snd] in *. rewrite <- H1. exists []. by rewrite app_nil_r.
    + set (s0 := set_matched s (init_list (user_matched_tokens s) user_id)) in *.
      destruct (process_fold_entries user_id
                  (addresses_of (get_list (user_matched_tokens s0) user_id))
                  tokens ([], (e, s0))) as (entries & HH & HE).
      exists entries. split; [done|]. rewrite HE. subst s0.
      cbn [fst snd set_matched user_matched_tokens user_filters].
      by rewrite get_list_init.
  - unfold process_new_tokens.
    destruct (bool_decide (tokens = []) || _ || _) eqn:G; [done|].
    set (s0 := set_matched s (init_list (user_matched_tokens s) user_id)) in *.
    destruct (process_fold_frame user_id
                (addresses_of (get_list (user_matched_tokens s0) user_id))
                tokens ([], (e, s0))) as (Ht & Hc & _ & HF).
    split; [done|]. split; [done|].
    intros v Hv. destruct (HF v Hv) as [-> ->]. subst s0. cbn.
    by rewrite get_list_init.
Qed.


Lemma process_fold_silent user_id existing tokens matches es :
  Forall (λ token, address_in token existing = true
                   ∨ check_token_match token (get_list (user_filters es.2) user_id) = None)
         tokens →
  foldl (process_token user_id existing) (matches, es) tokens = (matches, es).
Proof.
  induction 1 as [|token tokens Hstep _ IH]; [done|].
  cbn [foldl]. unfold process_token at 2.
  destruct Hstep as [->| ->]; [done|]. by destruct (address_in token existing).
Qed.

Lemma address_in_app token l1 l2 :
  address_in token (addresses_of l1) = true →
  address_in token (addresses_of (l1 ++ l2)) = true.
Proof.
  apply address_in_mono. unfold addresses_of. rewrite omap_app, list_to_set_app.
  set_solver.
Qed.

Lemma address_in_member (token : Token) tokens :
  is_Some (token !! "address") → token ∈ tokens →
  address_in token (addresses_of tokens) = true.
Proof.
  intros [a Ha] Hin. unfold address_in. rewrite Ha. apply bool_decide_eq_true.
  apply elem_of_addresses_of. by exists token.
Qed.

Lemma init_list_is_Some {A} (d : gmap Z (list A)) k : is_Some (init_list d k !! k).
Proof.
  unfold init_list. destruct (d !! k) eqn:E; [by rewrite E|].
  by rewrite lookup_insert_eq.
Qed.

Lemma init_list_idemp {A} (d : gmap Z (list A)) k : is_Some (d !! k) → init_list d k = d.
Proof. intros [l Hl]. unfold init_list. by rewrite Hl. Qed.

(** X13. A manual refresh repeated on the same batch does nothing: the
    second call of [process_new_tokens] returns no match and leaves the
    store and the clock as the first call left them, when every token
    of the batch carries an address key. *)
Theorem refresh_twice_is_noop (user_id : Z) (tokens : list Token) (es : Env * Store) :
  Forall (λ token : Token, is_Some (token !! "address")) tokens →
  let first := process_new_tokens user_id tokens es in
  process_new_tokens user_id tokens first.2 = ([], first.2).
Proof.
  intros Haddr first. destruct es as [e s].
  destruct (process_new_tokens_spec user_id tokens e s) as (H1 & Hf & HG & _).
  fold first in H1, Hf, HG.
  assert (first.2 = (first.2.1, first.2.2)) as Hpair by by destruct first as [? []].
  rewrite Hpair at 1.
  unfold process_new_tokens at 1. rewrite Hf.
  destruct (bool_decide (tokens = [])
            || negb (bool_decide (is_Some (user_filters s !! user_id)))
            || bool_decide (get_list (user_filters s) user_id = [])) eqn:G.
  { by rewrite <- Hpair. }
  assert (is_Some (user_matched_tokens first.2.2 !! user_id)) as Hsome.
  { subst first. unfold process_new_tokens. rewrite G.
    apply (process_fold_frame user_id _ tokens
             ([], (e, set_matched s (init_list (user_matched_tokens s) user_id)))).
    apply init_list_is_Some. }
  rewrite (init_list_idemp _ _ Hsome).
  assert (set_matched first.2.2 (user_matched_tokens first.2.2) = first.2.2) as ->
    by by destruct (first.2.2).
  rewrite process_fold_silent; [by rewrite <- Hpair|].
  cbn [snd]. rewrite Hf, HG.
  apply Forall_forall. intros token Hin.
  assert (is_Some (token !! "address")) as Hsome' by by eapply Forall_forall in Haddr.
  destruct (address_in token (addresses_of (get_list (user_matched_tokens s) user_id)))
    eqn:A; [left; by apply address_in_app|].
  destruct (check_token_match token (get_list (user_filters s) user_id)) as [f|] eqn:C;
    [|by right].
  left. apply address_in_member; [done|].
  apply elem_of_app. right. apply list_elem_of_fmap. exists (token, f).
  split; [done|]. by apply elem_of_new_matches_of.
Qed.

Lemma refresh_twice_is_noop_witness :
  let first := process_new_tokens 7 [pump_token; pump_token_again; other_token]
                 (quiet_env, store_with_filters 7 [pump_filter]) in
  process_new_tokens 7 [pump_token; pump_token_again; other_token] first.2
  = ([], first.2).
Proof.
  apply (refresh_twice_is_noop 7 [pump_token; pump_token_again; other_token]
           (quiet_env, store_with_filters 7 [pump_filter])).
  apply (bool_decide_unpack _). vm_compute. exact I.
Defined.

(** ** Records of the polling task *)

(** X16. The polling task never records an address twice: if no two
    entries of the matches of a user carry the same address, this is
    still so after any number of turns of polling tasks of that user,
    whatever the candidates and the seen sets of the turns. *)
Theorem polling_keeps_addresses_unique (user_id : Z)
    (turns : list (list Token * gset string)) (es : Env * Store) :
  NoDup (address_list (get_list (user_matched_tokens es.2) user_id)) →
  NoDup (address_list
           (get_list (user_matched_tokens (run_ticks user_id es turns).2) user_id)).
Proof.
  revert es. induction turns as [|turn turns IH]; intros es Hnd; [done|].
  cbn. apply IH. by apply tracking_tick_no_duplicate.
Qed.

Lemma polling_keeps_addresses_unique_witness :
  NoDup (address_list
           (get_list (user_matched_tokens
                        (run_ticks 7 (quiet_env, store_with_filters 7 [pump_filter])
                           [([pump_token; pump_token_again], ∅);
                            ([pump_token_again; other_token], ∅)]).2) 7)).
Proof.
  apply (polling_keeps_addresses_unique 7
           [([pump_token; pump_token_again], ∅); ([pump_token_again; other_token], ∅)]
           (quiet_env, store_with_filters 7 [pump_filter])).
  apply NoDup_nil_2.
Defined.

(** ** Clearing the matches *)

Lemma clear_matches_empties user_id es :
  get_list (user_matched_tokens (clear_matches_command user_id es).2) user_id = [].
Proof.
  destruct es as [e s]. unfold clear_matches_command.
  destruct (negb (bool_decide (is_Some (user_matched_tokens s !! user_id)))
            || bool_decide (get_list (user_matched_tokens s) user_id = [])) eqn:G.
  - cbn [snd]. apply orb_true_iff in G as [G|G].
    + apply negb_true_iff, bool_decide_eq_false in G.
      unfold get_list. destruct (user_matched_tokens s !! user_id) eqn:E; [|done].
      destruct G. by eexists.
    + by apply bool_decide_eq_true in G.
  - cbn. by rewrite get_list_insert, decide_True.
Qed.

Lemma address_in_empty token : address_in token ∅ = false.
Proof.
  unfold address_in. destruct (token !! "address"); [|done].
  apply bool_decide_eq_false. set_solver.
Qed.

(** X18. Clearing the matches twice is clearing them once: the second
    [clear_matches_command] finds nothing to fold, reads no clock and
    leaves the store as it is. *)
Theorem clear_matches_twice (user_id : Z) (es : Env * Store) :
  clear_matches_command user_id (clear_matches_command user_id es)
  = clear_matches_command user_id es.
Proof.
  pose proof (clear_matches_empties user_id es) as Hempty.
  destruct (clear_matches_command user_id es) as [e' s'].
  unfold clear_matches_command. cbn [snd] in Hempty. rewrite Hempty.
  rewrite (bool_decide_eq_true_2 ([] = [])) by done. by rewrite orb_true_r.
Qed.

(** X19. Clearing the matches resets the de-duplication of the manual
    refresh: the refresh that follows returns and records every token of
    its batch that a filter matches, also a token that was matched
    before the clearing and has a record in the history already. *)
Theorem clearing_resets_deduplication (user_id : Z) (tokens : list Token)
    (es : Env * Store) :
  let cleared := clear_matches_command user_id es in
  let r := process_new_tokens user_id tokens cleared in
  let added := new_matches_of ∅ (get_list (user_filters es.2) user_id) tokens in
  r.1 = added
  ∧ get_list (user_matched_tokens r.2.2) user_id = added.*1
  ∧ entry_token <$> get_list (user_match_history r.2.2) user_id
    = (entry_token <$> get_list (user_match_history cleared.2) user_id) ++ added.*1
  ∧ ∀ token f, token ∈ tokens →
      check_token_match token (get_list (user_filters es.2) user_id) = Some f →
      (token, f) ∈ r.1.
Proof.
  cbv zeta.
  pose proof (clear_matches_empties user_id es) as Hempty.
  pose proof (clear_matches_filters user_id es) as Hfilters.
  destruct (clear_matches_command user_id es) as [e' s']. cbn [snd] in *.
  destruct (process_new_tokens_spec user_id tokens e' s') as (H1 & _ & H2 & H3).
  cbv zeta in H1, H2, H3. rewrite Hempty, Hfilters in H1, H2, H3.
  change (addresses_of []) with (∅ : gset string) in H1, H2, H3.
  split_and!; [done|done|done|].
  intros token f Hin Hf. rewrite H1.
  apply elem_of_new_matches_of; [done|apply address_in_empty|done].
Qed.

Example cleared_token_is_recorded_again :
  let es := (process_new_tokens 7 [pump_token]
               (quiet_env, store_with_filters 7 [pump_filter])).2 in
  let r := process_new_tokens 7 [pump_token] (clear_matches_command 7 es) in
  r.1.*2 = [pump_filter]
  ∧ address_list (entry_token <$> get_list (user_match_history r.2.2) 7) = ["A1"; "A1"].
Proof. vm_compute. repeat split; reflexivity. Qed.

(** ** The cache of the primary client *)

(** X20. The cache keeps what it is given for the time to live and no
    longer: after [cache_data] stored tokens under a key,
    [get_cached_data] for that key returns them when the clock it reads
    is before the time of storing plus the minutes of the time to live,
    and [None] from then on; the answers for the other keys are as
    before. *)
Theorem cache_expires_after_ttl (key : string) (tokens : list FeedToken)
    (ttl_minutes : Z) (e : Env) (f : Feeds) :
  let stored := cache_data key tokens ttl_minutes (e, f) in
  let stored_at := wall_clock e (clock_reads e) in
  let read_at := wall_clock e (S (clock_reads e)) in
  (get_cached_data key stored).1
  = (if read_at <? stored_at + ttl_minutes * 60 * 1000 then Some tokens else None)
  ∧ ∀ key', key' ≠ key →
      (get_cached_data key' stored).1 = (get_cached_data key' (stored.1, f)).1.
Proof.
  cbv zeta. unfold cache_data, get_cached_data, now_ms. cbn.
  rewrite lookup_insert_eq. cbn. split.
  - by destruct (_ <? _).
  - intros key' Hne. by rewrite lookup_insert_ne.
Qed.

(** ** The retry loop *)

Lemma backoff_env max_retries attempt e :
  let e' := backoff max_retries attempt e in
  http e' = http e ∧ http_calls e' = http_calls e
  ∧ wall_clock e' = wall_clock e ∧ clock_reads e' = clock_reads e
  ∧ random_calls e'
    = (random_calls e + (if (attempt <? max_retries - 1)%nat then 1 else 0))%nat
  ∧ count_sleeps (trace e')
    = (count_sleeps (trace e) + (if (attempt <? max_retries - 1)%nat then 1 else 0))%nat.
Proof.
  unfold backoff. destruct (attempt <? max_retries - 1)%nat; cbn.
  - split_and!; try done; [lia|].
    unfold count_sleeps. rewrite filter_app, length_app. done.
  - split_and!; try done; lia.
Qed.

Lemma count_sleeps_attempt events n :
  count_sleeps (events ++ [Attempt n]) = count_sleeps events.
Proof.
  unfold count_sleeps. rewrite filter_app, length_app.
  change (filter _ [Attempt n]) with (@nil event). cbn. lia.
Qed.

Lemma retry_loop_first_success max_retries url payload :
  ∀ k remaining attempt e,
    (k < remaining)%nat →
    (attempt + remaining = max_retries)%nat →
    (∀ i, (i < k)%nat → http e (http_calls e + i)%nat url = HttpError) →
    http e (http_calls e + k)%nat url = HttpOk payload →
    let r := retry_loop max_retries remaining attempt url e in
    r.1 = payload
    ∧ http_calls r.2 = (http_calls e + k + 1)%nat
    ∧ random_calls r.2 = (random_calls e + k)%nat
    ∧ count_sleeps (trace r.2) = (count_sleeps (trace e) + k)%nat
    ∧ wall_clock r.2 = wall_clock e ∧ clock_reads r.2 = clock_reads e.
Proof.
  induction k as [|k IH]; intros remaining attempt e Hk Hsum Hfail Hok.
  - destruct remaining as [|remaining]; [lia|]. cbn [retry_loop].
    unfold http_get. rewrite Nat.add_0_r in Hok. rewrite Hok.
    cbn [fst snd http_calls random_calls trace wall_clock clock_reads].
    rewrite count_sleeps_attempt. split_and!; try done; lia.
  - destruct remaining as [|remaining]; [lia|]. cbn [retry_loop].
    unfold http_get.
    pose proof (Hfail 0%nat ltac:(lia)) as H0. rewrite Nat.add_0_r in H0. rewrite H0.
    set (e1 := mkEnv _ _ _ _ _ _ _).
    destruct (backoff_env max_retries attempt e1) as (Hh & Hc & Hw & Hr & Hrand & Hsl).
    assert ((attempt <? max_retries - 1)%nat = true) as Hlt by (apply Nat.ltb_lt; lia).
    rewrite Hlt in Hrand, Hsl.
    destruct (IH remaining (S attempt) (backoff max_retries attempt e1))
      as (H1 & H2 & H3 & H4 & H5 & H6).
    + lia.
    + lia.
    + intros i Hi. rewrite Hh, Hc. subst e1. cbn [http http_calls].
      replace (S (http_calls e) + i)%nat with (http_calls e + S i)%nat by lia.
      apply Hfail. lia.
    + rewrite Hh, Hc. subst e1. cbn [http http_calls].
      by replace (S (http_calls e) + k)%nat with (http_calls e + S k)%nat by lia.
    + cbv zeta. rewrite H1, H2, H3, H4, H5, H6, Hc, Hrand, Hsl, Hw, Hr.
      subst e1. cbn [fst snd http_calls random_calls trace wall_clock clock_reads].
      rewrite count_sleeps_attempt. split_and!; try done; lia.
Qed.

(** X21. [fetch_with_retry] stops at the first attempt that succeeds: if
    the first [k] requests fail and the next one, still within
    [max_retries], is answered, the payload of that answer is returned
    after exactly [k + 1] requests and [k] pauses, and the wall clock is
    not read. *)
Theorem fetch_with_retry_first_success (url : string) (max_retries k : nat)
    (payload : json) (e : Env) :
  (k < max_retries)%nat →
  (∀ i, (i < k)%nat → http e (http_calls e + i)%nat url = HttpError) →
  http e (http_calls e + k)%nat url = HttpOk payload →
  let r := fetch_with_retry url max_retries e in
  r.1 = payload
  ∧ http_calls r.2 = (http_calls e + k + 1)%nat
  ∧ count_sleeps (trace r.2) = (count_sleeps (trace e) + k)%nat
  ∧ clock_reads r.2 = clock_reads e.
Proof.
  intros Hk Hfail Hok. cbv zeta. unfold fetch_with_retry.
  destruct (retry_loop_first_success max_retries url payload k max_retries 0%nat e)
    as (H1 & H2 & _ & H4 & _ & H6); try done.
Qed.

Lemma fetch_with_retry_first_success_witness :
  let r := fetch_with_retry "https://data.solanatracker.io/tokens/latest?limit=50" 3
             flaky_env in
  r.1 = sample_payload
  ∧ http_calls r.2 = (http_calls flaky_env + 1 + 1)%nat
  ∧ count_sleeps (trace r.2) = (count_sleeps (trace flaky_env) + 1)%nat
  ∧ clock_reads r.2 = clock_reads flaky_env.
Proof.
  apply (fetch_with_retry_first_success
           "https://data.solanatracker.io/tokens/latest?limit=50" 3 1
           sample_payload flaky_env).
  - lia.
  - intros i Hi. assert (i = 0%nat) as -> by lia. reflexivity.
  - reflexivity.
Defined.

(** ** The primary client *)

Lemma some_tokens_nonempty r : some_tokens r = true → default [] r ≠ [].
Proof. by destruct r as [[|??]|]. Qed.

Lemma get_cached_data_env key e f :
  let r := get_cached_data key (e, f) in
  http r.2 = http e ∧ http_calls r.2 = http_calls e ∧ trace r.2 = trace e
  ∧ wall_clock r.2 = wall_clock e
  ∧ match r.1 with
    | Some tokens => ∃ entry, token_cache f !! key = Some entry ∧ data entry = tokens
    | None => True
    end.
Proof.
  unfold get_cached_data. destruct (token_cache f !! key) as [entry|]; [|done].
  cbn. destruct (_ <? _); cbn; [|done]. split_and!; try done. by exists entry.
Qed.

Lemma cache_or_mock_nonempty remember now ef : (cache_or_mock remember now ef).1 ≠ [].
Proof.
  rewrite cache_or_mock_result. unfold live_cache.
  destruct (some_tokens (get_cached_data "latest-tokens" ef).1) eqn:E; [|done].
  by destruct ((get_cached_data "latest-tokens" ef).1) as [[|??]|].
Qed.

Lemma process_payload_nonempty now payload ef : (process_payload now payload ef).1 ≠ [].
Proof.
  unfold process_payload.
  assert (∀ remember, (cache_or_mock remember now ef).1 ≠ []) as Hc
    by (intros; apply cache_or_mock_nonempty).
  destruct payload; try apply Hc; cbn [payload_items];
    destruct (omap process_item _) eqn:E; try done;
    destruct ef as [e f]; by destruct (cache_data _ _ _ _).
Qed.

(** X22. [fetch_latest_tokens] never returns an empty list, whatever the
    endpoint answers and whatever the cache holds: it returns a response
    it remembers only when that holds tokens, and falls back to the mock
    tokens otherwise. The branch of [refresh_command] for an empty
    result is therefore never taken. *)
Theorem fetch_latest_tokens_never_empty (force_refresh : bool) (ef : Env * Feeds) :
  ∃ token tokens, (fetch_latest_tokens force_refresh ef).1 = token :: tokens.
Proof.
  cut ((fetch_latest_tokens force_refresh ef).1 ≠ []).
  { destruct (fetch_latest_tokens force_refresh ef).1 as [|token tokens]; [done|].
    intros _. by exists token, tokens. }
  destruct ef as [e f]. unfold fetch_latest_tokens.
  destruct (now_ms e) as [now e1].
  destruct (negb force_refresh && (now - last_fetch_time f <? 1500)
            && some_tokens (cached_response f)) eqn:G.
  { apply andb_true_iff in G as [_ G]. by apply some_tokens_nonempty. }
  destruct (if negb force_refresh then get_cached_data "latest-tokens" (e1, f)
            else (None, e1)) as [cached_data e2].
  destruct (some_tokens cached_data) eqn:C; [by apply some_tokens_nonempty|].
  destruct (fetch_with_retry _ 3 e2) as [payload e3].
  apply process_payload_nonempty.
Qed.

Lemma mock_tokens_addressed : feed_addressed MOCK_TOKENS.
Proof.
  unfold feed_addressed, MOCK_TOKENS.
  repeat (apply Forall_cons_2; [eexists; split; reflexivity|]). apply Forall_nil_2.
Qed.

Lemma cache_data_addressed key tokens ttl e f :
  feed_addressed tokens → feeds_addressed f →
  feeds_addressed (cache_data key tokens ttl (e, f)).2
  ∧ cached_response (cache_data key tokens ttl (e, f)).2 = cached_response f.
Proof.
  intros Ht [Hr Hc]. unfold cache_data, now_ms. cbn. split; [|done].
  split; [done|]. cbn. intros key' entry.
  destruct (decide (key = key')) as [->|Hne].
  - rewrite lookup_insert_eq. by intros [= <-].
  - rewrite lookup_insert_ne by done. apply Hc.
Qed.

Lemma remember_addressed key tokens ttl now e f :
  feed_addressed tokens → feeds_addressed f →
  let ef' := cache_data key tokens ttl (e, f) in
  feeds_addressed (set_primary ef'.2 (token_cache ef'.2) now (Some tokens)).
Proof.
  intros Ht Hf. destruct (cache_data_addressed key tokens ttl e f Ht Hf) as [[_ Hc] _].
  cbv zeta. split; [done|]. apply Hc.
Qed.

Lemma get_cached_data_addressed key e f tokens :
  feeds_addressed f →
  (get_cached_data key (e, f)).1 = Some tokens → feed_addressed tokens.
Proof.
  intros [_ Hc] H. destruct (get_cached_data_env key e f) as (_ & _ & _ & _ & Hd).
  cbv zeta in Hd. rewrite H in Hd. destruct Hd as (entry & He & <-). by eapply Hc.
Qed.

Lemma cache_or_mock_addressed remember now e f :
  feeds_addressed f →
  feed_addressed (cache_or_mock remember now (e, f)).1
  ∧ feeds_addressed (cache_or_mock remember now (e, f)).2.2.
Proof.
  intros Hf. unfold cache_or_mock.
  destruct (get_cached_data "latest-tokens" (e, f)) as [cached e1] eqn:E.
  destruct (some_tokens cached) eqn:Hsome.
  - cbn. split; [|done]. destruct cached as [tokens|]; [|done]. cbn.
    apply (get_cached_data_addressed "latest-tokens" e f); [done|]. by rewrite E.
  - destruct remember.
    + cbn [snd get_mock_tokens].
      pose proof (remember_addressed "latest-tokens" MOCK_TOKENS 30 now e1 f
                    mock_tokens_addressed Hf) as H.
      cbv zeta in H. destruct (cache_data _ _ _ _) as [e2 f2]. cbn in *.
      split; [apply mock_tokens_addressed|done].
    + cbn. split; [apply mock_tokens_addressed|done].
Qed.

Lemma processed_tokens_addressed items : feed_addressed (omap process_item items).
Proof.
  unfold feed_addressed. apply Forall_forall. intros token Hin.
  apply list_elem_of_omap in Hin as (item & _ & Hitem).
  by apply (process_item_has_address item).
Qed.

Lemma process_payload_addressed now payload e f :
  feeds_addressed f →
  feed_addressed (process_payload now payload (e, f)).1
  ∧ feeds_addressed (process_payload now payload (e, f)).2.2.
Proof.
  intros Hf. unfold process_payload.
  assert (∀ remember,
            feed_addressed (cache_or_mock remember now (e, f)).1
            ∧ feeds_addressed (cache_or_mock remember now (e, f)).2.2) as Hc
    by (intros; by apply cache_or_mock_addressed).
  destruct payload; try apply Hc; cbn [payload_items].
  all: pose proof (processed_tokens_addressed) as Hp.
  all: match goal with |- context [omap process_item ?l] => specialize (Hp l) end.
  all: destruct (omap process_item _) as [|token tokens] eqn:E;
    [split; [apply mock_tokens_addressed|done]|].
  all: pose proof (remember_addressed "latest-tokens" (token :: tokens) 30 now e f Hp Hf)
         as H; cbv zeta in H.
  all: destruct (cache_data _ _ _ _) as [e2 f2]; by cbn in *.
Qed.

(** X23. The primary client hands out tokens with addresses only. If the
    response it remembers and its cache entries hold only tokens with an
    address that is not empty (as they do at the start, when both are
    empty), then every token [fetch_latest_tokens] returns has such an
    address, and what the client remembers afterwards still holds only
    such tokens. *)
Theorem primary_feed_tokens_are_addressed (force_refresh : bool) (e : Env) (f : Feeds) :
  feeds_addressed f →
  feed_addressed (fetch_latest_tokens force_refresh (e, f)).1
  ∧ feeds_addressed (fetch_latest_tokens force_refresh (e, f)).2.2.
Proof.
  intros Hf. unfold fetch_latest_tokens.
  destruct (now_ms e) as [now e1].
  destruct (negb force_refresh && (now - last_fetch_time f <? 1500)
            && some_tokens (cached_response f)) eqn:G.
  { cbn. split; [apply Hf|done]. }
  destruct (if negb force_refresh then get_cached_data "latest-tokens" (e1, f)
            else (None, e1)) as [cached_data e2] eqn:C.
  destruct (some_tokens cached_data) eqn:Hsome.
  - cbn. split; [|done]. destruct cached_data as [tokens|]; [|done]. cbn.
    destruct force_refresh; [done|]. cbn [negb] in C.
    apply (get_cached_data_addressed "latest-tokens" e1 f); [done|]. by rewrite C.
  - destruct (fetch_with_retry _ 3 e2) as [payload e3].
    by apply process_payload_addressed.
Qed.

Lemma primary_feed_tokens_are_addressed_witness :
  feed_addressed (fetch_latest_tokens true (live_env, initial_feeds)).1
  ∧ feeds_addressed (fetch_latest_tokens true (live_env, initial_feeds)).2.2.
Proof.
  apply (primary_feed_tokens_are_addressed true live_env initial_feeds).
  split; [apply Forall_nil_2|]. intros key entry H.
  cbn in H. by rewrite lookup_empty in H.
Defined.

Example live_fetch_result :
  (λ token : FeedToken, token !! "address")
  <$> (fetch_latest_tokens true (live_env, initial_feeds)).1
  = [Some (JStr "LIVE1")].
Proof. vm_compute. reflexivity. Qed.

Lemma process_payload_live now payload items token tokens e f :
  payload_items payload = Some items →
  omap process_item items = token :: tokens →
  process_payload now payload (e, f)
  = (token :: tokens,
     ((now_ms e).2,
      mkFeeds (<["latest-tokens" :=
                   mkCacheEntry (token :: tokens) (wall_clock e (clock_reads e))
                     (wall_clock e (clock_reads e) + 30 * 60 * 1000)]> (token_cache f))
              now (Some (token :: tokens))
              (believe_token_cache f) (last_believe_fetch_time f))).
Proof.
  intros Hitems Hproc. unfold process_payload.
  destruct payload; try done; rewrite Hitems, Hproc; reflexivity.
Qed.

(** X24. What the primary client fetched is reused for half an hour. After
    a forced fetch whose first request is answered with a payload that
    yields tokens, a call without [force_refresh] returns the same
    tokens, sends no request and changes nothing the client remembers,
    as long as the clock it reads is within thirty minutes of the moment
    the tokens were cached. *)
Theorem fetched_tokens_are_reused (e : Env) (f : Feeds) (payload : json)
    (items : list json) (token : FeedToken) (tokens : list FeedToken) :
  http e (http_calls e) (latest_tokens_url true (wall_clock e (clock_reads e)))
  = HttpOk payload →
  payload_items payload = Some items →
  omap process_item items = token :: tokens →
  wall_clock e (clock_reads e + 3)%nat
  < wall_clock e (clock_reads e + 1)%nat + 30 * 60 * 1000 →
  let first := fetch_latest_tokens true (e, f) in
  let second := fetch_latest_tokens false first.2 in
  first.1 = token :: tokens
  ∧ http_calls first.2.1 = S (http_calls e)
  ∧ second.1 = first.1
  ∧ second.2.2 = first.2.2
  ∧ http_calls second.2.1 = http_calls first.2.1.
Proof.
  intros Hok Hitems Hproc Hfresh.
  assert (fetch_latest_tokens true (e, f)
          = process_payload (wall_clock e (clock_reads e)) payload
              ((fetch_with_retry (latest_tokens_url true (wall_clock e (clock_reads e))) 3
                  (now_ms e).2).2, f)) as Hfirst.
  { unfold fetch_latest_tokens. cbn [now_ms negb andb some_tokens].
    destruct (fetch_with_retry _ 3 _) as [p e3] eqn:E.
    destruct (retry_loop_first_success 3
                (latest_tokens_url true (wall_clock e (clock_reads e))) payload
                0 3 0 (now_ms e).2) as (H1 & _); [lia|lia|intros; lia| |].
    - cbn. by rewrite Nat.add_0_r.
    - cbv zeta in H1. unfold fetch_with_retry in E. unfold now_ms in H1. cbn in H1, E.
      rewrite E in H1. cbn in H1. by subst p. }
  destruct (retry_loop_first_success 3
              (latest_tokens_url true (wall_clock e (clock_reads e))) payload
              0 3 0 (now_ms e).2) as (_ & Hcalls & _ & _ & Hw & Hr);
    [lia|lia|intros; lia|cbn; by rewrite Nat.add_0_r|].
  fold (fetch_with_retry (latest_tokens_url true (wall_clock e (clock_reads e))) 3
          (now_ms e).2) in Hcalls, Hw, Hr.
  set (e3 := (fetch_with_retry _ 3 (now_ms e).2).2) in *.
  cbn [now_ms snd wall_clock clock_reads http_calls] in Hcalls, Hw, Hr.
  cbv zeta. rewrite Hfirst.
  rewrite (process_payload_live _ payload items token tokens e3 f Hitems Hproc).
  cbn [fst snd]. split; [done|]. split; [cbn; lia|].
  unfold fetch_latest_tokens. cbn [now_ms wall_clock clock_reads last_fetch_time
    cached_response negb andb some_tokens default].
  rewrite Hw, Hr. cbn [wall_clock clock_reads].
  destruct (_ - _ <? 1500).
  - cbn. split_and!; try done.
  - cbn [andb]. unfold get_cached_data. cbn [token_cache].
    rewrite lookup_insert_eq. cbn [now_ms wall_clock clock_reads expiresAt data fst snd].
    rewrite ?Hw, ?Hr.
    assert ((wall_clock e (S (S (S (clock_reads e))))
             <? wall_clock e (S (clock_reads e)) + 30 * 60 * 1000) = true) as ->.
    { apply Z.ltb_lt.
      replace (S (S (S (clock_reads e)))) with (clock_reads e + 3)%nat by lia.
      replace (S (clock_reads e)) with (clock_reads e + 1)%nat by lia. done. }
    cbn. split_and!; try done.
Qed.

Lemma fetched_tokens_are_reused_witness :
  let first := fetch_latest_tokens true (live_env, initial_feeds) in
  let second := fetch_latest_tokens false first.2 in
  first.1 = default ∅ (head sample_tokens) :: tail sample_tokens
  ∧ http_calls first.2.1 = S (http_calls live_env)
  ∧ second.1 = first.1
  ∧ second.2.2 = first.2.2
  ∧ http_calls second.2.1 = http_calls first.2.1.
Proof.
  apply (fetched_tokens_are_reused live_env initial_feeds sample_payload
           sample_items (default ∅ (head sample_tokens)) (tail sample_tokens)).
  - reflexivity.
  - reflexivity.
  - reflexivity.
  - vm_compute. reflexivity.
Defined.

Lemma retry_loop_calls max_retries url :
  ∀ remaining attempt e,
    let r := retry_loop max_retries (S remaining) attempt url e in
    (http_calls e < http_calls r.2)%nat
    ∧ (http_calls r.2 ≤ http_calls e + S remaining)%nat.
Proof.
  induction remaining as [|remaining IH]; intros attempt e.
  - cbn. destruct (http e (http_calls e) url); cbn.
    + lia.
    + destruct (backoff_env max_retries attempt
                  (mkEnv (wall_clock e) (http e) (random e) (clock_reads e)
                     (S (http_calls e)) (random_calls e) (trace e ++ [Attempt attempt])))
        as (_ & -> & _). cbn. lia.
  - change (retry_loop max_retries (S (S remaining)) attempt url e)
      with (let '(r, e') := http_get attempt url e in
            match r with
            | HttpOk payload => (payload, e')
            | HttpError =>
                retry_loop max_retries (S remaining) (S attempt) url
                  (backoff max_retries attempt e')
            end).
    unfold http_get. destruct (http e (http_calls e) url); cbn -[retry_loop].
    + lia.
    + set (e1 := mkEnv _ _ _ _ _ _ _).
      destruct (IH (S attempt) (backoff max_retries attempt e1)) as [H1 H2].
      destruct (backoff_env max_retries attempt e1) as (_ & Hc & _).
      rewrite Hc in H1, H2. subst e1. cbn [http_calls] in H1, H2. cbv zeta. lia.
Qed.

Lemma cache_or_mock_calls remember now e f :
  http_calls (cache_or_mock remember now (e, f)).2.1 = http_calls e.
Proof.
  unfold cache_or_mock.
  destruct (get_cached_data_env "latest-tokens" e f) as (_ & Hc & _).
  destruct (get_cached_data "latest-tokens" (e, f)) as [cached e1]. cbn in Hc.
  destruct (some_tokens cached); [done|]. by destruct remember.
Qed.

Lemma process_payload_calls now payload e f :
  http_calls (process_payload now payload (e, f)).2.1 = http_calls e.
Proof.
  unfold process_payload.
  destruct payload; try apply cache_or_mock_calls; cbn [payload_items];
    by destruct (omap process_item _).
Qed.

(** X25. A forced fetch always contacts the endpoint: with
    [force_refresh] set, [fetch_latest_tokens] sends at least one request
    and at most three, whatever the rate limit window and the cache. *)
Theorem forced_fetch_always_requests (e : Env) (f : Feeds) :
  let r := fetch_latest_tokens true (e, f) in
  (http_calls e < http_calls r.2.1)%nat ∧ (http_calls r.2.1 ≤ http_calls e + 3)%nat.
Proof.
  cbv zeta. unfold fetch_latest_tokens. cbn [now_ms negb andb some_tokens].
  destruct (retry_loop_calls 3
              (latest_tokens_url true (wall_clock e (clock_reads e))) 2 0
              (now_ms e).2) as [H1 H2].
  cbv zeta in H1, H2.
  fold (fetch_with_retry (latest_tokens_url true (wall_clock e (clock_reads e))) 3
          (now_ms e).2) in H1, H2.
  unfold now_ms in H1, H2. cbn [snd http_calls] in H1, H2.
  destruct (fetch_with_retry _ 3 _) as [payload e3]. cbn [snd] in H1, H2.
  rewrite process_payload_calls. lia.
Qed.

(** ** The Believe client *)

Lemma believe_token_tagged item token :
  believe_token item = Some token →
  token !! "source" = Some (JStr "believe") ∧ is_Some (token !! "address").
Proof.
  destruct item as [| | | | |d]; try done. unfold believe_token.
  intros [= <-]. destruct (sub_dict d "twitter_info"); split; by simplify_map_eq.
Qed.

Lemma mapM_believe_tagged items processed :
  mapM believe_token items = Some processed → believe_tagged processed.
Proof.
  intros H%mapM_Some. unfold believe_tagged.
  induction H as [|item token items processed Hitem _ IH]; [apply Forall_nil_2|].
  apply Forall_cons_2; [by eapply believe_token_tagged|done].
Qed.

Lemma fetch_believe_tokens_cases t force e f :
  let r := fetch_believe_tokens t force (e, f) in
  let key := believe_cache_key t in
  (r.2.2 = f
   ∧ (r.1 = [] ∨ believe_token_cache f !! key = Some r.1))
  ∨ (∃ item items,
       http e (http_calls e) (believe_url t) = HttpOk (JList (item :: items))
       ∧ mapM believe_token (item :: items) = Some r.1
       ∧ r.2.2 = mkFeeds (token_cache f) (last_fetch_time f) (cached_response f)
                   (<[key := r.1]> (believe_token_cache f))
                   (wall_clock e (clock_reads e))).
Proof.
  cbv zeta. unfold fetch_believe_tokens. cbn [now_ms].
  set (guard := negb force && _).
  destruct guard, (believe_token_cache f !! believe_cache_key t) as [cached|] eqn:Hslot;
    [left; by auto|..].
  all: unfold http_get; cbn [http http_calls].
  all: destruct (http e (http_calls e) (believe_url t)) as [payload|] eqn:Hhttp;
         [|left; cbn; by auto].
  all: destruct payload as [| | | |[|item items]|]; try (left; cbn; by auto).
  all: destruct (mapM believe_token (item :: items)) as [processed|] eqn:Hmap;
         [|left; cbn; by auto].
  all: right; exists item, items; by cbn.
Qed.

(** X26. The Believe client changes what it remembers only on a full
    success. [fetch_believe_tokens] either leaves the module state as it
    is and returns the slot cached for the threshold or the empty list,
    or the endpoint answered with a list that is not empty and whose
    entries are all objects, and then the tokens built from it are
    returned, stored in the slot of the threshold and the time of the
    fetch is recorded. The state of the primary client and the slots of
    the other thresholds are never touched, and when the request fails
    the result is the cached slot, or the empty list if there is none. *)
Theorem believe_fetch_outcomes (min_followers : Z) (force_refresh : bool)
    (e : Env) (f : Feeds) :
  let r := fetch_believe_tokens min_followers force_refresh (e, f) in
  let key := believe_cache_key min_followers in
  token_cache r.2.2 = token_cache f
  ∧ last_fetch_time r.2.2 = last_fetch_time f
  ∧ cached_response r.2.2 = cached_response f
  ∧ (∀ other, other ≠ min_followers →
       believe_token_cache r.2.2 !! believe_cache_key other
       = believe_token_cache f !! believe_cache_key other)
  ∧ ((r.2.2 = f ∧ (r.1 = [] ∨ believe_token_cache f !! key = Some r.1))
     ∨ (∃ item items,
          http e (http_calls e) (believe_url min_followers)
          = HttpOk (JList (item :: items))
          ∧ mapM believe_token (item :: items) = Some r.1
          ∧ believe_token_cache r.2.2 !! key = Some r.1
          ∧ last_believe_fetch_time r.2.2 = wall_clock e (clock_reads e)))
  ∧ (http e (http_calls e) (believe_url min_followers) = HttpError →
     r.1 = default [] (believe_token_cache f !! key) ∧ r.2.2 = f).
Proof.
  cbv zeta.
  destruct (fetch_believe_tokens_cases min_followers force_refresh e f)
    as [[Hsame Hres]|(item & items & Hhttp & Hmap & Hstate)]; cbv zeta in *.
  - rewrite Hsame. split_and!; try done; [by left|].
    intros Herr. split; [|done].
    revert Hres. unfold fetch_believe_tokens. cbn [now_ms].
    destruct (negb force_refresh && _),
      (believe_token_cache f !! believe_cache_key min_followers); try done;
      unfold http_get; cbn [http http_calls]; by rewrite Herr.
  - rewrite Hstate. cbn. split_and!; try done.
    + intros other Hne. rewrite lookup_insert_ne; [done|].
      intros Heq. by apply believe_cache_key_inj in Heq.
    + right. exists item, items. by rewrite lookup_insert_eq.
    + intros Herr. congruence.
Qed.

(** X27. Every token the Believe client returns is marked with
    [source = "believe"] and has an [address] key, and so is every token
    it keeps in its cache, provided the cache held only such tokens
    before (as the empty cache at the start does). A [believe] filter
    matches exactly the tokens with that mark, and the key is what the
    de-duplication of the polling task looks at. *)
Theorem believe_tokens_are_tagged (min_followers : Z) (force_refresh : bool)
    (e : Env) (f : Feeds) :
  believe_cache_tagged f →
  let r := fetch_believe_tokens min_followers force_refresh (e, f) in
  believe_tagged r.1 ∧ believe_cache_tagged r.2.2.
Proof.
  intros Hf. cbv zeta.
  destruct (fetch_believe_tokens_cases min_followers force_refresh e f)
    as [[Hsame Hres]|(item & items & Hhttp & Hmap & Hstate)]; cbv zeta in *.
  - rewrite Hsame. split; [|done].
    destruct Hres as [->|Hslot]; [apply Forall_nil_2|by eapply Hf].
  - pose proof (mapM_believe_tagged _ _ Hmap) as Htag. split; [done|].
    rewrite Hstate. intros key slot. cbn.
    destruct (decide (believe_cache_key min_followers = key)) as [<-|Hne].
    + rewrite lookup_insert_eq. by intros [= <-].
    + rewrite lookup_insert_ne by done. apply Hf.
Qed.

Lemma believe_tokens_are_tagged_witness :
  let r := fetch_believe_tokens 100 true (believe_env, initial_feeds) in
  believe_tagged r.1 ∧ believe_cache_tagged r.2.2.
Proof.
  apply (believe_tokens_are_tagged 100 true believe_env initial_feeds).
  intros key slot H. cbn in H. by rewrite lookup_empty in H.
Defined.

(** ** Saving and loading the data of a user *)

Lemma filter_of_to_json f : filter_of_json (filter_to_json f) = Some f.
Proof. destruct f. unfold filter_of_json, filter_to_json. by simplify_map_eq. Qed.

Lemma token_of_to_json (token : Token) : token_of_json (token_to_json token) = Some token.
Proof.
  unfold token_of_json, token_to_json.
  rewrite bool_decide_eq_true_2.
  - f_equal. apply map_eq. intros key.
    rewrite lookup_omap, lookup_fmap. by destruct (token !! key).
  - apply map_Forall_fmap. intros key v _. by eexists.
Qed.

Lemma entry_of_to_json entry : entry_of_json (entry_to_json entry) = Some entry.
Proof.
  destruct entry as [token timestamp f]. unfold entry_of_json, entry_to_json.
  cbn [entry_token entry_timestamp entry_filter].
  set (d := ({[ "token" := token_to_json token; "timestamp" := JNum timestamp;
                "filter" := filter_to_json f ]} : gmap string json)).
  assert (d !! "token" = Some (token_to_json token)) as H1 by (subst d; by simplify_map_eq).
  assert (d !! "timestamp" = Some (JNum timestamp)) as H2 by (subst d; by simplify_map_eq).
  assert (d !! "filter" = Some (filter_to_json f)) as H3 by (subst d; by simplify_map_eq).
  rewrite H1. cbn [mbind option_bind]. rewrite token_of_to_json. cbn [mbind option_bind].
  rewrite H2. cbn [mbind option_bind].
  rewrite H3. cbn [mbind option_bind]. by rewrite filter_of_to_json.
Qed.

Lemma file_names_differ user_id :
  filters_file user_id ≠ matched_tokens_file user_id
  ∧ filters_file user_id ≠ history_file user_id
  ∧ filters_file user_id ≠ sound_file user_id
  ∧ matched_tokens_file user_id ≠ history_file user_id
  ∧ matched_tokens_file user_id ≠ sound_file user_id
  ∧ history_file user_id ≠ sound_file user_id.
Proof.
  unfold filters_file, matched_tokens_file, history_file, sound_file.
  split_and!; intros H; by do 2 apply String.app_inj in H.
Qed.

Lemma save_user_data_files user_id s sound disk filters tokens history enabled :
  user_filters s !! user_id = Some filters →
  user_matched_tokens s !! user_id = Some tokens →
  user_match_history s !! user_id = Some history →
  sound !! user_id = Some enabled →
  let disk' := save_user_data user_id s sound disk in
  disk' !! filters_file user_id = Some (JList (filter_to_json <$> filters))
  ∧ disk' !! matched_tokens_file user_id = Some (JList (token_to_json <$> tokens))
  ∧ disk' !! history_file user_id = Some (JList (entry_to_json <$> history))
  ∧ disk' !! sound_file user_id = Some (JDict {[ "enabled" := JBool enabled ]}).
Proof.
  intros Hf Ht Hh Hs. cbv zeta. unfold save_user_data. rewrite Hf, Ht, Hh, Hs.
  destruct (file_names_differ user_id) as (H1 & H2 & H3 & H4 & H5 & H6).
  split_and!; by simplify_map_eq.
Qed.

(** X28. What is saved is what is loaded. For a user known to the
    process, [save_user_data] followed, in a process that does not know
    the user yet, by [start_command] gives the user the filters, the
    matches, the history and the sound preference that were saved. *)
Theorem saved_data_is_restored (user_id : Z) (s : Store) (sound : gmap Z bool)
    (disk : Disk) (s0 : Store) (sound0 : gmap Z bool) :
  known_user user_id s sound →
  user_filters s0 !! user_id = None →
  ∃ s1 sound1,
    start_command user_id s0 sound0 (save_user_data user_id s sound disk)
    = Some (s1, sound1)
    ∧ user_filters s1 !! user_id = user_filters s !! user_id
    ∧ user_matched_tokens s1 !! user_id = user_matched_tokens s !! user_id
    ∧ user_match_history s1 !! user_id = user_match_history s !! user_id
    ∧ sound1 !! user_id = sound !! user_id.
Proof.
  intros ([filters Hf] & [tokens Ht] & [history Hh] & [enabled Hs]) Hnew.
  destruct (save_user_data_files user_id s sound disk _ _ _ _ Hf Ht Hh Hs)
    as (Ef & Et & Eh & Es).
  unfold start_command. rewrite Hnew. unfold load_user_data, load_file.
  rewrite Ef, Et, Eh, Es. cbn [list_of_json].
  rewrite (mapM_fmap_Some _ _ _ filter_of_to_json),
    (mapM_fmap_Some _ _ _ token_of_to_json),
    (mapM_fmap_Some _ _ _ entry_of_to_json).
  cbn. eexists _, _. split; [done|].
  cbn. rewrite !lookup_insert_eq. by rewrite Hf, Ht, Hh, Hs.
Qed.

Lemma saved_data_is_restored_witness :
  ∃ s1 sound1,
    start_command 7 empty_store ∅ (save_user_data 7 known_store sound_off ∅)
    = Some (s1, sound1)
    ∧ user_filters s1 !! 7 = user_filters known_store !! 7
    ∧ user_matched_tokens s1 !! 7 = user_matched_tokens known_store !! 7
    ∧ user_match_history s1 !! 7 = user_match_history known_store !! 7
    ∧ sound1 !! 7 = sound_off !! 7.
Proof.
  apply (saved_data_is_restored 7 known_store sound_off ∅ empty_store ∅).
  - split_and!; by eexists.
  - reflexivity.
Defined.

(** X29. A filter added before the start command replaces the saved
    filters. In a process that does not know the user yet,
    [add_filter_command] creates the list of the user with the new filter
    alone; the [save_user_data] it ends with writes that list over the
    filters file, whatever the file held; and a [start_command]
    afterwards finds the user known and loads nothing. *)
Theorem add_before_start_replaces_saved_filters (user_id : Z) (args : list string)
    (e : Env) (s0 : Store) (sound : gmap Z bool) (disk : Disk) (f : WatchlistFilter) :
  user_filters s0 !! user_id = None →
  (add_filter_command user_id args (e, s0)).1 = Added f →
  let s1 := (add_filter_command user_id args (e, s0)).2.2 in
  let disk1 := save_user_data user_id s1 sound disk in
  user_filters s1 !! user_id = Some [f]
  ∧ disk1 !! filters_file user_id = Some (JList [filter_to_json f])
  ∧ start_command user_id s1 sound disk1 = Some (s1, sound).
Proof.
  intros Hnew Hadd. cbv zeta.
  pose proof (add_filter_command_spec user_id args (e, s0)) as H.
  destruct (requested_filter args) as [[ty val]|];
    [|destruct H as [_ H]; by destruct (H f)].
  cbv zeta in H. rewrite H in Hadd |- *. cbn [fst snd] in Hadd |- *.
  set (new := mkFilter (timestamp_id e).1 ty val) in *.
  destruct (add_new_filter_spec user_id new s0) as (_ & _ & _ & _ & [l Hl] & _).
  apply add_new_filter_added in Hadd as (-> & _ & Hlist).
  set (s1 := (add_new_filter user_id new s0).2) in *.
  assert (l = [new]) as ->.
  { unfold get_list in Hlist. rewrite Hl, Hnew in Hlist. done. }
  split; [done|]. split.
  - unfold save_user_data. rewrite Hl.
    destruct (file_names_differ user_id) as (H1 & H2 & H3 & _).
    destruct (user_matched_tokens s1 !! user_id), (user_match_history s1 !! user_id),
      (sound !! user_id); by simplify_map_eq.
  - unfold start_command. by rewrite Hl.
Qed.

Lemma add_before_start_replaces_saved_filters_witness :
  let s1 := (add_filter_command 7 ["token"; "moon"] (quiet_env, empty_store)).2.2 in
  let disk1 := save_user_data 7 s1 ∅ (save_user_data 7 known_store sound_off ∅) in
  user_filters s1 !! 7 = Some [mkFilter "1700000000" "token" "moon"]
  ∧ disk1 !! filters_file 7
    = Some (JList [filter_to_json (mkFilter "1700000000" "token" "moon")])
  ∧ start_command 7 s1 ∅ disk1 = Some (s1, ∅).
Proof.
  apply (add_before_start_replaces_saved_filters 7 ["token"; "moon"] quiet_env
           empty_store ∅ (save_user_data 7 known_store sound_off ∅)
           (mkFilter "1700000000" "token" "moon")); reflexivity.
Defined.
